(** * Pixel game: the worker's state engine and the render controller

    A shallow embedding of [src/lib/types.ts], [src/lib/game/state.ts],
    [src/lib/workers/worker.ts] and [src/lib/game/Game.ts].

    JavaScript numbers that only ever hold integers (grid coordinates,
    millisecond clocks, the progress counter) are [Z]; the delay of the
    progress task, which a message may set to any number and which the
    worker multiplies and prints, is a double ([float]); the render side,
    which divides and scales, uses [Q].  [Date.now()], [performance.now()]
    and [Math.random()] are inputs of the handlers that read them. *)

From Stdlib Require Import ZArith List String Ascii Bool Lia QArith DecimalString
  Sorting.Sorted Lqa Floats.
Import ListNotations.
Open Scope string_scope.
Open Scope list_scope.
Open Scope Z_scope.

(* ------------------------------------------------------------------ *)
(** ** src/lib/game/state.ts *)

Module State.

Inductive IdleStateType := ACTIVE | RESTING | IDLE | SLEEPING.

Definition IdleState_toString (s : IdleStateType) : string :=
  match s with
  | ACTIVE => "active" | RESTING => "resting"
  | IDLE => "idle" | SLEEPING => "sleeping"
  end.

Definition IdleState_eqb (a b : IdleStateType) : bool :=
  match a, b with
  | ACTIVE, ACTIVE | RESTING, RESTING | IDLE, IDLE | SLEEPING, SLEEPING => true
  | _, _ => false
  end.

Module IdleThresholds.
Definition RESTING : Z := 200.
Definition IDLE : Z := 5000.
Definition SLEEPING : Z := 30000.
End IdleThresholds.

End State.

(* ------------------------------------------------------------------ *)
(** ** src/lib/types.ts *)

Module Types.
Import State.

Inductive WorkerStatus :=
  STATUS_FINISHED | STATUS_PROCESSING | STATUS_IDLE | STATUS_ERROR.

Definition MESSAGE_START : string := "START".
Definition MESSAGE_GAME_UPDATE : string := "GAME_UPDATE".

(** [TERRAIN]: the constructors carry the names of the constant table, their
    one-letter values are [terrainLetter]. *)
Inductive TerrainType :=
  WATER | BEACH | FOREST | MOUNTAIN | GRASSLAND | RIVER | SWAMP | HILLS.

Definition terrainLetter (t : TerrainType) : string :=
  match t with
  | WATER => "W" | BEACH => "B" | FOREST => "F" | MOUNTAIN => "M"
  | GRASSLAND => "G" | RIVER => "R" | SWAMP => "S" | HILLS => "H"
  end.

Definition terrainNames (t : TerrainType) : string :=
  match t with
  | WATER => "Water" | BEACH => "Beach" | FOREST => "Forest"
  | MOUNTAIN => "Mountain" | GRASSLAND => "Grassland" | RIVER => "River"
  | SWAMP => "Swamp" | HILLS => "Hills"
  end.

Record Position := mkPosition { x : Z; y : Z }.

Inductive Direction := up | down | left | right | back | front.

Definition Direction_toString (d : Direction) : string :=
  match d with
  | up => "up" | down => "down" | left => "left" | right => "right"
  | back => "back" | front => "front"
  end.

(** [src/lib/theme.ts] *)
Record ThemeColors := mkThemeColors {
  primary : string; secondary : string; accent : string;
  background : string; text : string
}.

Record ThemeTerrainColors := mkThemeTerrainColors {
  water : string; beach : string; forest : string; mountain : string;
  grassland : string; river : string; swamp : string; hills : string
}.

Record Theme := mkTheme {
  name : string;
  colors : ThemeColors;
  terrainColors : ThemeTerrainColors
}.

Definition defaultTheme : Theme :=
  {| name := "default";
     colors := {| primary := "#4caf50"; secondary := "#2196f3";
                  accent := "#ff4081"; background := "#ffffff";
                  text := "#000000" |};
     terrainColors := {| water := "#3b6c9e"; beach := "#f2e1a5";
                         forest := "#3b7a57"; mountain := "#4e4e4e";
                         grassland := "#4c9f70"; river := "#5e92a5";
                         swamp := "#5a4f32"; hills := "#d5c29f" |} |}.

Record GameState := mkGameState {
  position : Position;
  facing : Direction;
  isMoving : bool;
  terrain : option TerrainType;
  status : WorkerStatus;
  message : string;
  isStarted : bool;
  idleState : IdleStateType;
  lastActivityTime : Z;
  theme : option Theme
}.

End Types.

(* ------------------------------------------------------------------ *)
(** ** src/lib/workers/worker.ts *)

Module Worker.
Import Types State.

Record WorkerMessage := mkWorkerMessage {
  task : string;
  direction : option Direction;
  time : option float
}.

Inductive MovementCost := Finite (c : Q) | Infinity.

Record TerrainProperties := mkTerrainProperties {
  walkable : bool;
  movementCost : MovementCost;
  name : string
}.

Record WorkerGameState := mkWorkerGameState {
  position : Position;
  facing : Direction;
  isMoving : bool;
  (** [terrain] and [currentTerrain] receive the value of an array read,
      which is [undefined] ([None]) outside the array *)
  terrain : option TerrainType;
  currentTerrain : option TerrainType;
  status : WorkerStatus;
  message : string;
  isStarted : bool;
  idleState : IdleStateType;
  lastActivityTime : Z
}.

(** What [postMessage] hands over: a structured clone, so [r_gameState] is the
    engine state as it was when the event was posted. *)
Record WorkerResponse := mkWorkerResponse {
  r_status : option WorkerStatus;
  r_message : option string;
  r_gameState : option WorkerGameState;
  r_terrainMap : option (list (list TerrainType));
  r_step : option Z;
  r_total : option Z;
  r_result : option float
}.

(** [let gameState = {...}], evaluated when the module is loaded at [now]. *)
Definition initialGameState (now : Z) : WorkerGameState :=
  {| position := {| x := 2; y := 2 |};
     facing := down;
     isMoving := false;
     terrain := Some GRASSLAND;
     currentTerrain := Some GRASSLAND;
     status := STATUS_IDLE;
     message := "";
     isStarted := false;
     idleState := ACTIVE;
     lastActivityTime := now |}.

Definition set_lastActivityTime (v : Z) (g : WorkerGameState) :=
  {| position := position g; facing := facing g; isMoving := isMoving g;
     terrain := terrain g; currentTerrain := currentTerrain g;
     status := status g; message := message g; isStarted := isStarted g;
     idleState := idleState g; lastActivityTime := v |}.

Definition set_idleState (v : IdleStateType) (g : WorkerGameState) :=
  {| position := position g; facing := facing g; isMoving := isMoving g;
     terrain := terrain g; currentTerrain := currentTerrain g;
     status := status g; message := message g; isStarted := isStarted g;
     idleState := v; lastActivityTime := lastActivityTime g |}.

Definition set_facing (v : Direction) (g : WorkerGameState) :=
  {| position := position g; facing := v; isMoving := isMoving g;
     terrain := terrain g; currentTerrain := currentTerrain g;
     status := status g; message := message g; isStarted := isStarted g;
     idleState := idleState g; lastActivityTime := lastActivityTime g |}.

Definition set_position (v : Position) (g : WorkerGameState) :=
  {| position := v; facing := facing g; isMoving := isMoving g;
     terrain := terrain g; currentTerrain := currentTerrain g;
     status := status g; message := message g; isStarted := isStarted g;
     idleState := idleState g; lastActivityTime := lastActivityTime g |}.

Definition set_currentTerrain (v : option TerrainType) (g : WorkerGameState) :=
  {| position := position g; facing := facing g; isMoving := isMoving g;
     terrain := terrain g; currentTerrain := v;
     status := status g; message := message g; isStarted := isStarted g;
     idleState := idleState g; lastActivityTime := lastActivityTime g |}.

Definition set_terrain (v : option TerrainType) (g : WorkerGameState) :=
  {| position := position g; facing := facing g; isMoving := isMoving g;
     terrain := v; currentTerrain := currentTerrain g;
     status := status g; message := message g; isStarted := isStarted g;
     idleState := idleState g; lastActivityTime := lastActivityTime g |}.

Definition set_message (v : string) (g : WorkerGameState) :=
  {| position := position g; facing := facing g; isMoving := isMoving g;
     terrain := terrain g; currentTerrain := currentTerrain g;
     status := status g; message := v; isStarted := isStarted g;
     idleState := idleState g; lastActivityTime := lastActivityTime g |}.

Definition terrainProperties (t : TerrainType) : TerrainProperties :=
  match t with
  | WATER => {| walkable := false; movementCost := Infinity; name := "Water" |}
  | BEACH => {| walkable := true; movementCost := Finite 1; name := "Beach" |}
  | FOREST => {| walkable := true; movementCost := Finite 1.2; name := "Forest" |}
  | MOUNTAIN => {| walkable := false; movementCost := Infinity; name := "Mountain" |}
  | GRASSLAND => {| walkable := true; movementCost := Finite 1; name := "Grassland" |}
  | RIVER => {| walkable := true; movementCost := Finite 1.5; name := "River" |}
  | SWAMP => {| walkable := true; movementCost := Finite 2; name := "Swamp" |}
  | HILLS => {| walkable := true; movementCost := Finite 1.3; name := "Hills" |}
  end.

Module MapLetters.
Definition W := WATER.
Definition B := BEACH.
Definition F := FOREST.
Definition M := MOUNTAIN.
Definition G := GRASSLAND.
Definition R := RIVER.
Definition S := SWAMP.
Definition H := HILLS.
End MapLetters.

Module Reference.
Import MapLetters.
Definition terrainMap : list (list TerrainType) := Eval cbv [W B F M G R S H] in [
  [W;W;W;W;W;W;W;W;W;W;W;W;W;W;W;W;W;W;W;W];
  [W;W;B;B;B;B;B;B;B;B;B;B;B;B;B;B;B;B;W;W];
  [W;B;G;G;F;F;F;H;H;M;H;H;F;F;F;G;G;B;B;W];
  [W;B;G;F;F;H;H;M;M;M;M;H;H;F;F;F;G;G;B;W];
  [W;B;F;F;H;H;M;M;M;M;M;M;H;H;F;F;F;G;B;W];
  [W;R;R;F;H;M;M;M;M;M;M;M;M;H;H;R;F;B;B;W];
  [W;S;R;F;H;H;M;M;M;M;M;H;R;F;F;F;G;B;B;W];
  [W;B;G;R;F;H;H;M;M;M;M;H;R;F;F;F;G;B;B;W];
  [W;B;G;F;R;F;H;H;H;H;H;R;F;F;F;G;B;B;W;W];
  [W;B;G;F;F;R;F;F;F;R;R;F;F;F;G;G;B;B;W;W];
  [W;B;G;F;F;F;R;R;R;F;F;F;F;G;G;B;B;W;W;W];
  [W;S;R;F;F;F;F;F;F;F;F;G;G;G;B;B;W;W;W;W];
  [W;B;B;G;G;G;G;G;G;G;G;G;B;B;B;W;W;W;W;W];
  [W;W;B;B;B;B;B;B;B;B;B;B;B;B;W;W;W;W;W;W];
  [W;W;W;W;W;W;W;W;W;W;W;W;W;W;W;W;W;W;W;W]
].
End Reference.

Definition terrainMap : list (list TerrainType) := Reference.terrainMap.

(** [a[i]] on a JavaScript array: [undefined] (here [None]) outside
    [0 .. length-1]. *)
Definition index {A : Type} (a : list A) (i : Z) : option A :=
  if i <? 0 then None else nth_error a (Z.to_nat i).

(** [a.length] *)
Definition length' {A : Type} (a : list A) : Z := Z.of_nat (List.length a).

(** ** The engine's store and the effects of its handlers *)

(** The coroutine of [longRunningFunction], suspended at its [await]: the
    delay it was called with and the loop counter. *)
Record Progress := mkProgress { p_time : float; p_i : Z }.

Record World := mkWorld {
  gameState : WorkerGameState;
  (** whether [idleCheckInterval] holds a running interval *)
  idleCheckInterval : bool;
  (** one slot per call of [longRunningFunction]; [None] once it returned *)
  tasks : list (option Progress);
  (** every event posted so far, oldest first *)
  outbox : list WorkerResponse
}.

(** Thrown values: [new Error(message)], and the [TypeError] of reading a
    property of [undefined]. *)
Inductive exn := ErrorExn (msg : string) | TypeErrorExn.

(** The text of [error.message] for a [TypeError] is chosen by the JavaScript
    engine. *)
Definition typeErrorMessage : string :=
  "Cannot read properties of undefined".

Definition exn_message (e : exn) : string :=
  match e with
  | ErrorExn m => m
  | TypeErrorExn => typeErrorMessage
  end.

(** State and exceptions: a thrown exception keeps the writes made before
    it. *)
Definition M (A : Type) : Type := World -> (A + exn) * World.

Definition ret {A} (a : A) : M A := fun w => (inl a, w).

Definition bind {A B} (m : M A) (k : A -> M B) : M B :=
  fun w => match m w with
           | (inl a, w') => k a w'
           | (inr e, w') => (inr e, w')
           end.

Definition throw {A} (e : exn) : M A := fun w => (inr e, w).

Definition try_catch {A} (m : M A) (h : exn -> M A) : M A :=
  fun w => match m w with
           | (inl a, w') => (inl a, w')
           | (inr e, w') => h e w'
           end.

Declare Scope engine_scope.
Delimit Scope engine_scope with engine.
Notation "v <- m ;; k" := (bind m (fun v => k))
  (at level 61, m at next level, right associativity) : engine_scope.
Notation "m ;;; k" := (bind m (fun _ => k))
  (at level 61, right associativity) : engine_scope.

Definition getState : M WorkerGameState := fun w => (inl (gameState w), w).

Definition modifyState (f : WorkerGameState -> WorkerGameState) : M unit :=
  fun w => (inl tt, {| gameState := f (gameState w);
                       idleCheckInterval := idleCheckInterval w;
                       tasks := tasks w;
                       outbox := outbox w |}).

Definition postMessage (r : WorkerResponse) : M unit :=
  fun w => (inl tt, {| gameState := gameState w;
                       idleCheckInterval := idleCheckInterval w;
                       tasks := tasks w;
                       outbox := outbox w ++ [r] |}).

(** [clearInterval] followed by [setInterval]: one interval runs afterwards. *)
Definition setIdleInterval : M unit :=
  fun w => (inl tt, {| gameState := gameState w;
                       idleCheckInterval := true;
                       tasks := tasks w;
                       outbox := outbox w |}).

Definition spawn (p : option Progress) : M unit :=
  fun w => (inl tt, {| gameState := gameState w;
                       idleCheckInterval := idleCheckInterval w;
                       tasks := tasks w ++ [p];
                       outbox := outbox w |}).

(** [terrainMap[y][x]]: a [TypeError] when the row is [undefined], the value
    [undefined] when only the column is out of range. *)
Definition cell (py px : Z) : M (option TerrainType) :=
  match index terrainMap py with
  | None => throw TypeErrorExn
  | Some row => ret (index row px)
  end.

(** [terrainNames[t]] inside a template string. *)
Definition terrainNameText (t : option TerrainType) : string :=
  match t with
  | Some t => terrainNames t
  | None => "undefined"
  end.

(** ** The handlers *)

Local Open Scope engine_scope.

(** The callback given to [setInterval] in [startIdleCheck]. *)
Definition idleCheck (now : Z) : M unit :=
  gs <- getState ;;
  let timeSinceLastActivity := now - lastActivityTime gs in
  let newIdleState :=
    if timeSinceLastActivity >=? IdleThresholds.SLEEPING then SLEEPING
    else if timeSinceLastActivity >=? IdleThresholds.IDLE then IDLE
    else if timeSinceLastActivity >=? IdleThresholds.RESTING then RESTING
    else ACTIVE in
  if negb (IdleState_eqb newIdleState (idleState gs)) then
    modifyState (set_idleState newIdleState) ;;;
    gs' <- getState ;;
    postMessage
      {| r_status := Some STATUS_PROCESSING;
         r_message :=
           Some ("State changed to " ++ IdleState_toString newIdleState)%string;
         r_gameState := Some gs';
         r_terrainMap := None;
         r_step := None; r_total := None; r_result := None |}
  else ret tt.

Definition startIdleCheck : M unit := setIdleInterval.

Definition isInBounds (p : Position) : bool :=
  (x p >=? 0) && (x p <? length' (nth 0 terrainMap []))
  && (y p >=? 0) && (y p <? length' terrainMap).

(** [terrainProperties[terrain].walkable] is a [TypeError] on [undefined]. *)
Definition canMove (p : Position) : M bool :=
  if negb (isInBounds p) then ret false
  else
    terrain <- cell (y p) (x p) ;;
    match terrain with
    | Some t => ret (walkable (terrainProperties t))
    | None => throw TypeErrorExn
    end.

Definition total : Z := 100.

(** The decimal digits of an integer *)
Definition digitsText (n : Z) : string := NilZero.string_of_int (Z.to_int n).

Fixpoint zeros (n : nat) : string :=
  match n with O => "" | S n => String "0" (zeros n) end.

(** [ceil (a / b)] for [b > 0] *)
Definition cdiv (a b : Z) : Z := - ((- a) / b).

(** The digits [s] and the exponent [n] that Number::toString prints for a
    positive double: [s * 10^q] is read back as that double, that is, it lies
    between [lo / d] and [hi / d], the midpoints to the neighbouring doubles
    (ends included when the double's significand is even); [q] is the
    largest such power, which makes [s] the shortest; among the candidates
    [s] is the one nearest to the double [v / d], the even one on a tie;
    [n = k + q] for [k] the number of digits of [s]. *)
Fixpoint shortest (fuel : nat) (q : Z) (lo v hi d : Z) (closed : bool)
  : Z * Z :=
  let a := 10 ^ Z.max q 0 * d in
  let b := 10 ^ Z.max (- q) 0 in
  let s_lo := if closed then cdiv (lo * b) a else (lo * b) / a + 1 in
  let s_hi := if closed then (hi * b) / a else cdiv (hi * b) a - 1 in
  if s_lo <=? s_hi then
    let s0 := (v * b) / a in
    let s1 := s0 + 1 in
    let below := v * b - s0 * a in
    let above := s1 * a - v * b in
    let s :=
      if s0 <? s_lo then s1
      else if s_hi <? s1 then s0
      else if below <? above then s0
      else if above <? below then s1
      else if Z.even s0 then s0 else s1 in
    (s, Z.of_nat (String.length (digitsText s)) + q)
  else
    match fuel with
    | O => (0, 0)
    | S fuel => shortest fuel (q - 1) lo v hi d closed
    end.

(** The text of the positive double [m * 2^e]: plain digits up to [10^21],
    a decimal point down to [10^-7], the exponent form beyond. *)
Definition finiteText (m : positive) (e : Z) : string :=
  let boundary := (Zpos m =? 2 ^ 52) && (-1074 <? e) in
  let lo := 4 * Zpos m - (if boundary then 1 else 2) in
  let v := 4 * Zpos m in
  let hi := 4 * Zpos m + 2 in
  let e2 := e - 2 in
  let scale := 2 ^ Z.max e2 0 in
  let d := 2 ^ Z.max (- e2) 0 in
  let q0 := ((Z.log2 hi + e2 + 1) * 30103) / 100000 + 2 in
  let '(s, n) := shortest 400 q0 (lo * scale) (v * scale) (hi * scale) d
                   (Z.even (Zpos m)) in
  let digits := digitsText s in
  let k := Z.of_nat (String.length digits) in
  if (k <=? n) && (n <=? 21) then
    (digits ++ zeros (Z.to_nat (n - k)))%string
  else if (0 <? n) && (n <=? 21) then
    (substring 0 (Z.to_nat n) digits ++ "."
     ++ substring (Z.to_nat n) (Z.to_nat (k - n)) digits)%string
  else if (-6 <? n) && (n <=? 0) then
    ("0." ++ zeros (Z.to_nat (- n)) ++ digits)%string
  else
    let ex := n - 1 in
    let sign := if ex <? 0 then "-" else "+" in
    let mantissa :=
      if k =? 1 then digits
      else (substring 0 1 digits ++ "."
            ++ substring 1 (Z.to_nat (k - 1)) digits)%string in
    (mantissa ++ "e" ++ sign ++ digitsText (Z.abs ex))%string.

(** The text of a number [x] in a template literal: Number::toString in
    radix 10. *)
Definition numberText (x : float) : string :=
  match Prim2SF x with
  | S754_nan => "NaN"
  | S754_zero _ => "0"
  | S754_infinity s => if s then "-Infinity" else "Infinity"
  | S754_finite s m e => ((if s then "-" else "") ++ finiteText m e)%string
  end.

(** [longRunningFunction] from the head of its loop with counter [i], up to
    the next [await] (the coroutine is handed back) or to its return. *)
Definition longRunningFunction_from (time : float) (i : Z)
  : M (option Progress) :=
  if i <? total then ret (Some {| p_time := time; p_i := i |})
  else
    postMessage
      {| r_status := Some STATUS_FINISHED;
         r_message :=
           Some ("Task finished with time = " ++ numberText time)%string;
         r_gameState := None; r_terrainMap := None;
         r_step := None; r_total := None;
         (* [time * total]: the product of two doubles, [total] being
            100 *)
         r_result := Some (time * 100)%float |} ;;;
    ret None.

(** The awaited timeout has fired: the rest of the loop body, then the loop
    again. *)
Definition longRunningFunction_resume (p : Progress) : M (option Progress) :=
  postMessage
    {| r_status := Some STATUS_PROCESSING;
       r_message := None; r_gameState := None; r_terrainMap := None;
       r_step := Some (p_i p + 1); r_total := Some total;
       r_result := None |} ;;;
  longRunningFunction_from (p_time p) (p_i p + 1).

(** The call itself, which is not awaited by its caller. *)
Definition longRunningFunction (time : float) : M unit :=
  s <- longRunningFunction_from time 0 ;;
  spawn s.

Definition handleGameStart (time : option float) : M unit :=
  let time := match time with Some t => t | None => 100%float end in
  startIdleCheck ;;;
  gs <- getState ;;
  postMessage
    {| r_status := Some STATUS_PROCESSING;
       r_message := Some "Game initialized";
       r_gameState := Some gs;
       r_terrainMap := Some terrainMap;
       r_step := None; r_total := None; r_result := None |} ;;;
  longRunningFunction time.

Definition handleMovement (now : Z) (direction : Direction) : M unit :=
  modifyState (set_lastActivityTime now) ;;;
  modifyState (set_idleState ACTIVE) ;;;
  modifyState (set_facing direction) ;;;
  gs <- getState ;;
  let pos := position gs in
  newPos <-
    match direction with
    | left => ret {| x := x pos - 1; y := y pos |}
    | right => ret {| x := x pos + 1; y := y pos |}
    | up => ret {| x := x pos; y := y pos - 1 |}
    | down => ret {| x := x pos; y := y pos + 1 |}
    | _ => throw (ErrorExn ("Invalid direction: "
                           ++ Direction_toString direction)%string)
    end ;;
  oldTerrain <- cell (y pos) (x pos) ;;
  ok <- canMove newPos ;;
  message <-
    (if ok then
       t <- cell (y newPos) (x newPos) ;;
       ret ("Moved " ++ Direction_toString direction ++ " from "
            ++ terrainNameText oldTerrain ++ " to " ++ terrainNameText t)%string
     else
       blocker <-
         (if isInBounds newPos then
            t <- cell (y newPos) (x newPos) ;; ret (terrainNameText t)
          else ret "boundary") ;;
       ret ("Cannot move " ++ Direction_toString direction
            ++ " - blocked by " ++ blocker)%string) ;;
  ok' <- canMove newPos ;;
  if ok' then
    modifyState (set_position newPos) ;;;
    t <- cell (y newPos) (x newPos) ;;
    modifyState (set_currentTerrain t) ;;;
    modifyState (fun g => set_terrain (currentTerrain g) g) ;;;
    modifyState (set_message message) ;;;
    gs' <- getState ;;
    postMessage
      {| r_status := Some STATUS_PROCESSING;
         r_message := Some message;
         r_gameState := Some gs';
         r_terrainMap := Some terrainMap;
         r_step := None; r_total := None; r_result := None |}
  else
    modifyState (set_message message) ;;;
    gs' <- getState ;;
    postMessage
      {| r_status := Some STATUS_ERROR;
         r_message := Some message;
         r_gameState := Some gs';
         r_terrainMap := Some terrainMap;
         r_step := None; r_total := None; r_result := None |}.

(** [self.onmessage], run at clock value [now]. *)
Definition onmessage (now : Z) (e_data : WorkerMessage) : M unit :=
  try_catch
    (modifyState (set_lastActivityTime now) ;;;
     if String.eqb (task e_data) MESSAGE_START then
       handleGameStart (time e_data)
     else if String.eqb (task e_data) MESSAGE_GAME_UPDATE then
       match direction e_data with
       | Some d => handleMovement now d
       | None => ret tt
       end
     else throw (ErrorExn ("Unknown task: " ++ task e_data)%string))
    (fun error =>
       postMessage
         {| r_status := Some STATUS_ERROR;
            r_message := Some (exn_message error);
            r_gameState := None; r_terrainMap := None;
            r_step := None; r_total := None; r_result := None |}).

(** Slot [k] of a list overwritten. *)
Fixpoint replace {A : Type} (k : nat) (v : A) (l : list A) {struct l}
    : list A :=
  match l, k with
  | [], _ => []
  | _ :: rest, O => v :: rest
  | a :: rest, Datatypes.S k' => a :: replace k' v rest
  end.

Definition setTask (k : nat) (s : option Progress) : M unit :=
  fun w => (inl tt, {| gameState := gameState w;
                       idleCheckInterval := idleCheckInterval w;
                       tasks := replace k s (tasks w);
                       outbox := outbox w |}).

(** The timeout awaited by the coroutine in slot [k] fires. *)
Definition timeout (k : nat) : M unit :=
  fun w => match nth_error (tasks w) k with
           | Some (Some p) =>
               (s <- longRunningFunction_resume p ;; setTask k s) w
           | _ => (inl tt, w)
           end.

(** ** The engine as a transition system *)

(** What the worker's event loop can run next: a message from the main
    thread, the idle interval, or the timeout of a suspended coroutine. *)
Inductive Event :=
| Message (now : Z) (e_data : WorkerMessage)
| Interval (now : Z)
| Timer (k : nat).

Definition handler (ev : Event) : M unit :=
  match ev with
  | Message now e_data => onmessage now e_data
  | Interval now =>
      fun w => if idleCheckInterval w then idleCheck now w else (inl tt, w)
  | Timer k => timeout k
  end.

Definition step (w : World) (ev : Event) : World := snd (handler ev w).

Definition run (evs : list Event) (w : World) : World := fold_left step evs w.

(** The worker once its module has been loaded at clock value [now]. *)
Definition initialWorld (now : Z) : World :=
  {| gameState := initialGameState now;
     idleCheckInterval := false;
     tasks := [];
     outbox := [] |}.

Definition START (time : option float) : WorkerMessage :=
  {| task := MESSAGE_START; direction := None; time := time |}.

Definition GAME_UPDATE (d : Direction) : WorkerMessage :=
  {| task := MESSAGE_GAME_UPDATE; direction := Some d; time := None |}.

End Worker.

(* ------------------------------------------------------------------ *)
(** ** src/lib/game/Game.ts *)

Module Game.
Import State.
Local Open Scope Q_scope.

Record Cloud := mkCloud {
  x : Q;
  y : Q;
  speed : Q;
  size : Q;
  opacity : Q
}.

(** A boolean property of a settings object once read: [None] is
    [undefined]. *)
Definition truthy (v : option bool) : bool :=
  match v with
  | Some true => true
  | _ => false
  end.

Record AnimationSettings := mkAnimationSettings {
  enableClouds : option bool;
  enableWaves : option bool;
  enableRiver : option bool
}.

(** The argument of [setAnimationSettings]: every key is optional.  [None]
    is a key that is absent, [Some None] a key that is present and holds
    [undefined]. *)
Record SettingsPatch := mkSettingsPatch {
  s_enableClouds : option (option bool);
  s_enableWaves : option (option bool);
  s_enableRiver : option (option bool)
}.

(** [settings.key] *)
Definition read (k : option (option bool)) : option bool :=
  match k with
  | Some v => v
  | None => None
  end.

(** One key of [{...a, ...b}]. *)
Definition spread (a : option bool) (b : option (option bool)) : option bool :=
  match b with
  | Some v => v
  | None => a
  end.

Record GameConfig := mkGameConfig {
  canvas_width : Q;
  canvas_height : Q;
  c_theme : option Types.Theme;
  fps : option Q
}.

Record DrawPixelParams := mkDrawPixelParams {
  d_terrainMap : list (list Types.TerrainType);
  d_pixelPos : Types.Position;
  d_facing : Types.Direction;
  d_isMoving : bool;
  d_animationSettings : AnimationSettings;
  d_waterOffset : Q;
  d_riverOffset : Q;
  d_clouds : list Cloud;
  d_cloudOffset : Q;
  d_tileSize : Q
}.

(** The fields of a [Game].  Of the canvas only its size is read;
    [width] and [height] are that size.  The worker handle, the 2d context
    and the two constant tables are left out. *)
Record Game := mkGame {
  width : Q;
  height : Q;
  animationFrame : option Z;
  lastFrameTime : Q;
  frameThrottle : Q;
  movementCooldown : bool;
  state : Types.GameState;
  isRunning : bool;
  currentTerrain : option Types.TerrainType;
  riverOffset : Q;
  animationSettings : AnimationSettings;
  terrainMap : option (list (list Types.TerrainType));
  clouds : list Cloud;
  cloudOffset : Q;
  waterOffset : Q;
  lastAnimationUpdate : Q
}.

Definition CLOUD_COUNT : nat := 8.
Definition MIN_CLOUD_SPEED : Q := 0.05.
Definition MAX_CLOUD_SPEED : Q := 0.2.

Definition set_clouds (v : list Cloud) (g : Game) : Game :=
  {| width := width g; height := height g;
     animationFrame := animationFrame g; lastFrameTime := lastFrameTime g;
     frameThrottle := frameThrottle g;
     movementCooldown := movementCooldown g; state := state g;
     isRunning := isRunning g; currentTerrain := currentTerrain g;
     riverOffset := riverOffset g; animationSettings := animationSettings g;
     terrainMap := terrainMap g; clouds := v; cloudOffset := cloudOffset g;
     waterOffset := waterOffset g;
     lastAnimationUpdate := lastAnimationUpdate g |}.

Definition set_cloudOffset (v : Q) (g : Game) : Game :=
  {| width := width g; height := height g;
     animationFrame := animationFrame g; lastFrameTime := lastFrameTime g;
     frameThrottle := frameThrottle g;
     movementCooldown := movementCooldown g; state := state g;
     isRunning := isRunning g; currentTerrain := currentTerrain g;
     riverOffset := riverOffset g; animationSettings := animationSettings g;
     terrainMap := terrainMap g; clouds := clouds g; cloudOffset := v;
     waterOffset := waterOffset g;
     lastAnimationUpdate := lastAnimationUpdate g |}.

Definition set_waterOffset (v : Q) (g : Game) : Game :=
  {| width := width g; height := height g;
     animationFrame := animationFrame g; lastFrameTime := lastFrameTime g;
     frameThrottle := frameThrottle g;
     movementCooldown := movementCooldown g; state := state g;
     isRunning := isRunning g; currentTerrain := currentTerrain g;
     riverOffset := riverOffset g; animationSettings := animationSettings g;
     terrainMap := terrainMap g; clouds := clouds g;
     cloudOffset := cloudOffset g; waterOffset := v;
     lastAnimationUpdate := lastAnimationUpdate g |}.

Definition set_riverOffset (v : Q) (g : Game) : Game :=
  {| width := width g; height := height g;
     animationFrame := animationFrame g; lastFrameTime := lastFrameTime g;
     frameThrottle := frameThrottle g;
     movementCooldown := movementCooldown g; state := state g;
     isRunning := isRunning g; currentTerrain := currentTerrain g;
     riverOffset := v; animationSettings := animationSettings g;
     terrainMap := terrainMap g; clouds := clouds g;
     cloudOffset := cloudOffset g; waterOffset := waterOffset g;
     lastAnimationUpdate := lastAnimationUpdate g |}.

Definition set_animationSettings (v : AnimationSettings) (g : Game) : Game :=
  {| width := width g; height := height g;
     animationFrame := animationFrame g; lastFrameTime := lastFrameTime g;
     frameThrottle := frameThrottle g;
     movementCooldown := movementCooldown g; state := state g;
     isRunning := isRunning g; currentTerrain := currentTerrain g;
     riverOffset := riverOffset g; animationSettings := v;
     terrainMap := terrainMap g; clouds := clouds g;
     cloudOffset := cloudOffset g; waterOffset := waterOffset g;
     lastAnimationUpdate := lastAnimationUpdate g |}.

Definition set_lastAnimationUpdate (v : Q) (g : Game) : Game :=
  {| width := width g; height := height g;
     animationFrame := animationFrame g; lastFrameTime := lastFrameTime g;
     frameThrottle := frameThrottle g;
     movementCooldown := movementCooldown g; state := state g;
     isRunning := isRunning g; currentTerrain := currentTerrain g;
     riverOffset := riverOffset g; animationSettings := animationSettings g;
     terrainMap := terrainMap g; clouds := clouds g;
     cloudOffset := cloudOffset g; waterOffset := waterOffset g;
     lastAnimationUpdate := v |}.

Definition set_lastFrameTime (v : Q) (g : Game) : Game :=
  {| width := width g; height := height g;
     animationFrame := animationFrame g; lastFrameTime := v;
     frameThrottle := frameThrottle g;
     movementCooldown := movementCooldown g; state := state g;
     isRunning := isRunning g; currentTerrain := currentTerrain g;
     riverOffset := riverOffset g; animationSettings := animationSettings g;
     terrainMap := terrainMap g; clouds := clouds g;
     cloudOffset := cloudOffset g; waterOffset := waterOffset g;
     lastAnimationUpdate := lastAnimationUpdate g |}.

Definition set_animationFrame (v : option Z) (g : Game) : Game :=
  {| width := width g; height := height g;
     animationFrame := v; lastFrameTime := lastFrameTime g;
     frameThrottle := frameThrottle g;
     movementCooldown := movementCooldown g; state := state g;
     isRunning := isRunning g; currentTerrain := currentTerrain g;
     riverOffset := riverOffset g; animationSettings := animationSettings g;
     terrainMap := terrainMap g; clouds := clouds g;
     cloudOffset := cloudOffset g; waterOffset := waterOffset g;
     lastAnimationUpdate := lastAnimationUpdate g |}.

Definition set_state (v : Types.GameState) (g : Game) : Game :=
  {| width := width g; height := height g;
     animationFrame := animationFrame g; lastFrameTime := lastFrameTime g;
     frameThrottle := frameThrottle g;
     movementCooldown := movementCooldown g; state := v;
     isRunning := isRunning g; currentTerrain := currentTerrain g;
     riverOffset := riverOffset g; animationSettings := animationSettings g;
     terrainMap := terrainMap g; clouds := clouds g;
     cloudOffset := cloudOffset g; waterOffset := waterOffset g;
     lastAnimationUpdate := lastAnimationUpdate g |}.

Definition set_isRunning (v : bool) (g : Game) : Game :=
  {| width := width g; height := height g;
     animationFrame := animationFrame g; lastFrameTime := lastFrameTime g;
     frameThrottle := frameThrottle g;
     movementCooldown := movementCooldown g; state := state g;
     isRunning := v; currentTerrain := currentTerrain g;
     riverOffset := riverOffset g; animationSettings := animationSettings g;
     terrainMap := terrainMap g; clouds := clouds g;
     cloudOffset := cloudOffset g; waterOffset := waterOffset g;
     lastAnimationUpdate := lastAnimationUpdate g |}.

Definition set_size (w h : Q) (g : Game) : Game :=
  {| width := w; height := h;
     animationFrame := animationFrame g; lastFrameTime := lastFrameTime g;
     frameThrottle := frameThrottle g;
     movementCooldown := movementCooldown g; state := state g;
     isRunning := isRunning g; currentTerrain := currentTerrain g;
     riverOffset := riverOffset g; animationSettings := animationSettings g;
     terrainMap := terrainMap g; clouds := clouds g;
     cloudOffset := cloudOffset g; waterOffset := waterOffset g;
     lastAnimationUpdate := lastAnimationUpdate g |}.

Definition set_idleActivity (t : Z) (s : Types.GameState) : Types.GameState :=
  {| Types.position := Types.position s; Types.facing := Types.facing s;
     Types.isMoving := Types.isMoving s; Types.terrain := Types.terrain s;
     Types.status := Types.status s; Types.message := Types.message s;
     Types.isStarted := Types.isStarted s;
     Types.idleState := ACTIVE;
     Types.lastActivityTime := t;
     Types.theme := Types.theme s |}.

(** What one turn of the frame loop reads from the browser. *)
Record Tick := mkTick {
  timestamp : Q;          (** the argument of the animation-frame callback *)
  performance_now : Q;
  Date_now : Z;
  requestId : Z           (** the handle [requestAnimationFrame] returns *)
}.

Section Browser.

(** [Math.random()]: its [n]-th result since the page was loaded.  Every
    function that draws random numbers takes the number of draws made so far
    and returns it advanced. *)
Variable random : nat -> Q.

(** [v % (Math.PI * 2)] *)
Variable mod_2pi : Q -> Q.

Definition createCloud (g : Game) (index : nat) (forceOffscreen : bool)
    (n : nat) : Cloud * nat :=
  let size := 60 + random n * 100 in
  let '(x, n) :=
    if forceOffscreen then (- size, S n)
    else (inject_Z (Z.of_nat index)
            * (width g / inject_Z (Z.of_nat CLOUD_COUNT))
          + random (S n) * 200, S (S n)) in
  ({| x := x;
      y := random n * (height g * 0.4);
      speed := MIN_CLOUD_SPEED
               + random (S n) * (MAX_CLOUD_SPEED - MIN_CLOUD_SPEED);
      size := size;
      opacity := 0.4 + random (S (S n)) * 0.3 |},
   S (S (S n))).

(** [Array(count).fill(null).map((_, i) => this.createCloud(i))], from
    index [index] on. *)
Fixpoint createClouds (g : Game) (index count : nat) (n : nat)
    : list Cloud * nat :=
  match count with
  | O => ([], n)
  | S count' =>
      let '(c, n) := createCloud g index false n in
      let '(cs, n) := createClouds g (S index) count' n in
      (c :: cs, n)
  end.

Definition initializeClouds (g : Game) (n : nat) : Game * nat :=
  let '(cs, n) := createClouds g 0 CLOUD_COUNT n in
  (set_clouds cs g, n).

(** The callback of [this.clouds.forEach] on the slots from [index] on. *)
Fixpoint forEachCloud (g : Game) (index : nat) (cs : list Cloud) (n : nat)
    : list Cloud * nat :=
  match cs with
  | [] => ([], n)
  | cloud :: rest =>
      let moved := {| x := x cloud + speed cloud; y := y cloud;
                      speed := speed cloud; size := size cloud;
                      opacity := opacity cloud |} in
      let '(slot, n) :=
        if Qlt_le_dec (width g + size moved) (x moved)
        then createCloud g index true n
        else (moved, n) in
      let '(rest', n) := forEachCloud g (S index) rest n in
      (slot :: rest', n)
  end.

Definition updateClouds (g : Game) (n : nat) : Game * nat :=
  if negb (truthy (enableClouds (animationSettings g))) then (g, n)
  else
    let g := set_cloudOffset (cloudOffset g + 0.2) g in
    let '(cs, n) := forEachCloud g 0 (clouds g) n in
    (set_clouds cs g, n).

Definition constructor (config : GameConfig) (now : Z) (n : nat)
    : Game * nat :=
  let fps_or_30 :=
    match fps config with
    | Some f => if Qeq_bool f 0 then 30 else f
    | None => 30
    end in
  initializeClouds
    {| width := canvas_width config; height := canvas_height config;
       animationFrame := None;
       lastFrameTime := 0;
       frameThrottle := 1000 / fps_or_30;
       movementCooldown := false;
       state :=
         {| Types.position := {| Types.x := 2; Types.y := 2 |};
            Types.facing := Types.down;
            Types.isMoving := false;
            Types.terrain := Some Types.GRASSLAND;
            Types.status := Types.STATUS_IDLE;
            Types.message := "";
            Types.isStarted := false;
            Types.idleState := ACTIVE;
            Types.lastActivityTime := now;
            Types.theme :=
              match c_theme config with
              | Some t => Some t
              | None => Some Types.defaultTheme
              end |};
       isRunning := false;
       currentTerrain := Some Types.GRASSLAND;
       riverOffset := 0;
       animationSettings :=
         {| enableClouds := Some false; enableWaves := Some false;
            enableRiver := Some false |};
       terrainMap := None;
       clouds := [];
       cloudOffset := 0;
       waterOffset := 0;
       lastAnimationUpdate := 0 |} n.

(** [handleResize], with the size the canvas is given. *)
Definition handleResize (w h : Q) (g : Game) (n : nat) : Game * nat :=
  initializeClouds (set_size w h g) n.

Definition getFrameThrottleForState (s : IdleStateType) : Q :=
  match s with
  | RESTING => 1000 / 20
  | IDLE => 1000 / 10
  | SLEEPING => 1000 / 5
  | _ => 1000 / 30
  end.

Definition update (delta : Q) (t : Tick) (g : Game) (n : nat) : Game * nat :=
  let now := performance_now t in
  let g :=
    if Types.isMoving (state g)
    then set_state (set_idleActivity (Date_now t) (state g)) g
    else g in
  if Qlt_le_dec 16 (now - lastAnimationUpdate g) then
    let '(g, n) := updateClouds g n in
    let g :=
      if truthy (enableWaves (animationSettings g))
      then set_waterOffset (mod_2pi (now / 1000)) g else g in
    let g :=
      if truthy (enableRiver (animationSettings g))
      then set_riverOffset (mod_2pi (now / 800)) g else g in
    (set_lastAnimationUpdate now g, n)
  else (g, n).

(** [render]: the arguments it calls [drawPixel] with. *)
Definition render (g : Game) : DrawPixelParams :=
  {| d_terrainMap := match terrainMap g with Some m => m | None => [] end;
     d_pixelPos := Types.position (state g);
     d_facing := Types.facing (state g);
     d_isMoving := Types.isMoving (state g);
     d_animationSettings := animationSettings g;
     d_waterOffset :=
       if truthy (enableWaves (animationSettings g))
       then waterOffset g else 0;
     d_riverOffset :=
       if truthy (enableRiver (animationSettings g))
       then riverOffset g else 0;
     d_clouds :=
       if truthy (enableClouds (animationSettings g)) then clouds g else [];
     d_cloudOffset := cloudOffset g;
     d_tileSize := 40 |}.

(** One turn of [gameLoop]; the frame drawn in it, if any, is returned. *)
Definition gameLoop (t : Tick) (g : Game) (n : nat)
    : Game * nat * option DrawPixelParams :=
  if negb (isRunning g) then (g, n, None)
  else
    let delta := timestamp t - lastFrameTime g in
    let '(g, n) := update delta t g n in
    let '(g, frame) :=
      if Qle_bool (frameThrottle g) delta
      then let g := set_lastFrameTime (timestamp t) g in (g, Some (render g))
      else (g, None) in
    (set_animationFrame (Some (requestId t)) g, n, frame).

Definition setAnimationSettings (settings : SettingsPatch) (g : Game)
    (n : nat) : Game * nat :=
  let g :=
    set_animationSettings
      {| enableClouds :=
           spread (enableClouds (animationSettings g)) (s_enableClouds settings);
         enableWaves :=
           spread (enableWaves (animationSettings g)) (s_enableWaves settings);
         enableRiver :=
           spread (enableRiver (animationSettings g)) (s_enableRiver settings) |}
      g in
  let '(g, n) :=
    if negb (truthy (read (s_enableClouds settings)))
    then initializeClouds (set_cloudOffset 0 g) n
    else (g, n) in
  let g :=
    if negb (truthy (read (s_enableWaves settings)))
    then set_waterOffset 0 g else g in
  let g :=
    if negb (truthy (read (s_enableRiver settings)))
    then set_riverOffset 0 g else g in
  (g, n).

(** [start]: the [START] message it posts and its own first turn of the
    frame loop, which [gameLoop()] runs with the default [timestamp] 0;
    the other readings of that turn are those of [t]. *)
Definition start (t : Tick) (g : Game) (n : nat)
    : Game * nat * option DrawPixelParams * Worker.WorkerMessage :=
  (gameLoop {| timestamp := 0; performance_now := performance_now t;
               Date_now := Date_now t; requestId := requestId t |}
            (set_isRunning true g) n,
   Worker.START None).

End Browser.

Definition set_currentTerrain (v : option Types.TerrainType) (g : Game)
    : Game :=
  {| width := width g; height := height g;
     animationFrame := animationFrame g; lastFrameTime := lastFrameTime g;
     frameThrottle := frameThrottle g;
     movementCooldown := movementCooldown g; state := state g;
     isRunning := isRunning g; currentTerrain := v;
     riverOffset := riverOffset g; animationSettings := animationSettings g;
     terrainMap := terrainMap g; clouds := clouds g;
     cloudOffset := cloudOffset g; waterOffset := waterOffset g;
     lastAnimationUpdate := lastAnimationUpdate g |}.

Definition set_terrainMap (v : option (list (list Types.TerrainType)))
    (g : Game) : Game :=
  {| width := width g; height := height g;
     animationFrame := animationFrame g; lastFrameTime := lastFrameTime g;
     frameThrottle := frameThrottle g;
     movementCooldown := movementCooldown g; state := state g;
     isRunning := isRunning g; currentTerrain := currentTerrain g;
     riverOffset := riverOffset g; animationSettings := animationSettings g;
     terrainMap := v; clouds := clouds g;
     cloudOffset := cloudOffset g; waterOffset := waterOffset g;
     lastAnimationUpdate := lastAnimationUpdate g |}.

Definition set_message (m : string) (s : Types.GameState) : Types.GameState :=
  {| Types.position := Types.position s; Types.facing := Types.facing s;
     Types.isMoving := Types.isMoving s; Types.terrain := Types.terrain s;
     Types.status := Types.status s; Types.message := m;
     Types.isStarted := Types.isStarted s;
     Types.idleState := Types.idleState s;
     Types.lastActivityTime := Types.lastActivityTime s;
     Types.theme := Types.theme s |}.

(** [{...this.state, ...gameState, message: message || this.state.message}];
    the snapshot's extra key [currentTerrain], which the controller never
    reads, is not kept. *)
Definition merge (s : Types.GameState) (gs : Worker.WorkerGameState)
    (message : option string) : Types.GameState :=
  {| Types.position := Worker.position gs;
     Types.facing := Worker.facing gs;
     Types.isMoving := Worker.isMoving gs;
     Types.terrain := Worker.terrain gs;
     Types.status := Worker.status gs;
     Types.message :=
       match message with
       | Some m => if String.eqb m "" then Types.message s else m
       | None => Types.message s
       end;
     Types.isStarted := Worker.isStarted gs;
     Types.idleState := Worker.idleState gs;
     Types.lastActivityTime := Worker.lastActivityTime gs;
     Types.theme := Types.theme s |}.

(** [handleStateUpdate]; the [gamestateupdate] event it dispatches to the
    page is not modelled. *)
Definition handleStateUpdate (g : Game) : Game :=
  set_currentTerrain (Types.terrain (state g)) g.

(** [this.worker.onmessage], installed by [setupWorker]. *)
Definition onmessage (e_data : Worker.WorkerResponse) (g : Game) : Game :=
  let g :=
    match Worker.r_gameState e_data with
    | Some gs =>
        handleStateUpdate
          (set_state (merge (state g) gs (Worker.r_message e_data)) g)
    | None => g
    end in
  let g :=
    match Worker.r_terrainMap e_data with
    | Some m => set_terrainMap (Some m) g
    | None => g
    end in
  match Worker.r_message e_data with
  | Some m =>
      if String.eqb m "" then g
      else handleStateUpdate (set_state (set_message m (state g)) g)
  | None => g
  end.

(** [stop]; cancelling the pending animation frame is the browser's part. *)
Definition stop (g : Game) : Game := set_isRunning false g.

Definition set_movementCooldown (v : bool) (g : Game) : Game :=
  {| width := width g; height := height g;
     animationFrame := animationFrame g; lastFrameTime := lastFrameTime g;
     frameThrottle := frameThrottle g;
     movementCooldown := v; state := state g;
     isRunning := isRunning g; currentTerrain := currentTerrain g;
     riverOffset := riverOffset g; animationSettings := animationSettings g;
     terrainMap := terrainMap g; clouds := clouds g;
     cloudOffset := cloudOffset g; waterOffset := waterOffset g;
     lastAnimationUpdate := lastAnimationUpdate g |}.

Definition set_isMoving (v : bool) (s : Types.GameState) : Types.GameState :=
  {| Types.position := Types.position s; Types.facing := Types.facing s;
     Types.isMoving := v; Types.terrain := Types.terrain s;
     Types.status := Types.status s; Types.message := Types.message s;
     Types.isStarted := Types.isStarted s;
     Types.idleState := Types.idleState s;
     Types.lastActivityTime := Types.lastActivityTime s;
     Types.theme := Types.theme s |}.

Definition set_facing (v : Types.Direction) (s : Types.GameState)
    : Types.GameState :=
  {| Types.position := Types.position s; Types.facing := v;
     Types.isMoving := Types.isMoving s; Types.terrain := Types.terrain s;
     Types.status := Types.status s; Types.message := Types.message s;
     Types.isStarted := Types.isStarted s;
     Types.idleState := Types.idleState s;
     Types.lastActivityTime := Types.lastActivityTime s;
     Types.theme := Types.theme s |}.

(** [move]: the controller after the call and the message posted to the
    worker, if one is.  A posted message comes with a timeout of 200 ms whose
    callback is [moveTimeout]. *)
Definition move (direction : Types.Direction) (g : Game)
    : Game * option Worker.WorkerMessage :=
  if movementCooldown g || negb (isRunning g) then (g, None)
  else
    (set_movementCooldown true
       (set_state (set_facing direction (set_isMoving true (state g))) g),
     Some {| Worker.task := Types.MESSAGE_GAME_UPDATE;
             Worker.direction := Some direction;
             Worker.time := None |}).

(** The callback of the timeout set by [move]. *)
Definition moveTimeout (g : Game) : Game :=
  set_movementCooldown false (set_state (set_isMoving false (state g)) g).

Definition sendDirection (direction : Types.Direction) (g : Game)
    : Game * option Worker.WorkerMessage :=
  move direction g.

(** What [keyMap[e.key]] finds: a direction under one of the eight keys of
    the literal, a property that every object inherits from
    [Object.prototype], or [undefined]. *)
Inductive KeyLookup :=
| OwnKey (d : Types.Direction)
| InheritedKey
| NoKey.

Definition objectPrototypeKeys : list string :=
  ["constructor"; "hasOwnProperty"; "isPrototypeOf"; "propertyIsEnumerable";
   "toLocaleString"; "toString"; "valueOf"; "__proto__";
   "__defineGetter__"; "__defineSetter__"; "__lookupGetter__";
   "__lookupSetter__"].

Definition keyMap (key : string) : KeyLookup :=
  if String.eqb key "ArrowLeft" then OwnKey Types.left
  else if String.eqb key "ArrowRight" then OwnKey Types.right
  else if String.eqb key "ArrowUp" then OwnKey Types.up
  else if String.eqb key "ArrowDown" then OwnKey Types.down
  else if String.eqb key "a" then OwnKey Types.left
  else if String.eqb key "d" then OwnKey Types.right
  else if String.eqb key "w" then OwnKey Types.up
  else if String.eqb key "s" then OwnKey Types.down
  else if existsb (String.eqb key) objectPrototypeKeys then InheritedKey
  else NoKey.

(** [handleKeyDown] for an event whose [key] is [key].  The names of
    [Object.prototype] are not values a keyboard produces; for them the
    lookup yields a function and the call is outside this model ([None]). *)
Definition handleKeyDown (key : string) (g : Game)
    : option (Game * option Worker.WorkerMessage) :=
  if negb (isRunning g) then Some (g, None)
  else
    match keyMap key with
    | OwnKey direction => Some (move direction g)
    | NoKey => Some (g, None)
    | InheritedKey => None
    end.

End Game.

(* ------------------------------------------------------------------ *)
(** ** The cloud methods of [Game.ts] in double arithmetic

    The methods of [Game] above compute with exact rationals.  Here the
    cloud methods are written once more with the rounding of the code's
    arithmetic made explicit: the result of every addition, subtraction,
    multiplication and division, and every decimal constant that is not a
    double itself, goes through [fl], the rounding of a rational to the
    nearest double.  Negation and comparison are exact on doubles, as are
    the integer constants.  With the identity for [fl] these are the
    methods above.  The numbers are finite: no overflow is in reach of a
    canvas. *)

Module Rounded.
Import Game.
Local Open Scope Q_scope.

Section Arithmetic.

(** Rounding to the nearest double *)
Variable fl : Q -> Q.

(** [Math.random()], as in [Game] *)
Variable random : nat -> Q.

Definition createCloud (g : Game) (index : nat) (forceOffscreen : bool)
    (n : nat) : Cloud * nat :=
  let size := fl (60 + fl (random n * 100)) in
  let '(x, n) :=
    if forceOffscreen then (- size, S n)
    else (fl (fl (inject_Z (Z.of_nat index)
                  * fl (width g / inject_Z (Z.of_nat CLOUD_COUNT)))
              + fl (random (S n) * 200)), S (S n)) in
  ({| x := x;
      y := fl (random n * fl (height g * fl 0.4));
      speed := fl (fl MIN_CLOUD_SPEED
                   + fl (random (S n)
                         * fl (fl MAX_CLOUD_SPEED - fl MIN_CLOUD_SPEED)));
      size := size;
      opacity := fl (fl 0.4 + fl (random (S (S n)) * fl 0.3)) |},
   S (S (S n))).

Fixpoint createClouds (g : Game) (index count : nat) (n : nat)
    : list Cloud * nat :=
  match count with
  | O => ([], n)
  | S count' =>
      let '(c, n) := createCloud g index false n in
      let '(cs, n) := createClouds g (S index) count' n in
      (c :: cs, n)
  end.

Definition initializeClouds (g : Game) (n : nat) : Game * nat :=
  let '(cs, n) := createClouds g 0 CLOUD_COUNT n in
  (set_clouds cs g, n).

(** The callback of [this.clouds.forEach] on the slots from [index] on. *)
Fixpoint forEachCloud (g : Game) (index : nat) (cs : list Cloud) (n : nat)
    : list Cloud * nat :=
  match cs with
  | [] => ([], n)
  | cloud :: rest =>
      let moved := {| x := fl (x cloud + speed cloud); y := y cloud;
                      speed := speed cloud; size := size cloud;
                      opacity := opacity cloud |} in
      let '(slot, n) :=
        if Qlt_le_dec (fl (width g + size moved)) (x moved)
        then createCloud g index true n
        else (moved, n) in
      let '(rest', n) := forEachCloud g (S index) rest n in
      (slot :: rest', n)
  end.

Definition updateClouds (g : Game) (n : nat) : Game * nat :=
  if negb (truthy (enableClouds (animationSettings g))) then (g, n)
  else
    let g := set_cloudOffset (fl (cloudOffset g + fl 0.2)) g in
    let '(cs, n) := forEachCloud g 0 (clouds g) n in
    (set_clouds cs g, n).

End Arithmetic.

End Rounded.

(* ------------------------------------------------------------------ *)
(** ** src/lib/game/draw.ts *)

Module Draw.
Import Game.
Local Open Scope Q_scope.

(** [terrainColors] of [src/lib/types.ts]. *)
Definition terrainColors (t : Types.TerrainType) : string :=
  match t with
  | Types.WATER => "#3b6c9e" | Types.BEACH => "#f2e1a5"
  | Types.FOREST => "#3b7a57" | Types.MOUNTAIN => "#4e4e4e"
  | Types.GRASSLAND => "#4c9f70" | Types.RIVER => "#5e92a5"
  | Types.SWAMP => "#5a4f32" | Types.HILLS => "#d5c29f"
  end.

(** What [drawPixel] does to the canvas, call by call: the two methods of
    the context it calls itself (with the fill style set just before
    [fillRect]) and the drawing functions of the file, which are taken as
    single calls with their arguments. *)
Inductive Call :=
| clearRect (x y w h : Q)
| fillRect (fillStyle : string) (x y w h : Q)
| drawTrees (x y size : Q)
| drawMountains (x y size : Q)
| drawWaves (x y size waterOffset : Q)
| drawRiver (x y size riverOffset : Q)
| drawCharacter (x y size : Q) (facing : Types.Direction) (isMoving : bool)
| drawCloud (x y size : Q).

(** [n * tileSize] for a loop counter [n]. *)
Definition times (n : nat) (tileSize : Q) : Q :=
  inject_Z (Z.of_nat n) * tileSize.

(** The inner loop of the first pass, from column [col] on. *)
Fixpoint firstPassRow (tileSize : Q) (row col : nat)
    (cells : list Types.TerrainType) : list Call :=
  match cells with
  | [] => []
  | terrain :: rest =>
      fillRect (terrainColors terrain) (times col tileSize)
               (times row tileSize) tileSize tileSize
      :: firstPassRow tileSize row (S col) rest
  end.

Fixpoint firstPass (tileSize : Q) (row : nat)
    (rows : list (list Types.TerrainType)) : list Call :=
  match rows with
  | [] => []
  | cells :: rest =>
      firstPassRow tileSize row 0 cells ++ firstPass tileSize (S row) rest
  end.

(** The [switch] of the second pass. *)
Definition detail (params : DrawPixelParams) (row col : nat)
    (terrain : Types.TerrainType) : list Call :=
  let tileSize := d_tileSize params in
  match terrain with
  | Types.FOREST =>
      [drawTrees (times col tileSize) (times row tileSize) tileSize]
  | Types.MOUNTAIN =>
      [drawMountains (times col tileSize) (times row tileSize) tileSize]
  | Types.WATER =>
      if truthy (enableWaves (d_animationSettings params))
      then [drawWaves (times col tileSize) (times row tileSize) tileSize
                      (d_waterOffset params)]
      else [fillRect (terrainColors Types.WATER) (times col tileSize)
                     (times row tileSize) tileSize tileSize]
  | Types.RIVER =>
      if truthy (enableRiver (d_animationSettings params))
      then [drawRiver (times col tileSize) (times row tileSize) tileSize
                      (d_riverOffset params)]
      else [fillRect (terrainColors Types.RIVER) (times col tileSize)
                     (times row tileSize) tileSize tileSize]
  | _ => []
  end.

(** [row === Math.floor(pixelPos.y) && col === Math.floor(pixelPos.x)];
    the coordinates of a position are integers. *)
Definition isPlayerCell (params : DrawPixelParams) (row col : nat) : bool :=
  (Z.of_nat row =? Types.y (d_pixelPos params))%Z
  && (Z.of_nat col =? Types.x (d_pixelPos params))%Z.

Fixpoint secondPassRow (params : DrawPixelParams) (row col : nat)
    (cells : list Types.TerrainType) : list Call :=
  match cells with
  | [] => []
  | terrain :: rest =>
      (if negb (isPlayerCell params row col)
       then detail params row col terrain else [])
      ++ secondPassRow params row (S col) rest
  end.

Fixpoint secondPass (params : DrawPixelParams) (row : nat)
    (rows : list (list Types.TerrainType)) : list Call :=
  match rows with
  | [] => []
  | cells :: rest =>
      secondPassRow params row 0 cells ++ secondPass params (S row) rest
  end.

(** [drawPixel] on a context whose canvas is [canvasWidth] by
    [canvasHeight]; its caller always passes [tileSize]. *)
Definition drawPixel (canvasWidth canvasHeight : Q)
    (params : DrawPixelParams) : list Call :=
  let tileSize := d_tileSize params in
  let pixelPos := d_pixelPos params in
  let x := inject_Z (Types.x pixelPos) * tileSize in
  let y := inject_Z (Types.y pixelPos) * tileSize in
  let playerTerrain :=
    match Worker.index (d_terrainMap params) (Types.y pixelPos) with
    | Some cells => Worker.index cells (Types.x pixelPos)
    | None => None
    end in
  [clearRect 0 0 canvasWidth canvasHeight]
  ++ firstPass tileSize 0 (d_terrainMap params)
  ++ secondPass params 0 (d_terrainMap params)
  ++ [drawCharacter x (y - tileSize / 8) tileSize (d_facing params)
                    (d_isMoving params)]
  ++ match playerTerrain with
     | Some Types.FOREST =>
         [drawTrees (inject_Z (Types.x pixelPos) * tileSize)
                    (inject_Z (Types.y pixelPos) * tileSize) tileSize]
     | _ => []
     end
  ++ (if truthy (enableClouds (d_animationSettings params))
      then map (fun cloud =>
                  drawCloud (Game.x cloud) (Game.y cloud) (size cloud))
               (d_clouds params)
      else []).

(** The calls of [Game.render]: its own [clearRect], then [drawPixel] with
    the arguments [render] builds. *)
Definition renderCalls (g : Game) : list Call :=
  clearRect 0 0 (width g) (height g)
  :: drawPixel (width g) (height g) (render g).

End Draw.

(* ------------------------------------------------------------------ *)
(** ** Vocabulary of the properties *)

Module Props.
Import State Types Worker.

(** The four directions a [Move] command may carry. *)
Definition movement (d : Direction) : bool :=
  match d with
  | up | down | left | right => true
  | _ => false
  end.

(** The unit vector of a direction, in grid coordinates ([y] grows
    downwards). *)
Definition unitVector (d : Direction) : Position :=
  match d with
  | left => {| x := -1; y := 0 |}
  | right => {| x := 1; y := 0 |}
  | up => {| x := 0; y := -1 |}
  | down => {| x := 0; y := 1 |}
  | _ => {| x := 0; y := 0 |}
  end.

Definition plus (p q : Position) : Position :=
  {| x := x p + x q; y := y p + y q |}.

(** The grid value of a cell of the reference map, if it has one. *)
Definition terrainAt (p : Position) : option TerrainType :=
  match index terrainMap (y p) with
  | Some row => index row (x p)
  | None => None
  end.

(** Strictly inside the 20 x 15 map: not on its border. *)
Definition interior (p : Position) : Prop :=
  1 <= x p <= 18 /\ 1 <= y p <= 13.

Definition onBorder (p : Position) : Prop :=
  0 <= x p <= 19 /\ 0 <= y p <= 14
  /\ (x p = 0 \/ x p = 19 \/ y p = 0 \/ y p = 14).

Definition interiorb (p : Position) : bool :=
  (1 <=? x p) && (x p <=? 18) && (1 <=? y p) && (y p <=? 13).

Definition isWater (t : option TerrainType) : bool :=
  match t with
  | Some WATER => true
  | _ => false
  end.

(** All cells of the 20 x 15 map, row by row. *)
Definition cells : list Position :=
  flat_map
    (fun j => map (fun i => {| x := Z.of_nat i; y := Z.of_nat j |}) (seq 0 20))
    (seq 0 15).

(** The order of the idle states by inactivity. *)
Definition rank (s : IdleStateType) : Z :=
  match s with
  | ACTIVE => 0 | RESTING => 1 | IDLE => 2 | SLEEPING => 3
  end.

(** The text of a blocked move, as the specification words it: the name of
    the terrain when the target is on the map, [boundary] when it is not. *)
Definition blockedText (d : Direction) (target : Position) : string :=
  ("Cannot move " ++ Direction_toString d ++ " - blocked by "
   ++ (if isInBounds target then terrainNameText (terrainAt target)
       else "boundary"))%string.

(** On the map and walkable: what [canMove] answers. *)
Definition walkableAt (p : Position) : bool :=
  isInBounds p
  && match terrainAt p with
     | Some t => walkable (terrainProperties t)
     | None => false
     end.

(** The world [handleMovement] leaves for one of the four movement
    directions, from a position on the map. *)
Definition moved (now : Z) (d : Direction) (w : World) : World :=
  let p := position (gameState w) in
  let target := plus p (unitVector d) in
  let g0 := set_facing d (set_idleState ACTIVE
              (set_lastActivityTime now (gameState w))) in
  if walkableAt target then
    let text := ("Moved " ++ Direction_toString d ++ " from "
                 ++ terrainNameText (terrainAt p) ++ " to "
                 ++ terrainNameText (terrainAt target))%string in
    let g := set_message text
               (set_terrain (terrainAt target)
                  (set_currentTerrain (terrainAt target)
                     (set_position target g0))) in
    {| gameState := g;
       idleCheckInterval := idleCheckInterval w;
       tasks := tasks w;
       outbox := outbox w ++
         [{| r_status := Some STATUS_PROCESSING;
             r_message := Some text;
             r_gameState := Some g;
             r_terrainMap := Some terrainMap;
             r_step := None; r_total := None; r_result := None |}] |}
  else
    let g := set_message (blockedText d target) g0 in
    {| gameState := g;
       idleCheckInterval := idleCheckInterval w;
       tasks := tasks w;
       outbox := outbox w ++
         [{| r_status := Some STATUS_ERROR;
             r_message := Some (blockedText d target);
             r_gameState := Some g;
             r_terrainMap := Some terrainMap;
             r_step := None; r_total := None; r_result := None |}] |}.

(** Only the clock stamp of the state is touched before a message is
    dispatched. *)
Definition touched (now : Z) (w : World) : World :=
  {| gameState := set_lastActivityTime now (gameState w);
     idleCheckInterval := idleCheckInterval w;
     tasks := tasks w;
     outbox := outbox w |}.

(** The world a [START] message leaves. *)
Definition started (now : Z) (time : option float) (w : World) : World :=
  let g := set_lastActivityTime now (gameState w) in
  {| gameState := g;
     idleCheckInterval := true;
     tasks := tasks w ++
       [Some {| p_time := match time with Some t => t | None => 100%float end;
                p_i := 0 |}];
     outbox := outbox w ++
       [{| r_status := Some STATUS_PROCESSING;
           r_message := Some "Game initialized";
           r_gameState := Some g;
           r_terrainMap := Some terrainMap;
           r_step := None; r_total := None; r_result := None |}] |}.

(** The event posted by the [catch] of [onmessage]. *)
Definition errorEvent (text : string) : WorkerResponse :=
  {| r_status := Some STATUS_ERROR;
     r_message := Some text;
     r_gameState := None; r_terrainMap := None;
     r_step := None; r_total := None; r_result := None |}.

(** The idle state the interval computes from the time without activity. *)
Definition decayed (t : Z) : IdleStateType :=
  if t >=? IdleThresholds.SLEEPING then SLEEPING
  else if t >=? IdleThresholds.IDLE then IDLE
  else if t >=? IdleThresholds.RESTING then RESTING
  else ACTIVE.

(** The idle state after each of a series of runs of the interval. *)
Fixpoint idleTrace (times : list Z) (w : World) : list IdleStateType :=
  match times with
  | [] => []
  | now :: rest =>
      let w' := step w (Interval now) in
      idleState (gameState w') :: idleTrace rest w'
  end.

(** The events the specification gives for the progress task. *)
Definition processing (k : Z) : WorkerResponse :=
  {| r_status := Some STATUS_PROCESSING;
     r_message := None; r_gameState := None; r_terrainMap := None;
     r_step := Some k; r_total := Some 100; r_result := None |}.

Definition finished (t : float) : WorkerResponse :=
  {| r_status := Some STATUS_FINISHED;
     r_message := Some ("Task finished with time = " ++ numberText t)%string;
     r_gameState := None; r_terrainMap := None;
     r_step := None; r_total := None; r_result := Some (t * 100)%float |}.

Definition isFinished (r : WorkerResponse) : bool :=
  match r_status r with
  | Some STATUS_FINISHED => true
  | _ => false
  end.

Definition isProcessing (r : WorkerResponse) : bool :=
  match r_status r with
  | Some STATUS_PROCESSING => true
  | _ => false
  end.

(** [s] occurs inside [t]. *)
Definition contains (t s : string) : Prop :=
  exists pre post, t = (pre ++ s ++ post)%string.

(** [ev] is a firing of the timeout that the coroutine of slot [k] awaits. *)
Definition isTimer (k : nat) (ev : Event) : bool :=
  match ev with
  | Timer j => Nat.eqb j k
  | _ => false
  end.

(** What handling [ev] in [w] adds to the outbox. *)
Definition posted (w : World) (ev : Event) : list WorkerResponse :=
  skipn (List.length (outbox w)) (outbox (step w ev)).

(** The events of a run from [w], each with what its handler posted. *)
Fixpoint chunks (evs : list Event) (w : World)
  : list (Event * list WorkerResponse) :=
  match evs with
  | [] => []
  | ev :: evs => (ev, posted w ev) :: chunks evs (step w ev)
  end.

(** What the coroutine of slot [k] posted during a run: the events posted
    by the firings of its timeout, in the order of the run. *)
Definition postedBy (k : nat) (evs : list Event) (w : World)
  : list WorkerResponse :=
  List.concat (map snd (filter (fun c => isTimer k (fst c)) (chunks evs w))).

(** How often the timeout of slot [k] fires in a run. *)
Definition firings (k : nat) (evs : list Event) : nat :=
  List.length (filter (isTimer k) evs).

(** The Processing events of the steps [i + 1], ..., [i + n]. *)
Definition stepEvents (i n : nat) : list WorkerResponse :=
  map (fun j => processing (Z.of_nat j)) (seq (S i) n).

End Props.

(** Vocabulary for the render controller. *)
Module GameProps.
Import Game.
Local Open Scope Q_scope.

(** [cloud.x += cloud.speed] *)
Definition drifted (cloud : Cloud) : Cloud :=
  {| x := x cloud + speed cloud; y := y cloud; speed := speed cloud;
     size := size cloud; opacity := opacity cloud |}.

(** The cloud has drifted past the right edge of the canvas. *)
Definition pastRightEdge (g : Game) (cloud : Cloud) : Prop :=
  width g + size cloud < x cloud.

(** What can happen to a controller after its construction. *)
Inductive Action :=
| Frame (t : Tick)                      (** a turn of the frame loop *)
| CloudTick                             (** a call of [updateClouds] *)
| Settings (settings : SettingsPatch)   (** [setAnimationSettings] *)
| Resize (w h : Q)                      (** [handleResize] *)
| Received (e_data : Worker.WorkerResponse)
| Started (t : Tick).                   (** [start] *)

Section Browser.
Variable random : nat -> Q.
Variable mod_2pi : Q -> Q.

Definition act (gn : Game * nat) (a : Action) : Game * nat :=
  let '(g, n) := gn in
  match a with
  | Frame t => fst (gameLoop random mod_2pi t g n)
  | CloudTick => updateClouds random g n
  | Settings settings => setAnimationSettings random settings g n
  | Resize w h => handleResize random w h g n
  | Received e_data => (onmessage e_data g, n)
  | Started t => fst (fst (start random mod_2pi t g n))
  end.

Definition acts (l : list Action) (gn : Game * nat) : Game * nat :=
  fold_left act l gn.

End Browser.

End GameProps.

(** Vocabulary for the cloud methods in double arithmetic. *)
Module RoundedProps.
Import Game.
Local Open Scope Q_scope.

Section Arithmetic.
Variable fl : Q -> Q.
Variable random : nat -> Q.

(** [cloud.x += cloud.speed] *)
Definition drifted (cloud : Cloud) : Cloud :=
  {| x := fl (x cloud + speed cloud); y := y cloud; speed := speed cloud;
     size := size cloud; opacity := opacity cloud |}.

(** The cloud has drifted past the right edge of the canvas: the test
    [cloud.x > this.canvas.width + cloud.size]. *)
Definition pastRightEdge (g : Game) (cloud : Cloud) : Prop :=
  fl (width g + size cloud) < x cloud.

(** The cloud is past the right edge once it has made its drift. *)
Definition leaves (g : Game) (cloud : Cloud) : bool :=
  if Qlt_le_dec (fl (width g + size (drifted cloud))) (x (drifted cloud))
  then true else false.

(** The random numbers an update has drawn when it reaches slot [i]: four
    for each of the slots before [i] whose cloud leaves. *)
Definition drawsBefore (g : Game) (cs : list Cloud) (i : nat) : nat :=
  4 * List.length (filter (leaves g) (firstn i cs)).

(** [m] cloud updates in a row *)
Fixpoint updates (m : nat) (gn : Game * nat) : Game * nat :=
  match m with
  | O => gn
  | S m => updates m (Rounded.updateClouds fl random (fst gn) (snd gn))
  end.

End Arithmetic.

End RoundedProps.

(** Further vocabulary for the engine. *)
Module EngineProps.
Import State Types Worker Props.

(** The direction that undoes a move. *)
Definition opposite (d : Direction) : Direction :=
  match d with
  | up => down | down => up | left => right | right => left
  | back => front | front => back
  end.

(** A [GAME_UPDATE] message without a direction: the one message that is
    handled without any event being posted. *)
Definition withoutDirection (e_data : WorkerMessage) : bool :=
  String.eqb (task e_data) MESSAGE_GAME_UPDATE
  && match direction e_data with
     | None => true
     | Some _ => false
     end.

Definition isFinite (c : MovementCost) : bool :=
  match c with
  | Finite _ => true
  | Infinity => false
  end.

(** A finite cost of at least 1. *)
Definition atLeastOne (c : MovementCost) : Prop :=
  match c with
  | Finite q => (1 <= q)%Q
  | Infinity => False
  end.

End EngineProps.

(** Further vocabulary for the render controller and the drawing routine. *)
Module ControllerProps.
Import Game GameProps Draw.
Local Open Scope Q_scope.

(** Bounds on what [createCloud] makes that do not depend on how its
    arithmetic rounds: the size lies between 60 and 160, the speed is at
    least the least cloud speed and the opacity at least 0.4. *)
Definition cloudInRange (c : Cloud) : Prop :=
  (60 <= size c /\ size c <= 160)
  /\ MIN_CLOUD_SPEED <= speed c
  /\ 0.4 <= opacity c.

(** What can reach a controller: the actions of [GameProps.Action], a key
    press, a direction sent through [sendDirection], the end of the cooldown
    of [move], and [stop]. *)
Inductive Input :=
| Browser (a : Action)
| Pressed (key : string)
| Sent (d : Types.Direction)
| CooldownOver
| Stopped.

Definition optionList {A : Type} (o : option A) : list A :=
  match o with
  | Some a => [a]
  | None => []
  end.

Section Browser.
Variable random : nat -> Q.
Variable mod_2pi : Q -> Q.

(** The controller after an input and the messages it has posted to the
    worker; [None] when a key is outside the model of [handleKeyDown]. *)
Definition input (gn : Game * nat) (i : Input)
    : option (Game * nat * list Worker.WorkerMessage) :=
  match i with
  | Browser (Started t) =>
      Some (act random mod_2pi gn (Started t),
            [snd (start random mod_2pi t (fst gn) (snd gn))])
  | Browser a => Some (act random mod_2pi gn a, [])
  | Pressed key =>
      match handleKeyDown key (fst gn) with
      | Some (g', m) => Some ((g', snd gn), optionList m)
      | None => None
      end
  | Sent d =>
      Some ((fst (sendDirection d (fst gn)), snd gn),
            optionList (snd (sendDirection d (fst gn))))
  | CooldownOver => Some ((moveTimeout (fst gn), snd gn), [])
  | Stopped => Some ((stop (fst gn), snd gn), [])
  end.

Fixpoint inputs (l : list Input) (gn : Game * nat)
    : option (Game * nat * list Worker.WorkerMessage) :=
  match l with
  | [] => Some (gn, [])
  | i :: rest =>
      match input gn i with
      | None => None
      | Some (gn1, m1) =>
          match inputs rest gn1 with
          | None => None
          | Some (gn2, m2) => Some (gn2, m1 ++ m2)
          end
      end
  end.

End Browser.

Definition isMoveMessage (m : Worker.WorkerMessage) : bool :=
  String.eqb (Worker.task m) Types.MESSAGE_GAME_UPDATE.

(** Inputs that are guarded by [isRunning]: turns of the frame loop, key
    presses and sent directions. *)
Definition guarded (i : Input) : bool :=
  match i with
  | Browser (Frame _) | Pressed _ | Sent _ => true
  | _ => false
  end.

Definition isCooldownOver (i : Input) : bool :=
  match i with
  | CooldownOver => true
  | _ => false
  end.


(** The calls that draw an animation. *)
Definition isAnimated (c : Call) : bool :=
  match c with
  | drawWaves _ _ _ _ | drawRiver _ _ _ _ | drawCloud _ _ _ => true
  | _ => false
  end.

Definition allOff (a : AnimationSettings) : Prop :=
  truthy (enableClouds a) = false
  /\ truthy (enableWaves a) = false
  /\ truthy (enableRiver a) = false.

(** The fields that neither the frame loop nor the cloud and settings
    methods write. *)
Definition sameCore (g g' : Game) : Prop :=
  movementCooldown g' = movementCooldown g
  /\ isRunning g' = isRunning g
  /\ frameThrottle g' = frameThrottle g
  /\ Types.theme (state g') = Types.theme (state g)
  /\ Types.terrain (state g') = Types.terrain (state g)
  /\ currentTerrain g' = currentTerrain g.

(** The number of cells of a grid. *)
Definition cellCount (rows : list (list Types.TerrainType)) : nat :=
  fold_right (fun cells n => (List.length cells + n)%nat) 0%nat rows.

End ControllerProps.

(* ------------------------------------------------------------------ *)
(** ** The reference map *)

Import State Types Worker Props.

Lemma index_Some {A} (a : list A) (i : Z) :
  0 <= i < length' a -> exists v, index a i = Some v.
Proof.
  unfold index, length'. intros [Hlo Hhi].
  destruct (Z.ltb_spec i 0) as [Hneg | _]; [lia |].
  destruct (nth_error a (Z.to_nat i)) as [v |] eqn:E; [now exists v |].
  apply nth_error_None in E. lia.
Qed.

Lemma index_In {A} (a : list A) (i : Z) (v : A) :
  index a i = Some v -> In v a.
Proof.
  unfold index. destruct (i <? 0); [discriminate |]. apply nth_error_In.
Qed.

Lemma index_None_below {A} (a : list A) (i : Z) : i < 0 -> index a i = None.
Proof.
  unfold index. intros H. destruct (Z.ltb_spec i 0); [reflexivity | lia].
Qed.

Lemma index_None_above {A} (a : list A) (i : Z) :
  length' a <= i -> index a i = None.
Proof.
  unfold index, length'. intros H.
  destruct (i <? 0); [reflexivity |]. apply nth_error_None. lia.
Qed.

Lemma terrainMap_rows : length' terrainMap = 15.
Proof. reflexivity. Qed.

Lemma terrainMap_columns :
  Forall (fun row => length' row = 20) terrainMap.
Proof. repeat constructor. Qed.

Lemma isInBounds_iff (p : Position) :
  isInBounds p = true <-> 0 <= x p < 20 /\ 0 <= y p < 15.
Proof.
  unfold isInBounds.
  change (length' (nth 0 terrainMap [])) with 20.
  change (length' terrainMap) with 15.
  rewrite !andb_true_iff, !Z.geb_le, !Z.ltb_lt. lia.
Qed.

Lemma terrainAt_in_bounds (p : Position) :
  isInBounds p = true -> exists t, terrainAt p = Some t.
Proof.
  intros H. apply isInBounds_iff in H. unfold terrainAt.
  destruct (index_Some terrainMap (y p)) as [row Hrow].
  { rewrite terrainMap_rows. lia. }
  rewrite Hrow. apply index_Some.
  pose proof terrainMap_columns as Hc. rewrite Forall_forall in Hc.
  rewrite (Hc row (index_In _ _ _ Hrow)). lia.
Qed.

Lemma terrainAt_out_of_bounds (p : Position) :
  isInBounds p = false -> terrainAt p = None.
Proof.
  intros H. unfold terrainAt.
  destruct (index terrainMap (y p)) as [row |] eqn:Hrow; [| reflexivity].
  assert (Hy : 0 <= y p < 15).
  { destruct (Z.ltb_spec (y p) 0) as [Hn | Hn].
    - rewrite index_None_below in Hrow by exact Hn. discriminate.
    - destruct (Z.ltb_spec (y p) 15) as [Hm | Hm]; [lia |].
      rewrite index_None_above in Hrow by (rewrite terrainMap_rows; lia).
      discriminate. }
  pose proof terrainMap_columns as Hc. rewrite Forall_forall in Hc.
  pose proof (Hc row (index_In _ _ _ Hrow)) as Hlen.
  destruct (Z.ltb_spec (x p) 0) as [Hn | Hn].
  - now apply index_None_below.
  - apply index_None_above. rewrite Hlen.
    destruct (Z.ltb_spec (x p) 20) as [Hm | Hm]; [| lia].
    exfalso. assert (isInBounds p = true) by (apply isInBounds_iff; lia).
    congruence.
Qed.

Lemma in_cells (p : Position) : isInBounds p = true -> In p cells.
Proof.
  intros H. apply isInBounds_iff in H. unfold cells.
  apply in_flat_map. exists (Z.to_nat (y p)). split.
  - apply in_seq. lia.
  - apply in_map_iff. exists (Z.to_nat (x p)). split.
    + destruct p as [px py]. simpl in *. f_equal; lia.
    + apply in_seq. lia.
Qed.

(** A decidable property checked on the 300 cells holds of every position
    of the map. *)
Lemma for_all_cells (P : Position -> bool) :
  forallb P cells = true -> forall p, isInBounds p = true -> P p = true.
Proof.
  intros H p Hp. rewrite forallb_forall in H. apply H, in_cells, Hp.
Qed.

(* ------------------------------------------------------------------ *)
(** ** Running the handlers *)

Lemma cell_run (p : Position) (w : World) :
  isInBounds p = true -> cell (y p) (x p) w = (inl (terrainAt p), w).
Proof.
  intros H. destruct (terrainAt_in_bounds p H) as [t Ht].
  unfold cell, terrainAt in *.
  destruct (index terrainMap (y p)); [reflexivity | discriminate].
Qed.

Lemma canMove_run (p : Position) (w : World) :
  canMove p w = (inl (walkableAt p), w).
Proof.
  unfold canMove, walkableAt.
  destruct (isInBounds p) eqn:Hb; simpl; [| reflexivity].
  unfold bind. rewrite (cell_run p w Hb).
  destruct (terrainAt_in_bounds p Hb) as [t Ht]. rewrite Ht. reflexivity.
Qed.

Lemma walkableAt_iff (p : Position) :
  walkableAt p = true <->
  isInBounds p = true
  /\ exists t, terrainAt p = Some t /\ walkable (terrainProperties t) = true.
Proof.
  unfold walkableAt. rewrite andb_true_iff. split.
  - intros [Hb Hw]. split; [exact Hb |].
    destruct (terrainAt p) as [t |]; [now exists t | discriminate].
  - intros [Hb [t [Ht Hw]]]. rewrite Ht. auto.
Qed.

Lemma target_eq (p : Position) (d : Direction) :
  plus p (unitVector d) =
  match d with
  | left => {| x := x p - 1; y := y p |}
  | right => {| x := x p + 1; y := y p |}
  | up => {| x := x p; y := y p - 1 |}
  | down => {| x := x p; y := y p + 1 |}
  | _ => {| x := x p + 0; y := y p + 0 |}
  end.
Proof.
  destruct d; unfold plus, unitVector; simpl; f_equal; lia.
Qed.

Lemma walkableAt_in_bounds (p : Position) :
  walkableAt p = true -> isInBounds p = true.
Proof. intros H. apply walkableAt_iff in H. tauto. Qed.

(** One more call of [canMove] or one more read of the map, evaluated. *)
Ltac engine_step :=
  first [ rewrite canMove_run | rewrite cell_run by assumption ];
  cbn [gameState idleCheckInterval tasks outbox position].

Lemma handleMovement_run (now : Z) (d : Direction) (w : World) :
  movement d = true ->
  isInBounds (position (gameState w)) = true ->
  handleMovement now d w = (inl tt, moved now d w).
Proof.
  intros Hd Hp.
  unfold moved, blockedText. rewrite (target_eq (position (gameState w)) d).
  unfold handleMovement, bind, modifyState, getState, ret, postMessage.
  cbn [gameState idleCheckInterval tasks outbox position
       set_facing set_idleState set_lastActivityTime].
  destruct d; try discriminate Hd;
    (match goal with
     | |- context [canMove ?np _] => set (target := np)
     end;
     destruct (walkableAt target) eqn:Hw;
     [ pose proof (walkableAt_in_bounds _ Hw) as Hb
     | destruct (isInBounds target) eqn:Hb ];
     repeat (first [ engine_step | rewrite Hw | rewrite Hb ];
             cbn [gameState idleCheckInterval tasks outbox position]);
     reflexivity).
Qed.

Lemma unit_moves (p : Position) (d : Direction) :
  movement d = true -> plus p (unitVector d) <> p.
Proof.
  intros Hd E. apply (f_equal (fun q => (x q, y q))) in E.
  destruct d; try discriminate Hd; unfold plus, unitVector in E; simpl in E;
    inversion E; lia.
Qed.

Lemma moved_position (now : Z) (d : Direction) (w : World) :
  position (gameState (moved now d w)) =
  if walkableAt (plus (position (gameState w)) (unitVector d))
  then plus (position (gameState w)) (unitVector d)
  else position (gameState w).
Proof.
  unfold moved. destruct (walkableAt _); reflexivity.
Qed.

(* ------------------------------------------------------------------ *)
(** ** Movement *)

(** C1: on the reference map, for a player on a cell [p] of the map and a
    direction [d] among up, down, left and right, [handleMovement d] returns
    normally, and the position becomes [p + unit d] exactly when that cell is
    within the map and its terrain is walkable in the terrain-properties
    table; in every other case the position stays [p] and the one event
    posted has the Error status. *)
Theorem handleMovement_moves_iff_walkable (now : Z) (d : Direction) (w : World) :
  movement d = true ->
  isInBounds (position (gameState w)) = true ->
  let p := position (gameState w) in
  let target := plus p (unitVector d) in
  let w' := snd (handleMovement now d w) in
  let allowed :=
    isInBounds target = true
    /\ exists t, terrainAt target = Some t
                 /\ walkable (terrainProperties t) = true in
  fst (handleMovement now d w) = inl tt
  /\ (position (gameState w') = target <-> allowed)
  /\ (~ allowed ->
      position (gameState w') = p
      /\ exists ev, outbox w' = outbox w ++ [ev]
                    /\ r_status ev = Some STATUS_ERROR).
Proof.
  intros Hd Hp p target w' allowed. subst w'.
  rewrite (handleMovement_run now d w Hd Hp). cbn [fst snd].
  assert (Hallowed : walkableAt target = true <-> allowed)
    by apply walkableAt_iff.
  split; [reflexivity |]. rewrite moved_position. fold p target. split.
  - destruct (walkableAt target) eqn:Hw.
    + split; [intros _; now apply Hallowed | reflexivity].
    + split.
      * intros E. symmetry in E. now apply unit_moves in E.
      * intros Ha. apply Hallowed in Ha. discriminate.
  - intros Hn. destruct (walkableAt target) eqn:Hw.
    + exfalso. now apply Hn, Hallowed.
    + split; [reflexivity |]. unfold moved. fold p target. rewrite Hw.
      eexists. split; reflexivity.
Qed.

Lemma handleMovement_moves_iff_walkable_witness :
  let w := initialWorld 0 in
  fst (handleMovement 5 up w) = inl tt
  /\ position (gameState (snd (handleMovement 5 up w))) = {| x := 2; y := 1 |}.
Proof.
  pose proof (handleMovement_moves_iff_walkable 5 up (initialWorld 0)
                eq_refl eq_refl) as [H1 [H2 _]].
  split; [exact H1 |].
  apply H2. split; [reflexivity |]. exists BEACH. split; reflexivity.
Defined.

Lemma run_app (evs1 evs2 : list Event) (w : World) :
  run (evs1 ++ evs2) w = run evs2 (run evs1 w).
Proof. apply fold_left_app. Qed.

Lemma onmessage_move (now : Z) (e_data : WorkerMessage) (d : Direction)
    (w : World) :
  task e_data = MESSAGE_GAME_UPDATE -> direction e_data = Some d ->
  movement d = true ->
  isInBounds (position (gameState w)) = true ->
  step w (Message now e_data) = moved now d (touched now w).
Proof.
  intros Ht Hdir Hd Hp.
  unfold step, handler, onmessage, try_catch, bind, modifyState.
  rewrite Ht, Hdir.
  replace (String.eqb MESSAGE_GAME_UPDATE MESSAGE_START) with false
    by reflexivity.
  replace (String.eqb MESSAGE_GAME_UPDATE MESSAGE_GAME_UPDATE) with true
    by reflexivity.
  fold (touched now w).
  rewrite (handleMovement_run now d (touched now w) Hd) by exact Hp.
  reflexivity.
Qed.

Lemma blocked_not_walkable (target : Position) :
  (isInBounds target = false
   \/ exists t, terrainAt target = Some t
                /\ walkable (terrainProperties t) = false) ->
  walkableAt target = false.
Proof.
  unfold walkableAt. intros [Hb | [t [Ht Hw]]].
  - now rewrite Hb.
  - rewrite Ht, Hw. apply andb_false_r.
Qed.

Lemma blockedText_form (d : Direction) (target : Position) :
  (isInBounds target = true ->
   exists t, terrainAt target = Some t
             /\ blockedText d target =
                ("Cannot move " ++ Direction_toString d ++ " - blocked by "
                 ++ terrainNames t)%string)
  /\ (isInBounds target = false ->
      blockedText d target =
      ("Cannot move " ++ Direction_toString d
       ++ " - blocked by boundary")%string).
Proof.
  unfold blockedText. split; intros Hb; rewrite Hb.
  - destruct (terrainAt_in_bounds target Hb) as [t Ht].
    exists t. now rewrite Ht.
  - reflexivity.
Qed.

(** C5: from a cell [p] of the map, when [p + unit d] is off the map or not
    walkable, any number of [Move d] commands leaves the position at [p];
    each of them posts exactly one event, with the Error status and the same
    text, which reads Cannot move d - blocked by T, where T is the name of
    the terrain of the target when the target is on the map and the word
    boundary when it is not. *)
Theorem blocked_move_is_idempotent (d : Direction) (times : list Z) (w : World) :
  movement d = true ->
  isInBounds (position (gameState w)) = true ->
  let p := position (gameState w) in
  let target := plus p (unitVector d) in
  (isInBounds target = false
   \/ exists t, terrainAt target = Some t
                /\ walkable (terrainProperties t) = false) ->
  let w' := run (map (fun now => Message now (GAME_UPDATE d)) times) w in
  position (gameState w') = p
  /\ (exists evs,
        outbox w' = outbox w ++ evs
        /\ List.length evs = List.length times
        /\ Forall (fun ev => r_status ev = Some STATUS_ERROR
                             /\ r_message ev = Some (blockedText d target))
                  evs)
  /\ (isInBounds target = true ->
      exists t, terrainAt target = Some t
                /\ blockedText d target =
                   ("Cannot move " ++ Direction_toString d
                    ++ " - blocked by " ++ terrainNames t)%string)
  /\ (isInBounds target = false ->
      blockedText d target =
      ("Cannot move " ++ Direction_toString d
       ++ " - blocked by boundary")%string).
Proof.
  intros Hd Hp p target Hblocked w'.
  apply blocked_not_walkable in Hblocked.
  split; [| split; [| apply blockedText_form]]; subst w'.
  - revert w p target Hp Hblocked.
    induction times as [| now rest IH]; intros w p target Hp Hblocked;
      [reflexivity |].
    cbn [map run fold_left].
    assert (Hstep : position (gameState (step w (Message now (GAME_UPDATE d))))
                    = p).
    { rewrite (onmessage_move now (GAME_UPDATE d) d w eq_refl eq_refl Hd Hp).
      rewrite moved_position. cbn [touched gameState set_lastActivityTime position].
      fold p target. now rewrite Hblocked. }
    change (fold_left step ?l ?v) with (run l v).
    rewrite IH; rewrite Hstep; auto.
  - revert w p target Hp Hblocked.
    induction times as [| now rest IH]; intros w p target Hp Hblocked.
    + exists []. rewrite app_nil_r. repeat split; constructor.
    + cbn [map run fold_left].
      change (fold_left step ?l ?v) with (run l v).
      set (w1 := step w (Message now (GAME_UPDATE d))).
      assert (Hw1 : w1 = moved now d (touched now w))
        by apply (onmessage_move now (GAME_UPDATE d) d w eq_refl eq_refl Hd Hp).
      assert (Hpos : position (gameState w1) = p).
      { rewrite Hw1, moved_position.
        cbn [touched gameState set_lastActivityTime position].
        fold p target. now rewrite Hblocked. }
      destruct (IH w1) as [evs [Hout [Hlen Hall]]].
      { now rewrite Hpos. }
      { now rewrite Hpos. }
      rewrite Hpos in Hall. fold target in Hall.
      assert (Hout1 : exists ev, outbox w1 = outbox w ++ [ev]
                 /\ r_status ev = Some STATUS_ERROR
                 /\ r_message ev = Some (blockedText d target)).
      { rewrite Hw1. unfold moved.
        cbn [touched gameState set_lastActivityTime position outbox].
        fold p target. rewrite Hblocked.
        eexists. repeat split. }
      destruct Hout1 as [ev [Hout1 [Hst Hmsg]]].
      exists (ev :: evs). rewrite Hout, Hout1, <- app_assoc.
      repeat split; simpl; auto.
Qed.

Lemma blocked_move_is_idempotent_witness :
  let w := initialWorld 0 in
  let w1 := step w (Message 1 (GAME_UPDATE left)) in
  let w' :=
    run (map (fun now => Message now (GAME_UPDATE left)) [2; 3; 4]) w1 in
  position (gameState w') = {| x := 1; y := 2 |}
  /\ map r_message (skipn 1 (outbox w')) =
     repeat (Some "Cannot move left - blocked by Water") 3.
Proof.
  pose proof (blocked_move_is_idempotent left [2; 3; 4]
                (step (initialWorld 0) (Message 1 (GAME_UPDATE left)))
                eq_refl eq_refl
                (or_intror (ex_intro _ WATER (conj eq_refl eq_refl))))
    as [H _].
  split; [exact H | reflexivity].
Defined.

(* ------------------------------------------------------------------ *)
(** ** What each turn of the event loop does *)

Lemma onmessage_start (now : Z) (e_data : WorkerMessage) (w : World) :
  task e_data = MESSAGE_START ->
  step w (Message now e_data) = started now (time e_data) w.
Proof.
  intros Ht.
  unfold step, handler, onmessage, try_catch, bind, modifyState.
  rewrite Ht.
  replace (String.eqb MESSAGE_START MESSAGE_START) with true by reflexivity.
  reflexivity.
Qed.

Lemma onmessage_unknown (now : Z) (e_data : WorkerMessage) (w : World) :
  task e_data <> MESSAGE_START ->
  task e_data <> MESSAGE_GAME_UPDATE ->
  step w (Message now e_data) =
  {| gameState := set_lastActivityTime now (gameState w);
     idleCheckInterval := idleCheckInterval w;
     tasks := tasks w;
     outbox := outbox w
               ++ [errorEvent ("Unknown task: " ++ task e_data)%string] |}.
Proof.
  intros H1 H2. apply String.eqb_neq in H1, H2.
  unfold step, handler, onmessage, try_catch, bind, modifyState.
  rewrite H1, H2. reflexivity.
Qed.

Lemma onmessage_no_direction (now : Z) (e_data : WorkerMessage) (w : World) :
  task e_data = MESSAGE_GAME_UPDATE -> direction e_data = None ->
  step w (Message now e_data) = touched now w.
Proof.
  intros Ht Hdir.
  unfold step, handler, onmessage, try_catch, bind, modifyState.
  rewrite Ht, Hdir.
  replace (String.eqb MESSAGE_GAME_UPDATE MESSAGE_START) with false
    by reflexivity.
  replace (String.eqb MESSAGE_GAME_UPDATE MESSAGE_GAME_UPDATE) with true
    by reflexivity.
  reflexivity.
Qed.

Lemma onmessage_invalid_direction (now : Z) (e_data : WorkerMessage)
    (d : Direction) (w : World) :
  task e_data = MESSAGE_GAME_UPDATE -> direction e_data = Some d ->
  movement d = false ->
  step w (Message now e_data) =
  {| gameState := set_facing d (set_idleState ACTIVE
                    (set_lastActivityTime now
                       (set_lastActivityTime now (gameState w))));
     idleCheckInterval := idleCheckInterval w;
     tasks := tasks w;
     outbox := outbox w
               ++ [errorEvent ("Invalid direction: "
                               ++ Direction_toString d)%string] |}.
Proof.
  intros Ht Hdir Hd.
  unfold step, handler, onmessage, try_catch, bind, modifyState.
  rewrite Ht, Hdir.
  replace (String.eqb MESSAGE_GAME_UPDATE MESSAGE_START) with false
    by reflexivity.
  replace (String.eqb MESSAGE_GAME_UPDATE MESSAGE_GAME_UPDATE) with true
    by reflexivity.
  destruct d; try discriminate Hd; reflexivity.
Qed.

Lemma idleCheck_run (now : Z) (w : World) :
  let s := decayed (now - lastActivityTime (gameState w)) in
  snd (idleCheck now w) =
  if IdleState_eqb s (idleState (gameState w)) then w
  else {| gameState := set_idleState s (gameState w);
          idleCheckInterval := idleCheckInterval w;
          tasks := tasks w;
          outbox := outbox w ++
            [{| r_status := Some STATUS_PROCESSING;
                r_message :=
                  Some ("State changed to " ++ IdleState_toString s)%string;
                r_gameState := Some (set_idleState s (gameState w));
                r_terrainMap := None;
                r_step := None; r_total := None; r_result := None |}] |}.
Proof.
  intros s. unfold idleCheck, bind, getState. fold (decayed (now - lastActivityTime (gameState w))).
  fold s. destruct (IdleState_eqb s (idleState (gameState w))); reflexivity.
Qed.

Lemma IdleState_eqb_eq (a b : IdleStateType) :
  IdleState_eqb a b = true <-> a = b.
Proof. destruct a, b; simpl; split; congruence. Qed.

Lemma interval_idleState (now : Z) (w : World) :
  idleCheckInterval w = true ->
  idleState (gameState (step w (Interval now))) =
  decayed (now - lastActivityTime (gameState w)).
Proof.
  intros Hon. unfold step, handler. rewrite Hon, idleCheck_run.
  destruct (IdleState_eqb _ _) eqn:E; [| reflexivity].
  apply IdleState_eqb_eq in E. now rewrite E.
Qed.

(** The interval leaves everything but the idle state and the outbox. *)
Lemma interval_frame (now : Z) (w : World) :
  let w' := step w (Interval now) in
  position (gameState w') = position (gameState w)
  /\ lastActivityTime (gameState w') = lastActivityTime (gameState w)
  /\ idleCheckInterval w' = idleCheckInterval w
  /\ tasks w' = tasks w.
Proof.
  unfold step, handler. destruct (idleCheckInterval w) eqn:Hon.
  - rewrite idleCheck_run. destruct (IdleState_eqb _ _); simpl; auto.
  - simpl. auto.
Qed.

Lemma timeout_gameState (k : nat) (w : World) :
  gameState (step w (Timer k)) = gameState w
  /\ idleCheckInterval (step w (Timer k)) = idleCheckInterval w.
Proof.
  unfold step, handler, timeout.
  destruct (nth_error (tasks w) k) as [[p |] |]; try (split; reflexivity).
  unfold longRunningFunction_resume, longRunningFunction_from,
    postMessage, setTask, ret, bind.
  cbn [gameState idleCheckInterval tasks outbox].
  destruct (p_i p + 1 <? total); split; reflexivity.
Qed.

(* ------------------------------------------------------------------ *)
(** ** The border of the map *)

Lemma interiorb_iff (p : Position) : interiorb p = true <-> interior p.
Proof.
  unfold interiorb, interior. rewrite !andb_true_iff, !Z.leb_le. lia.
Qed.

Lemma border_is_water (p : Position) :
  onBorder p -> terrainAt p = Some WATER.
Proof.
  intros [Hx [Hy Hedge]].
  assert (Hb : isInBounds p = true) by (apply isInBounds_iff; lia).
  pose proof (for_all_cells
                (fun q => interiorb q || isWater (terrainAt q))
                ltac:(vm_compute; reflexivity) p Hb) as H.
  cbv beta in H. apply orb_true_iff in H. destruct H as [H | H].
  - apply interiorb_iff in H. unfold interior in H. lia.
  - unfold isWater in H.
    destruct (terrainAt p) as [[] |]; try discriminate H. reflexivity.
Qed.

Lemma walkable_is_interior (p : Position) :
  walkableAt p = true -> interior p.
Proof.
  intros Hw. pose proof (walkableAt_in_bounds p Hw) as Hb.
  pose proof (for_all_cells
                (fun q => negb (walkableAt q) || interiorb q)
                ltac:(vm_compute; reflexivity) p Hb) as H.
  cbv beta in H. rewrite Hw in H. now apply interiorb_iff.
Qed.

Lemma step_keeps_walkable (w : World) (ev : Event) :
  walkableAt (position (gameState w)) = true ->
  walkableAt (position (gameState (step w ev))) = true.
Proof.
  intros Hw. pose proof (walkableAt_in_bounds _ Hw) as Hb.
  destruct ev as [now e_data | now | k].
  - destruct (String.eqb_spec (task e_data) MESSAGE_START) as [Hs | Hs].
    { now rewrite (onmessage_start now e_data w Hs). }
    destruct (String.eqb_spec (task e_data) MESSAGE_GAME_UPDATE) as [Hg | Hg].
    2: { now rewrite (onmessage_unknown now e_data w Hs Hg). }
    destruct (direction e_data) as [d |] eqn:Hdir.
    2: { now rewrite (onmessage_no_direction now e_data w Hg Hdir). }
    destruct (movement d) eqn:Hd.
    2: { now rewrite (onmessage_invalid_direction now e_data d w Hg Hdir Hd). }
    rewrite (onmessage_move now e_data d w Hg Hdir Hd Hb), moved_position.
    cbn [touched gameState set_lastActivityTime position].
    destruct (walkableAt (plus _ _)) eqn:Ht; assumption.
  - destruct (interval_frame now w) as [Hpos _]. now rewrite Hpos.
  - destruct (timeout_gameState k w) as [Hg _]. now rewrite Hg.
Qed.

Lemma run_keeps_walkable (evs : list Event) (w : World) :
  walkableAt (position (gameState w)) = true ->
  walkableAt (position (gameState (run evs w))) = true.
Proof.
  revert w. induction evs as [| ev evs IH]; intros w Hw; [exact Hw |].
  apply (IH (step w ev)), step_keeps_walkable, Hw.
Qed.

(** C9: every cell of row 0, row 14, column 0 and column 19 of the
    reference map holds Water, whose entry in the terrain table is not
    walkable; hence, whatever the worker has run since it was loaded, the
    player stands strictly inside the map, and the cell a move in any of the
    four directions aims at is on the map, so that the boundary branch of the
    blocked text is never taken. *)
Theorem border_water_keeps_player_inside :
  (forall p, onBorder p -> terrainAt p = Some WATER)
  /\ walkable (terrainProperties WATER) = false
  /\ forall (t0 : Z) (evs : list Event),
       let p := position (gameState (run evs (initialWorld t0))) in
       interior p
       /\ forall d, movement d = true ->
            isInBounds (plus p (unitVector d)) = true
            /\ blockedText d (plus p (unitVector d)) <>
               ("Cannot move " ++ Direction_toString d
                ++ " - blocked by boundary")%string.
Proof.
  split; [exact border_is_water |]. split; [reflexivity |].
  intros t0 evs p.
  assert (Hin : interior p).
  { apply walkable_is_interior, run_keeps_walkable. reflexivity. }
  split; [exact Hin |]. intros d Hd.
  assert (Hb : isInBounds (plus p (unitVector d)) = true).
  { apply isInBounds_iff. unfold interior in Hin.
    destruct d; try discriminate Hd; unfold plus, unitVector; simpl; lia. }
  split; [exact Hb |].
  unfold blockedText. rewrite Hb.
  destruct (terrainAt_in_bounds _ Hb) as [t Ht]. rewrite Ht.
  destruct d; try discriminate Hd; destruct t; simpl; discriminate.
Qed.

Lemma border_water_keeps_player_inside_witness :
  terrainAt {| x := 19; y := 7 |} = Some WATER
  /\ isInBounds
       (plus (position (gameState
                (run [Message 1 (GAME_UPDATE left)] (initialWorld 0))))
             (unitVector left)) = true.
Proof.
  destruct border_water_keeps_player_inside as [Hborder [_ Hreach]].
  split.
  - apply Hborder. unfold onBorder. simpl. lia.
  - destruct (Hreach 0 [Message 1 (GAME_UPDATE left)]) as [_ Hd].
    apply (Hd left eq_refl).
Defined.

(* ------------------------------------------------------------------ *)
(** ** Unknown commands *)

Lemma contains_suffix (pre s : string) : contains (pre ++ s)%string s.
Proof.
  exists pre, ""%string. f_equal.
  induction s as [| c s IH]; simpl; [reflexivity | now rewrite <- IH].
Qed.

(** C3, as the code has it: a message whose task is neither START nor
    GAME_UPDATE posts exactly one event, with the Error status and a text
    that contains the task name; position, facing, isMoving, currentTerrain,
    idleState and message of the player state keep their values, and
    lastActivityTime becomes the clock value at which the message is
    handled. *)
Theorem unknown_task_reports_error (now : Z) (e_data : WorkerMessage)
    (w : World) :
  task e_data <> MESSAGE_START ->
  task e_data <> MESSAGE_GAME_UPDATE ->
  let g := gameState w in
  let g' := gameState (step w (Message now e_data)) in
  (exists ev text,
     outbox (step w (Message now e_data)) = outbox w ++ [ev]
     /\ r_status ev = Some STATUS_ERROR
     /\ r_message ev = Some text
     /\ contains text (task e_data))
  /\ position g' = position g
  /\ facing g' = facing g
  /\ isMoving g' = isMoving g
  /\ terrain g' = terrain g
  /\ currentTerrain g' = currentTerrain g
  /\ status g' = status g
  /\ message g' = message g
  /\ isStarted g' = isStarted g
  /\ idleState g' = idleState g
  /\ lastActivityTime g' = now.
Proof.
  intros H1 H2 g g'. subst g g'.
  rewrite (onmessage_unknown now e_data w H1 H2).
  cbn [gameState outbox set_lastActivityTime position facing isMoving terrain
       currentTerrain status message isStarted idleState lastActivityTime].
  split; [| repeat split].
  eexists. eexists. split; [reflexivity |]. split; [reflexivity |].
  split; [reflexivity |]. apply contains_suffix.
Qed.

Lemma unknown_task_reports_error_witness :
  let e_data := {| task := "PAUSE"; direction := None; time := None |} in
  let w' := step (initialWorld 0) (Message 1000 e_data) in
  map r_message (outbox w') = [Some "Unknown task: PAUSE"]
  /\ position (gameState w') = {| x := 2; y := 2 |}
  /\ lastActivityTime (gameState w') = 1000.
Proof.
  pose proof (unknown_task_reports_error 1000
                {| task := "PAUSE"; direction := None; time := None |}
                (initialWorld 0)
                ltac:(discriminate) ltac:(discriminate))
    as [_ [Hpos [_ [_ [_ [_ [_ [_ [_ [_ Htime]]]]]]]]]].
  split; [reflexivity |]. split; [exact Hpos | exact Htime].
Defined.

(** C3 as stated fails: the unknown task PAUSE, handled at clock value 1000
    by a worker loaded at 0, changes lastActivityTime from 0 to 1000. *)
Lemma unknown_task_alters_lastActivityTime :
  let e_data := {| task := "PAUSE"; direction := None; time := None |} in
  let w := initialWorld 0 in
  task e_data <> MESSAGE_START
  /\ task e_data <> MESSAGE_GAME_UPDATE
  /\ lastActivityTime (gameState w) = 0
  /\ lastActivityTime (gameState (step w (Message 1000 e_data))) = 1000
  /\ gameState (step w (Message 1000 e_data)) <> gameState w.
Proof.
  repeat split; try discriminate.
Qed.

(* ------------------------------------------------------------------ *)
(** ** Start *)

(** C2 at the failing input: a worker loaded at 0 handles Start, then a Move
    to the right (accepted: the cell (3,2) is Grassland), then Start again.
    The snapshot of the second Start has position (3,2) and facing right,
    where the specification has the spawn (2,2) and facing down. *)
Theorem start_keeps_position_after_move :
  let w :=
    run [Message 0 (START None); Message 10 (GAME_UPDATE right);
         Message 20 (START None)] (initialWorld 0) in
  exists ev g,
    nth_error (outbox w) 2 = Some ev
    /\ r_message ev = Some "Game initialized"
    /\ r_gameState ev = Some g
    /\ position g = {| x := 3; y := 2 |}
    /\ facing g = right
    /\ position g <> {| x := 2; y := 2 |}.
Proof.
  eexists. eexists. split; [vm_compute; reflexivity |].
  repeat split. discriminate.
Qed.

(** What Start does hold for: the snapshot is the state as it stands, with
    only the clock stamp renewed; on a worker that has just been loaded this
    is the spawn. *)
Lemma start_snapshot (now : Z) (e_data : WorkerMessage) (w : World) :
  task e_data = MESSAGE_START ->
  exists ev,
    outbox (step w (Message now e_data)) = outbox w ++ [ev]
    /\ r_gameState ev = Some (set_lastActivityTime now (gameState w))
    /\ gameState (step w (Message now e_data)) =
       set_lastActivityTime now (gameState w).
Proof.
  intros Ht. rewrite (onmessage_start now e_data w Ht).
  eexists. repeat split.
Qed.

Lemma start_on_load (t0 now : Z) (time : option float) :
  exists ev g,
    outbox (step (initialWorld t0) (Message now (START time))) = [ev]
    /\ r_gameState ev = Some g
    /\ position g = {| x := 2; y := 2 |}
    /\ facing g = down
    /\ idleState g = ACTIVE
    /\ currentTerrain g = terrainAt {| x := 2; y := 2 |}.
Proof.
  rewrite (onmessage_start now (START time) (initialWorld t0) eq_refl).
  eexists. eexists. repeat split.
Qed.

(* ------------------------------------------------------------------ *)
(** ** Idle decay *)

Lemma decayed_thresholds (t : Z) :
  (30000 <= t -> decayed t = SLEEPING)
  /\ (5000 <= t < 30000 -> decayed t = IDLE)
  /\ (200 <= t < 5000 -> decayed t = RESTING)
  /\ (t < 200 -> decayed t = ACTIVE).
Proof.
  unfold decayed, IdleThresholds.SLEEPING, IdleThresholds.IDLE,
    IdleThresholds.RESTING.
  repeat split; intros H;
    repeat match goal with
           | |- context [?a >=? ?b] =>
               destruct (Z.geb_spec a b); try lia
           end; reflexivity.
Qed.

Lemma decayed_monotone (t1 t2 : Z) :
  t1 <= t2 -> rank (decayed t1) <= rank (decayed t2).
Proof.
  intros H.
  unfold decayed, IdleThresholds.SLEEPING, IdleThresholds.IDLE,
    IdleThresholds.RESTING.
  repeat match goal with
         | |- context [?a >=? ?b] => destruct (Z.geb_spec a b)
         end; simpl; lia.
Qed.

Lemma idleTrace_map (times : list Z) (w : World) :
  idleCheckInterval w = true ->
  idleTrace times w =
  map (fun now => decayed (now - lastActivityTime (gameState w))) times.
Proof.
  revert w. induction times as [| now rest IH]; intros w Hon; [reflexivity |].
  cbn [idleTrace map].
  destruct (interval_frame now w) as [_ [Hlast [Harmed _]]].
  rewrite (interval_idleState now w Hon). f_equal.
  rewrite IH by (now rewrite Harmed). now rewrite Hlast.
Qed.

Lemma handleMovement_resets_idle (now : Z) (d : Direction) (w : World) :
  idleState (gameState (snd (handleMovement now d w))) = ACTIVE.
Proof.
  unfold handleMovement, canMove, cell, bind, modifyState, getState, ret,
    throw, postMessage.
  cbn -[index isInBounds terrainMap].
  destruct d; cbn -[index isInBounds terrainMap];
    repeat match goal with
           | |- context [index ?a ?i] =>
               destruct (index a i) as [? |];
               cbn -[index isInBounds terrainMap]
           | |- context [isInBounds ?p] =>
               destruct (isInBounds p); cbn -[index isInBounds terrainMap]
           | |- context [walkable ?t] =>
               destruct (walkable t); cbn -[index isInBounds terrainMap]
           end; reflexivity.
Qed.

Lemma onmessage_move_resets_idle (now : Z) (e_data : WorkerMessage)
    (d : Direction) (w : World) :
  task e_data = MESSAGE_GAME_UPDATE -> direction e_data = Some d ->
  idleState (gameState (step w (Message now e_data))) = ACTIVE.
Proof.
  intros Ht Hdir.
  unfold step, handler, onmessage, try_catch, bind, modifyState.
  rewrite Ht, Hdir.
  replace (String.eqb MESSAGE_GAME_UPDATE MESSAGE_START) with false
    by reflexivity.
  replace (String.eqb MESSAGE_GAME_UPDATE MESSAGE_GAME_UPDATE) with true
    by reflexivity.
  fold (touched now w).
  pose proof (handleMovement_resets_idle now d (touched now w)) as H.
  destruct (handleMovement now d (touched now w)) as [[u | e] w']; exact H.
Qed.

(** C4: with t the time since the last activity, a run of the idle interval
    leaves the idle state Sleeping when t >= 30000, Idle when
    5000 <= t < 30000, Resting when 200 <= t < 5000 and Active when
    t < 200; over runs of the interval at non-decreasing times, with no
    message in between, the idle states never step back in the order Active,
    Resting, Idle, Sleeping; and a Move command sets the idle state to Active
    whatever it was. *)
Theorem idle_decay_thresholds_and_reset :
  (forall (now : Z) (w : World),
     idleCheckInterval w = true ->
     let t := now - lastActivityTime (gameState w) in
     let s := idleState (gameState (step w (Interval now))) in
     (30000 <= t -> s = SLEEPING)
     /\ (5000 <= t < 30000 -> s = IDLE)
     /\ (200 <= t < 5000 -> s = RESTING)
     /\ (t < 200 -> s = ACTIVE))
  /\ (forall (times : list Z) (w : World),
        idleCheckInterval w = true ->
        StronglySorted Z.le times ->
        StronglySorted (fun a b => rank a <= rank b) (idleTrace times w))
  /\ (forall (now : Z) (e_data : WorkerMessage) (d : Direction) (w : World),
        task e_data = MESSAGE_GAME_UPDATE -> direction e_data = Some d ->
        idleState (gameState (step w (Message now e_data))) = ACTIVE).
Proof.
  split; [| split].
  - intros now w Hon t s. subst s. rewrite (interval_idleState now w Hon).
    apply decayed_thresholds.
  - intros times w Hon Hsorted. rewrite (idleTrace_map times w Hon).
    induction Hsorted as [| now rest Hrest IH Hall]; cbn [map];
      constructor; [exact IH |].
    rewrite Forall_forall in *. intros s Hs.
    apply in_map_iff in Hs. destruct Hs as [now' [<- Hin]].
    apply decayed_monotone. specialize (Hall now' Hin). lia.
  - exact onmessage_move_resets_idle.
Qed.

Lemma idle_decay_thresholds_and_reset_witness :
  let w := step (initialWorld 0) (Message 0 (START None)) in
  idleTrace [100; 600; 5100; 30100] w = [ACTIVE; RESTING; IDLE; SLEEPING]
  /\ StronglySorted (fun a b => rank a <= rank b)
       (idleTrace [100; 600; 5100; 30100] w)
  /\ idleState (gameState (step w (Interval 30000))) = SLEEPING
  /\ idleState
       (gameState (step (step w (Interval 30000))
                        (Message 30001 (GAME_UPDATE up)))) = ACTIVE.
Proof.
  destruct idle_decay_thresholds_and_reset as [Hdecay [Hmono Hreset]].
  split; [reflexivity |]. split; [| split].
  - apply Hmono; [reflexivity |].
    repeat (constructor; [| repeat constructor; lia]). constructor.
  - apply (Hdecay 30000); [reflexivity | simpl; lia].
  - apply (Hreset 30001 (GAME_UPDATE up) up); reflexivity.
Defined.

(* ------------------------------------------------------------------ *)
(** ** The progress task *)

Lemma nth_error_replace {A} (k : nat) (v : A) (l : list A) :
  (k < List.length l)%nat -> nth_error (replace k v l) k = Some v.
Proof.
  revert k. induction l as [| a l IH]; intros k Hk; simpl in Hk; [lia |].
  destruct k as [| k]; simpl; [reflexivity |]. apply IH. lia.
Qed.

Lemma length_replace {A} (k : nat) (v : A) (l : list A) :
  List.length (replace k v l) = List.length l.
Proof.
  revert k. induction l as [| a l IH]; intros k; [reflexivity |].
  destruct k; simpl; [reflexivity | now rewrite IH].
Qed.

Lemma nth_error_slot {A} (k : nat) (l : list A) (v : A) :
  nth_error l k = Some v -> (k < List.length l)%nat.
Proof. intros H. apply nth_error_Some. congruence. Qed.

Lemma replace_same {A} (k : nat) (v : A) (l : list A) :
  nth_error l k = Some v -> replace k v l = l.
Proof.
  revert k. induction l as [| a l IH]; intros k H; [reflexivity |].
  destruct k as [| k]; cbn in *; [now injection H as -> |].
  now rewrite IH.
Qed.

Lemma nth_error_replace_other {A} (k j : nat) (v : A) (l : list A) :
  j <> k -> nth_error (replace k v l) j = nth_error l j.
Proof.
  revert k j. induction l as [| a l IH]; intros k j Hne; [reflexivity |].
  destruct k as [| k], j as [| j]; cbn; try reflexivity; try congruence.
  apply IH. congruence.
Qed.

(** One firing of the timeout of a coroutine whose counter is [i]. *)
Lemma timeout_resume (k : nat) (t : float) (i : Z) (w : World) :
  nth_error (tasks w) k = Some (Some {| p_time := t; p_i := i |}) ->
  let w' := step w (Timer k) in
  gameState w' = gameState w
  /\ (i + 1 < 100 ->
      tasks w' = replace k (Some {| p_time := t; p_i := i + 1 |}) (tasks w)
      /\ outbox w' = outbox w ++ [processing (i + 1)])
  /\ (100 <= i + 1 ->
      tasks w' = replace k None (tasks w)
      /\ outbox w' = outbox w ++ [processing (i + 1); finished t]).
Proof.
  intros Hk. unfold step, handler, timeout. rewrite Hk.
  unfold longRunningFunction_resume, longRunningFunction_from,
    postMessage, setTask, ret, total, bind.
  cbn [gameState idleCheckInterval tasks outbox p_time p_i].
  destruct (Z.ltb_spec (i + 1) 100) as [Hlt | Hge];
    cbn [snd gameState idleCheckInterval tasks outbox];
    (split; [reflexivity |]); split; intros H; try lia;
    (split; [reflexivity |]).
  - reflexivity.
  - rewrite <- app_assoc. reflexivity.
Qed.

Lemma timeout_returned (k : nat) (w : World) :
  nth_error (tasks w) k = Some None -> step w (Timer k) = w.
Proof.
  intros Hk. unfold step, handler, timeout. now rewrite Hk.
Qed.

(** A firing of the timeout of slot [k] leaves every other slot alone. *)
Lemma timer_keeps_other_slots (k j : nat) (w : World) :
  j <> k -> nth_error (tasks (step w (Timer k))) j = nth_error (tasks w) j.
Proof.
  intros Hne. unfold step, handler, timeout.
  destruct (nth_error (tasks w) k) as [[p |] |]; try reflexivity.
  unfold longRunningFunction_resume, longRunningFunction_from,
    postMessage, setTask, ret, bind.
  cbn [gameState idleCheckInterval tasks outbox].
  destruct (p_i p + 1 <? total); cbn [snd tasks];
    now apply nth_error_replace_other.
Qed.

(** A message either leaves the coroutines alone or, when it is a Start,
    adds one at the end; what it posts comes after what was posted. *)
Lemma message_tasks_outbox (now : Z) (e_data : WorkerMessage) (w : World) :
  let w' := step w (Message now e_data) in
  (tasks w' = tasks w \/ exists s, tasks w' = tasks w ++ [s])
  /\ exists new, outbox w' = outbox w ++ new.
Proof.
  unfold step, handler, onmessage, try_catch, handleGameStart,
    startIdleCheck, setIdleInterval, longRunningFunction,
    longRunningFunction_from, spawn, handleMovement, canMove, cell,
    modifyState, getState, ret, throw, postMessage, bind.
  cbn -[index isInBounds terrainMap String.eqb].
  assert (Hone : forall (l : list WorkerResponse) a,
             exists new, l ++ [a] = l ++ new) by (intros; eauto).
  assert (Hnone : forall l : list WorkerResponse,
             exists new, l = l ++ new)
    by (intros l; exists []; now rewrite app_nil_r).
  destruct (String.eqb (task e_data) MESSAGE_START);
    [cbn; split; [right; eauto | apply Hone] |].
  destruct (String.eqb (task e_data) MESSAGE_GAME_UPDATE);
    [| cbn; split; [now left | apply Hone]].
  destruct (direction e_data) as [d |];
    [| cbn; split; [now left | apply Hnone]].
  destruct d; cbn -[index isInBounds terrainMap];
    repeat match goal with
           | |- context [index ?a ?i] =>
               destruct (index a i) as [? |];
               cbn -[index isInBounds terrainMap]
           | |- context [isInBounds ?p] =>
               destruct (isInBounds p);
               cbn -[index isInBounds terrainMap]
           | |- context [walkable ?t] =>
               destruct (walkable t); cbn -[index isInBounds terrainMap]
           end;
    (split; [now left | apply Hone]).
Qed.

Lemma interval_outbox (now : Z) (w : World) :
  exists new, outbox (step w (Interval now)) = outbox w ++ new.
Proof.
  unfold step, handler. destruct (idleCheckInterval w).
  - rewrite idleCheck_run. destruct (IdleState_eqb _ _); cbn [outbox].
    + exists []. now rewrite app_nil_r.
    + eauto.
  - exists []. cbn. now rewrite app_nil_r.
Qed.

Lemma timer_outbox (k : nat) (w : World) :
  exists new, outbox (step w (Timer k)) = outbox w ++ new.
Proof.
  unfold step, handler, timeout.
  destruct (nth_error (tasks w) k) as [[p |] |];
    try (exists []; cbn; now rewrite app_nil_r).
  unfold longRunningFunction_resume, longRunningFunction_from,
    postMessage, setTask, ret, bind.
  cbn [gameState idleCheckInterval tasks outbox].
  destruct (p_i p + 1 <? total); cbn [snd outbox]; [eauto |].
  rewrite <- app_assoc. eauto.
Qed.

(** No handler takes an event back: the outbox only grows at its end. *)
Lemma step_outbox (w : World) (ev : Event) :
  outbox (step w ev) = outbox w ++ posted w ev.
Proof.
  assert (H : exists new, outbox (step w ev) = outbox w ++ new).
  { destruct ev as [now e_data | now | k].
    - apply message_tasks_outbox.
    - apply interval_outbox.
    - apply timer_outbox. }
  destruct H as [new H]. unfold posted. rewrite H.
  now rewrite skipn_app, skipn_all, Nat.sub_diag.
Qed.

Lemma run_outbox (evs : list Event) (w : World) :
  outbox (run evs w) = outbox w ++ List.concat (map snd (chunks evs w)).
Proof.
  revert w. induction evs as [| ev evs IH]; intros w.
  - cbn. now rewrite app_nil_r.
  - cbn [run fold_left chunks map snd List.concat].
    change (fold_left step evs ?v) with (run evs v).
    now rewrite IH, step_outbox, <- app_assoc.
Qed.

(** Only the firings of its own timeout touch the slot of a coroutine. *)
Lemma step_keeps_slot (k : nat) (ev : Event) (w : World) s :
  isTimer k ev = false ->
  nth_error (tasks w) k = Some s ->
  nth_error (tasks (step w ev)) k = Some s.
Proof.
  intros Hev Hk. destruct ev as [now e_data | now | j].
  - destruct (message_tasks_outbox now e_data w) as [[H | [s' H]] _];
      rewrite H; [exact Hk |].
    rewrite nth_error_app1 by (eapply nth_error_slot; eauto). exact Hk.
  - destruct (interval_frame now w) as [_ [_ [_ H]]]. now rewrite H.
  - cbn in Hev. apply Nat.eqb_neq in Hev.
    rewrite timer_keeps_other_slots by congruence. exact Hk.
Qed.

Lemma postedBy_cons (k : nat) (ev : Event) (evs : list Event) (w : World) :
  postedBy k (ev :: evs) w =
  (if isTimer k ev then posted w ev else []) ++ postedBy k evs (step w ev).
Proof.
  unfold postedBy. cbn [chunks filter fst].
  destruct (isTimer k ev); reflexivity.
Qed.

Lemma firings_cons (k : nat) (ev : Event) (evs : list Event) :
  firings k (ev :: evs) =
  ((if isTimer k ev then 1 else 0) + firings k evs)%nat.
Proof. unfold firings. cbn [filter]. now destruct (isTimer k ev). Qed.

Lemma isTimer_true (k : nat) (ev : Event) :
  isTimer k ev = true -> ev = Timer k.
Proof.
  destruct ev as [| | j]; cbn; try discriminate.
  intros H. apply Nat.eqb_eq in H. now subst.
Qed.

(** A coroutine that has returned posts nothing more. *)
Lemma postedBy_returned (k : nat) (evs : list Event) (w : World) :
  nth_error (tasks w) k = Some None -> postedBy k evs w = [].
Proof.
  revert w. induction evs as [| ev evs IH]; intros w Hk; [reflexivity |].
  rewrite postedBy_cons. destruct (isTimer k ev) eqn:Hev.
  - apply isTimer_true in Hev. subst ev.
    unfold posted. rewrite (timeout_returned k w Hk), skipn_all.
    now apply IH.
  - cbn [app]. apply IH. now apply step_keeps_slot.
Qed.

(** A coroutine that has posted [i] steps posts the steps that follow, one
    with each firing of its timeout, whatever else the worker handles in
    between, and its Finished event with the firing of step 100. *)
Lemma postedBy_progress (k : nat) (t : float) (evs : list Event) :
  forall (i : nat) (w : World),
  (i < 100)%nat ->
  nth_error (tasks w) k
  = Some (Some {| p_time := t; p_i := Z.of_nat i |}) ->
  postedBy k evs w =
  stepEvents i (Nat.min (firings k evs) (100 - i))
  ++ (if (100 - i <=? firings k evs)%nat then [finished t] else []).
Proof.
  induction evs as [| ev evs IH]; intros i w Hi Hk.
  - unfold postedBy, firings.
    cbn [chunks filter map List.concat List.length].
    rewrite Nat.min_0_l.
    destruct (Nat.leb_spec (100 - i) 0); [lia | reflexivity].
  - rewrite postedBy_cons, firings_cons.
    destruct (isTimer k ev) eqn:Hev.
    + apply isTimer_true in Hev. subst ev.
      destruct (timeout_resume k t (Z.of_nat i) w Hk) as [_ [Hlt Hge]].
      assert (Hslot : (k < List.length (tasks w))%nat)
        by (eapply nth_error_slot; eauto).
      destruct (Nat.eq_dec i 99) as [-> | Hne].
      * destruct (Hge ltac:(lia)) as [Htasks Hout].
        unfold posted. rewrite Hout, skipn_app, skipn_all, Nat.sub_diag.
        rewrite postedBy_returned
          by (rewrite Htasks; now apply nth_error_replace).
        cbn [skipn app].
        replace (Nat.min (1 + firings k evs) (100 - 99)) with 1%nat by lia.
        replace (100 - 99 <=? 1 + firings k evs)%nat with true
          by (symmetry; apply Nat.leb_le; lia).
        reflexivity.
      * destruct (Hlt ltac:(lia)) as [Htasks Hout].
        unfold posted. rewrite Hout, skipn_app, skipn_all, Nat.sub_diag.
        cbn [skipn app].
        rewrite (IH (S i) (step w (Timer k))); [| lia |].
        -- replace (Nat.min (1 + firings k evs) (100 - i))
             with (S (Nat.min (firings k evs) (100 - S i))) by lia.
           replace (100 - i <=? 1 + firings k evs)%nat
             with (100 - S i <=? firings k evs)%nat.
           2:{ destruct (Nat.leb_spec (100 - S i) (firings k evs));
               symmetry; [apply Nat.leb_le | apply Nat.leb_gt]; lia. }
           unfold stepEvents. cbn [seq map app].
           do 2 f_equal. f_equal. lia.
        -- rewrite Htasks, nth_error_replace by exact Hslot.
           do 3 f_equal. lia.
    + cbn [app Nat.add]. apply IH; [exact Hi |].
      now apply step_keeps_slot.
Qed.

(** C6: the progress task that a Start command with step delay [t] begins
    posts, with the firings of its timeout and whatever other messages,
    interval runs and timeouts of other tasks the worker handles in between,
    a Processing event for each step 1, 2, ..., in this order, and with the
    firing of step 100 a single Finished event whose result is [t * 100],
    the product of the two doubles; after that it posts nothing more.  So
    once its timeout has fired a hundred times the task has posted exactly
    the hundred steps and the Finished event.  All of these are in the
    outbox, in the order in which they were posted. *)
Theorem progress_task_events (t : float) (now : Z) (w : World)
    (evs : list Event) :
  let w1 := step w (Message now (START (Some t))) in
  let k := List.length (tasks w) in
  let m := firings k evs in
  let steps := stepEvents 0 100 in
  posted w (Message now (START (Some t)))
  = [{| r_status := Some STATUS_PROCESSING;
        r_message := Some "Game initialized";
        r_gameState :=
          Some (set_lastActivityTime now (gameState w));
        r_terrainMap := Some terrainMap;
        r_step := None; r_total := None; r_result := None |}]
  /\ outbox (run evs w1)
     = outbox w1 ++ List.concat (map snd (chunks evs w1))
  /\ (if (100 <=? m)%nat
      then postedBy k evs w1 = steps ++ [finished t]
      else postedBy k evs w1 = stepEvents 0 m)
  /\ map r_step steps = map (fun i => Some (Z.of_nat i)) (seq 1 100)
  /\ List.length steps = 100%nat
  /\ forallb (fun r => isProcessing r && negb (isFinished r)) steps = true
  /\ isFinished (finished t) && negb (isProcessing (finished t)) = true
  /\ r_result (finished t) = Some (t * 100)%float.
Proof.
  intros w1 k m steps.
  assert (Hw1 : w1 = started now (Some t) w).
  { subst w1. apply (onmessage_start now (START (Some t)) w eq_refl). }
  assert (Hk : nth_error (tasks w1) k
               = Some (Some {| p_time := t; p_i := Z.of_nat 0 |})).
  { rewrite Hw1. subst k. cbn [started tasks START time].
    rewrite nth_error_app2 by lia. now rewrite Nat.sub_diag. }
  split.
  { unfold posted. fold w1. rewrite Hw1. cbn [started outbox].
    now rewrite skipn_app, skipn_all, Nat.sub_diag. }
  split; [apply run_outbox |].
  split.
  { rewrite (postedBy_progress k t evs 0 w1 ltac:(lia) Hk).
    rewrite Nat.sub_0_r. fold m.
    destruct (Nat.leb_spec 100 m).
    - now rewrite Nat.min_r by lia.
    - now rewrite Nat.min_l, app_nil_r by lia. }
  repeat split; reflexivity.
Qed.

(** The text of some doubles. *)
Example numberText_examples :
  map numberText
    [100; 10; 1e21; 1e22; 0.5; -2.5; 0x1p70; 0x1p-20; 0x1p-1074; 1e6;
     123456789; 0; -0; infinity; neg_infinity; nan]%float
  = ["100"; "10"; "1e+21"; "1e+22"; "0.5"; "-2.5";
     "1.1805916207174113e+21"; "9.5367431640625e-7"; "5e-324"; "1000000";
     "123456789"; "0"; "0"; "Infinity"; "-Infinity"; "NaN"].
Proof. vm_compute. reflexivity. Qed.

(** Start with delay 10 ends in a single Finished event with result 1000;
    with the delay [10^21] the result is the double next to [10^23], and the
    text names the delay as [1e+21]. *)
Example start_with_delay_10 :
  let w := run (Message 0 (START (Some 10%float)) :: repeat (Timer 0) 100)
               (initialWorld 0) in
  map r_result (filter isFinished (outbox w)) = [Some 1000%float]
  /\ List.length (filter isProcessing (skipn 1 (outbox w))) = 100%nat
  /\ r_message (finished 10) = Some "Task finished with time = 10"
  /\ Prim2SF (1e21 * 100) = S754_finite false 5960464477539062 24
  /\ (5960464477539062 * 2 ^ 24 = 10 ^ 23 - 8388608)%Z
  /\ r_message (finished 1e21) = Some "Task finished with time = 1e+21".
Proof. repeat split; vm_compute; reflexivity. Qed.

(* ------------------------------------------------------------------ *)
(** ** Clouds *)

Module GameFacts.
Import Game GameProps.
Local Open Scope Q_scope.

Section Browser.
Variable random : nat -> Q.
Variable mod_2pi : Q -> Q.

Lemma createClouds_length (g : Game) (index count n : nat) :
  List.length (fst (createClouds random g index count n)) = count.
Proof.
  revert index n. induction count as [| count IH]; intros index n;
    [reflexivity |].
  cbn [createClouds].
  destruct (createCloud random g index false n) as [c n1].
  specialize (IH (S index) n1).
  destruct (createClouds random g (S index) count n1) as [cs n2].
  simpl in *. now rewrite IH.
Qed.

Lemma initializeClouds_clouds (g : Game) (n : nat) :
  clouds (fst (initializeClouds random g n))
  = fst (createClouds random g 0 CLOUD_COUNT n).
Proof.
  unfold initializeClouds.
  destruct (createClouds random g 0 CLOUD_COUNT n) as [cs n']. reflexivity.
Qed.

Lemma initializeClouds_length (g : Game) (n : nat) :
  List.length (clouds (fst (initializeClouds random g n))) = 8%nat.
Proof.
  rewrite initializeClouds_clouds. apply createClouds_length.
Qed.

Lemma forEachCloud_length (g : Game) (index : nat) (cs : list Cloud)
    (n : nat) :
  List.length (fst (forEachCloud random g index cs n)) = List.length cs.
Proof.
  revert index n. induction cs as [| cloud rest IH]; intros index n;
    [reflexivity |].
  cbn [forEachCloud].
  destruct (Qlt_le_dec _ _).
  - destruct (createCloud random g index true n) as [slot n1].
    specialize (IH (S index) n1).
    destruct (forEachCloud random g (S index) rest n1) as [rest' n2].
    simpl in *. now rewrite IH.
  - specialize (IH (S index) n).
    destruct (forEachCloud random g (S index) rest n) as [rest' n2].
    simpl in *. now rewrite IH.
Qed.

Lemma updateClouds_length (g : Game) (n : nat) :
  List.length (clouds (fst (updateClouds random g n)))
  = List.length (clouds g).
Proof.
  unfold updateClouds.
  destruct (negb (truthy (enableClouds (animationSettings g))));
    [reflexivity |].
  pose proof (forEachCloud_length
                (set_cloudOffset (cloudOffset g + 0.2) g) 0 (clouds g) n) as H.
  cbn [clouds set_cloudOffset] in *.
  destruct (forEachCloud random _ 0 (clouds g) n) as [cs n']. exact H.
Qed.

Lemma update_length (delta : Q) (t : Tick) (g : Game) (n : nat) :
  List.length (clouds (fst (update random mod_2pi delta t g n)))
  = List.length (clouds g).
Proof.
  unfold update.
  set (g1 := if Types.isMoving (state g) then _ else g).
  assert (H1 : clouds g1 = clouds g)
    by (subst g1; destruct (Types.isMoving (state g)); reflexivity).
  destruct (Qlt_le_dec _ _); [| cbn [fst]; now rewrite H1].
  pose proof (updateClouds_length g1 n) as H.
  destruct (updateClouds random g1 n) as [g2 n2]. cbn [fst] in *.
  rewrite <- H1, <- H.
  destruct (truthy (enableWaves (animationSettings g2)));
    destruct (truthy (enableRiver _)); reflexivity.
Qed.

Lemma gameLoop_length (t : Tick) (g : Game) (n : nat) :
  List.length (clouds (fst (fst (gameLoop random mod_2pi t g n))))
  = List.length (clouds g).
Proof.
  unfold gameLoop. destruct (negb (isRunning g)); [reflexivity |].
  pose proof (update_length (timestamp t - lastFrameTime g) t g n) as H.
  destruct (update random mod_2pi _ t g n) as [g1 n1]. cbn [fst] in H.
  destruct (Qle_bool _ _); cbn; exact H.
Qed.

Lemma setAnimationSettings_length (settings : SettingsPatch) (g : Game)
    (n : nat) :
  List.length (clouds g) = 8%nat ->
  List.length (clouds (fst (setAnimationSettings random settings g n)))
  = 8%nat.
Proof.
  intros H. unfold setAnimationSettings.
  destruct (negb (truthy (read (s_enableClouds settings)))).
  - match goal with
    | |- context [initializeClouds random ?g0 n] =>
        pose proof (initializeClouds_length g0 n) as Hi;
        destruct (initializeClouds random g0 n) as [g1 n1]
    end.
    cbn [fst] in *.
    destruct (negb (truthy (read (s_enableWaves settings))));
      destruct (negb (truthy (read (s_enableRiver settings)))); exact Hi.
  - destruct (negb (truthy (read (s_enableWaves settings))));
      destruct (negb (truthy (read (s_enableRiver settings)))); exact H.
Qed.

Lemma onmessage_clouds (e_data : Worker.WorkerResponse) (g : Game) :
  clouds (onmessage e_data g) = clouds g.
Proof.
  unfold onmessage.
  destruct (Worker.r_gameState e_data), (Worker.r_terrainMap e_data),
    (Worker.r_message e_data) as [m |];
    try destruct (String.eqb m ""); reflexivity.
Qed.

Lemma act_length (gn : Game * nat) (a : Action) :
  List.length (clouds (fst gn)) = 8%nat ->
  List.length (clouds (fst (act random mod_2pi gn a))) = 8%nat.
Proof.
  destruct gn as [g n]. cbn [fst]. intros H.
  destruct a as [t | | settings | w h | e_data | t]; cbn [act].
  - now rewrite gameLoop_length.
  - now rewrite updateClouds_length.
  - now apply setAnimationSettings_length.
  - apply initializeClouds_length.
  - cbn [fst]. now rewrite onmessage_clouds.
  - unfold start. cbn [fst]. now rewrite gameLoop_length.
Qed.

Lemma acts_length (l : list Action) (gn : Game * nat) :
  List.length (clouds (fst gn)) = 8%nat ->
  List.length (clouds (fst (acts random mod_2pi l gn))) = 8%nat.
Proof.
  revert gn. induction l as [| a l IH]; intros gn H; [exact H |].
  apply (IH (act random mod_2pi gn a)), act_length, H.
Qed.

End Browser.
End GameFacts.

Module Controller.
Import Game GameProps GameFacts.
Local Open Scope Q_scope.

Section Browser.
Variable random : nat -> Q.
Variable mod_2pi : Q -> Q.
Variable fl : Q -> Q.

(** [Math.random()] answers in [0, 1). *)
Hypothesis random_range : forall n, 0 <= random n < 1.

(** Rounding to the nearest double keeps the order, and it leaves the
    integers up to [2^53], which are doubles, as they are. *)
Hypothesis fl_monotone : forall a b : Q, a <= b -> fl a <= fl b.
Hypothesis fl_integer :
  forall z : Z, (Z.abs z <= 2 ^ 53)%Z -> fl (inject_Z z) == inject_Z z.

Lemma rounded_size_range (r : Q) :
  0 <= r < 1 -> 60 <= fl (60 + fl (r * 100)) <= 160.
Proof.
  intros Hr.
  assert (H0 : fl 0 == 0) by (apply (fl_integer 0); cbn; lia).
  assert (H60 : fl 60 == 60) by (apply (fl_integer 60); cbn; lia).
  assert (H100 : fl 100 == 100) by (apply (fl_integer 100); cbn; lia).
  assert (H160 : fl 160 == 160) by (apply (fl_integer 160); cbn; lia).
  pose proof (fl_monotone 0 (r * 100) ltac:(lra)) as Hlo.
  pose proof (fl_monotone (r * 100) 100 ltac:(lra)) as Hhi.
  pose proof (fl_monotone 60 (60 + fl (r * 100)) ltac:(lra)) as Hlo'.
  pose proof (fl_monotone (60 + fl (r * 100)) 160 ltac:(lra)) as Hhi'.
  lra.
Qed.

(** A cloud forced off-screen: what it is made of, and where it is. *)
Lemma rounded_createCloud_offscreen (g : Game) (index k : nat) :
  let c := fst (Rounded.createCloud fl random g index true k) in
  size c = fl (60 + fl (random k * 100))
  /\ x c = - size c
  /\ y c = fl (random (k + 1) * fl (height g * fl 0.4))
  /\ speed c = fl (fl MIN_CLOUD_SPEED
                   + fl (random (k + 2)
                         * fl (fl MAX_CLOUD_SPEED - fl MIN_CLOUD_SPEED)))
  /\ opacity c = fl (fl 0.4 + fl (random (k + 3) * fl 0.3))
  /\ 60 <= size c <= 160
  /\ x c <= 0
  /\ snd (Rounded.createCloud fl random g index true k) = (k + 4)%nat.
Proof.
  replace (k + 1)%nat with (S k) by lia.
  replace (k + 2)%nat with (S (S k)) by lia.
  replace (k + 3)%nat with (S (S (S k))) by lia.
  replace (k + 4)%nat with (S (S (S (S k)))) by lia.
  cbn [Rounded.createCloud fst snd x y size speed opacity].
  pose proof (rounded_size_range (random k) (random_range k)) as Hs.
  repeat split; try reflexivity; try apply Hs.
  destruct Hs as [Hs _].
  apply Qle_trans with (- (60)); [| discriminate].
  now apply Qopp_le_compat.
Qed.

Lemma rounded_createClouds_length (g : Game) (index count n : nat) :
  List.length (fst (Rounded.createClouds fl random g index count n)) = count.
Proof.
  revert index n. induction count as [| count IH]; intros index n;
    [reflexivity |].
  cbn [Rounded.createClouds].
  destruct (Rounded.createCloud fl random g index false n) as [c n1].
  specialize (IH (S index) n1).
  destruct (Rounded.createClouds fl random g (S index) count n1) as [cs n2].
  cbn [fst List.length] in *. now rewrite IH.
Qed.

Lemma rounded_forEachCloud_length (g : Game) (index : nat) (cs : list Cloud)
    (n : nat) :
  List.length (fst (Rounded.forEachCloud fl random g index cs n))
  = List.length cs.
Proof.
  revert index n. induction cs as [| cloud rest IH]; intros index n;
    [reflexivity |].
  cbn [Rounded.forEachCloud].
  destruct (Qlt_le_dec _ _).
  - destruct (Rounded.createCloud fl random g index true n) as [slot n1].
    specialize (IH (S index) n1).
    destruct (Rounded.forEachCloud fl random g (S index) rest n1)
      as [rest' n2].
    cbn [fst List.length] in *. now rewrite IH.
  - specialize (IH (S index) n).
    destruct (Rounded.forEachCloud fl random g (S index) rest n)
      as [rest' n2].
    cbn [fst List.length] in *. now rewrite IH.
Qed.

Lemma rounded_updateClouds_length (g : Game) (n : nat) :
  List.length (clouds (fst (Rounded.updateClouds fl random g n)))
  = List.length (clouds g).
Proof.
  unfold Rounded.updateClouds.
  destruct (negb (truthy (enableClouds (animationSettings g))));
    [reflexivity |].
  pose proof (rounded_forEachCloud_length
                (set_cloudOffset (fl (cloudOffset g + fl 0.2)) g) 0
                (clouds g) n) as H.
  cbn [clouds set_cloudOffset] in *.
  destruct (Rounded.forEachCloud fl random _ 0 (clouds g) n) as [cs n'].
  exact H.
Qed.

Lemma rounded_updates_length (m : nat) (gn : Game * nat) :
  List.length (clouds (fst (RoundedProps.updates fl random m gn)))
  = List.length (clouds (fst gn)).
Proof.
  revert gn. induction m as [| m IH]; intros gn; [reflexivity |].
  cbn [RoundedProps.updates]. rewrite IH.
  apply rounded_updateClouds_length.
Qed.

Lemma rounded_initializeClouds_length (g : Game) (n : nat) :
  List.length (clouds (fst (Rounded.initializeClouds fl random g n)))
  = 8%nat.
Proof.
  unfold Rounded.initializeClouds.
  pose proof (rounded_createClouds_length g 0 CLOUD_COUNT n) as H.
  destruct (Rounded.createClouds fl random g 0 CLOUD_COUNT n) as [cs n'].
  exact H.
Qed.

Lemma leaves_iff (g : Game) (cloud : Cloud) :
  RoundedProps.leaves fl g cloud = true
  <-> RoundedProps.pastRightEdge fl g (RoundedProps.drifted fl cloud).
Proof.
  unfold RoundedProps.leaves, RoundedProps.pastRightEdge.
  destruct (Qlt_le_dec _ _) as [H | H]; split; intros H'; try easy. lra.
Qed.

Lemma rounded_forEachCloud_cons (g : Game) (index : nat) (cloud : Cloud)
    (rest : list Cloud) (n : nat) :
  Rounded.forEachCloud fl random g index (cloud :: rest) n
  = let '(slot, n1) :=
      if RoundedProps.leaves fl g cloud
      then Rounded.createCloud fl random g index true n
      else (RoundedProps.drifted fl cloud, n) in
    let '(rest', n2) := Rounded.forEachCloud fl random g (S index) rest n1 in
    (slot :: rest', n2).
Proof.
  cbn [Rounded.forEachCloud].
  unfold RoundedProps.leaves, RoundedProps.drifted.
  destruct (Qlt_le_dec _ _); reflexivity.
Qed.

Lemma drawsBefore_cons (g : Game) (cloud : Cloud) (rest : list Cloud)
    (i : nat) :
  RoundedProps.drawsBefore fl g (cloud :: rest) (S i)
  = ((if RoundedProps.leaves fl g cloud then 4 else 0)
     + RoundedProps.drawsBefore fl g rest i)%nat.
Proof.
  unfold RoundedProps.drawsBefore. cbn [firstn filter].
  destruct (RoundedProps.leaves fl g cloud); cbn [List.length]; lia.
Qed.

(** What [forEach] leaves in slot [i], and how many numbers it draws. *)
Lemma rounded_forEachCloud_slot (g : Game) (cs : list Cloud) :
  forall (index n : nat),
    snd (Rounded.forEachCloud fl random g index cs n)
    = (n + 4 * List.length (filter (RoundedProps.leaves fl g) cs))%nat
    /\ forall (i : nat) (old : Cloud),
         nth_error cs i = Some old ->
         nth_error (fst (Rounded.forEachCloud fl random g index cs n)) i
         = Some (if RoundedProps.leaves fl g old
                 then fst (Rounded.createCloud fl random g (index + i) true
                             (n + RoundedProps.drawsBefore fl g cs i))
                 else RoundedProps.drifted fl old).
Proof.
  induction cs as [| cloud rest IH]; intros index n.
  - split; [cbn; lia |]. intros i old Hi. destruct i; discriminate Hi.
  - rewrite rounded_forEachCloud_cons. cbn [filter].
    assert (Hn1 : snd (Rounded.createCloud fl random g index true n)
                  = (n + 4)%nat)
      by apply (rounded_createCloud_offscreen g index n).
    destruct (RoundedProps.leaves fl g cloud) eqn:Hl.
    + destruct (Rounded.createCloud fl random g index true n)
        as [slot n1] eqn:Hslot.
      cbn [snd] in Hn1. subst n1.
      destruct (IH (S index) (n + 4)%nat) as [Hdraws Hnth].
      destruct (Rounded.forEachCloud fl random g (S index) rest (n + 4))
        as [rest' n2].
      cbn [fst snd] in *. split; [cbn [List.length]; lia |].
      intros i old Hi. destruct i as [| i].
      * injection Hi as <-. cbn [nth_error]. rewrite Hl.
        unfold RoundedProps.drawsBefore. cbn [firstn filter List.length].
        now rewrite Nat.add_0_r, Nat.add_0_r, Hslot.
      * cbn [nth_error] in *. rewrite (Hnth i old Hi).
        rewrite drawsBefore_cons, Hl.
        replace (S index + i)%nat with (index + S i)%nat by lia.
        now rewrite Nat.add_assoc.
    + destruct (IH (S index) n) as [Hdraws Hnth].
      destruct (Rounded.forEachCloud fl random g (S index) rest n)
        as [rest' n2].
      cbn [fst snd] in *. split; [exact Hdraws |].
      intros i old Hi. destruct i as [| i].
      * injection Hi as <-. cbn [nth_error]. now rewrite Hl.
      * cbn [nth_error] in *. rewrite (Hnth i old Hi).
        rewrite drawsBefore_cons, Hl.
        replace (S index + i)%nat with (index + S i)%nat by lia.
        reflexivity.
Qed.

(** With no rounding the cloud methods in double arithmetic are the
    methods of [Game]. *)
Lemma rounded_exact_createCloud (g : Game) (index : nat)
    (forceOffscreen : bool) (n : nat) :
  Rounded.createCloud (fun q => q) random g index forceOffscreen n
  = createCloud random g index forceOffscreen n.
Proof. reflexivity. Qed.

Lemma rounded_exact_createClouds (g : Game) (index count n : nat) :
  Rounded.createClouds (fun q => q) random g index count n
  = createClouds random g index count n.
Proof.
  revert index n. induction count as [| count IH]; intros index n;
    [reflexivity |].
  cbn [Rounded.createClouds createClouds].
  rewrite rounded_exact_createCloud.
  destruct (createCloud random g index false n) as [c n1].
  now rewrite IH.
Qed.

Lemma rounded_exact_initializeClouds (g : Game) (n : nat) :
  Rounded.initializeClouds (fun q => q) random g n
  = initializeClouds random g n.
Proof.
  unfold Rounded.initializeClouds, initializeClouds.
  now rewrite rounded_exact_createClouds.
Qed.

Lemma rounded_exact_updateClouds (g : Game) (n : nat) :
  Rounded.updateClouds (fun q => q) random g n = updateClouds random g n.
Proof.
  unfold Rounded.updateClouds, updateClouds.
  destruct (negb (truthy (enableClouds (animationSettings g))));
    [reflexivity |].
  generalize (set_cloudOffset (cloudOffset g + 0.2) g). intros g'.
  assert (H : forall cs index k,
             Rounded.forEachCloud (fun q => q) random g' index cs k
             = forEachCloud random g' index cs k).
  { induction cs as [| cloud rest IH]; intros index k; [reflexivity |].
    cbn [Rounded.forEachCloud forEachCloud].
    destruct (Qlt_le_dec _ _).
    - rewrite rounded_exact_createCloud.
      destruct (createCloud random g' index true k) as [slot k1].
      now rewrite IH.
    - now rewrite IH. }
  now rewrite H.
Qed.

(** C8: a controller holds exactly 8 clouds once constructed, and still
    does after any sequence of frame-loop turns, cloud updates, settings
    changes, resizes and received events; in the code's double arithmetic,
    too, [initializeClouds] leaves 8 clouds and any number of cloud updates
    keeps them 8.  In a cloud update with clouds enabled, a cloud that has
    drifted past the right edge of the canvas is replaced, in its own slot,
    by the cloud that [createCloud] makes forced off-screen from four random
    numbers which no call has drawn before and no other slot draws (the
    update draws four for each cloud that leaves, in the order of the
    slots): its size is [60 + random * 100] of the first, between 60 and
    160; its x is minus its size, so at most 0; its y is the second number
    times [height * 0.4]; its speed and its opacity come from the third and
    the fourth.  Any other cloud just keeps its drift, and the update draws
    no number for it.  The methods of [Game] in exact arithmetic, of which
    the first part speaks, are these methods with no rounding. *)
Theorem cloud_count_and_recycling :
  (forall (config : GameConfig) (now : Z) (n : nat) (l : list Action),
     List.length
       (clouds (fst (acts random mod_2pi l (constructor random config now n))))
     = 8%nat)
  /\ (forall (g : Game) (n m : nat),
        List.length
          (clouds (fst (RoundedProps.updates fl random m
                          (Rounded.initializeClouds fl random g n))))
        = 8%nat)
  /\ (forall (g : Game) (n : nat),
        truthy (enableClouds (animationSettings g)) = true ->
        snd (Rounded.updateClouds fl random g n)
        = (n + 4 * List.length
                 (filter (RoundedProps.leaves fl g) (clouds g)))%nat)
  /\ (forall (g : Game) (n i : nat) (old : Cloud),
        truthy (enableClouds (animationSettings g)) = true ->
        nth_error (clouds g) i = Some old ->
        let k := (n + RoundedProps.drawsBefore fl g (clouds g) i)%nat in
        exists new,
          nth_error (clouds (fst (Rounded.updateClouds fl random g n))) i
          = Some new
          /\ (RoundedProps.pastRightEdge fl g (RoundedProps.drifted fl old) ->
              new = fst (Rounded.createCloud fl random g i true k)
              /\ size new = fl (60 + fl (random k * 100))
              /\ x new = - size new
              /\ y new = fl (random (k + 1) * fl (height g * fl 0.4))
              /\ speed new
                 = fl (fl MIN_CLOUD_SPEED
                       + fl (random (k + 2)
                             * fl (fl MAX_CLOUD_SPEED - fl MIN_CLOUD_SPEED)))
              /\ opacity new = fl (fl 0.4 + fl (random (k + 3) * fl 0.3))
              /\ 60 <= size new <= 160
              /\ x new <= 0
              /\ RoundedProps.drawsBefore fl g (clouds g) (S i)
                 = (RoundedProps.drawsBefore fl g (clouds g) i + 4)%nat)
          /\ (~ RoundedProps.pastRightEdge fl g (RoundedProps.drifted fl old) ->
              new = RoundedProps.drifted fl old
              /\ RoundedProps.drawsBefore fl g (clouds g) (S i)
                 = RoundedProps.drawsBefore fl g (clouds g) i))
  /\ (forall (g : Game) (n : nat),
        Rounded.initializeClouds (fun q => q) random g n
        = initializeClouds random g n
        /\ Rounded.updateClouds (fun q => q) random g n
           = updateClouds random g n).
Proof.
  split; [| split; [| split; [| split]]].
  5:{ intros g n. split;
        [apply rounded_exact_initializeClouds
        | apply rounded_exact_updateClouds]. }
  - intros config now n l. apply acts_length.
    unfold constructor. apply initializeClouds_length.
  - intros g n m. rewrite rounded_updates_length.
    apply rounded_initializeClouds_length.
  - intros g n Hon. unfold Rounded.updateClouds. rewrite Hon. cbn [negb].
    destruct (rounded_forEachCloud_slot
                (set_cloudOffset (fl (cloudOffset g + fl 0.2)) g)
                (clouds g) 0 n) as [Hdraws _].
    cbn [clouds set_cloudOffset] in *.
    destruct (Rounded.forEachCloud fl random _ 0 (clouds g) n) as [cs n'].
    exact Hdraws.
  - intros g n i old Hon Hi k.
    assert (Hsplit : firstn (S i) (clouds g) = firstn i (clouds g) ++ [old]).
    { clear - Hi. revert i Hi.
      induction (clouds g) as [| c cs IH]; intros i Hi;
        [destruct i; discriminate |].
      destruct i as [| i]; cbn in *; [now injection Hi as -> |].
      now rewrite <- (IH i Hi). }
    assert (Hnext : RoundedProps.drawsBefore fl g (clouds g) (S i)
                    = (RoundedProps.drawsBefore fl g (clouds g) i
                       + if RoundedProps.leaves fl g old then 4 else 0)%nat).
    { unfold RoundedProps.drawsBefore.
      rewrite Hsplit, filter_app, length_app. cbn [filter].
      destruct (RoundedProps.leaves fl g old); cbn [List.length]; lia. }
    unfold Rounded.updateClouds. rewrite Hon. cbn [negb].
    destruct (rounded_forEachCloud_slot
                (set_cloudOffset (fl (cloudOffset g + fl 0.2)) g)
                (clouds g) 0 n) as [_ Hnth].
    specialize (Hnth i old Hi).
    cbn [clouds set_cloudOffset] in *.
    destruct (Rounded.forEachCloud fl random _ 0 (clouds g) n) as [cs n'].
    cbn [fst clouds set_clouds] in *.
    change (RoundedProps.leaves fl
              (set_cloudOffset (fl (cloudOffset g + fl 0.2)) g) old)
      with (RoundedProps.leaves fl g old) in Hnth.
    change (RoundedProps.drawsBefore fl
              (set_cloudOffset (fl (cloudOffset g + fl 0.2)) g) (clouds g) i)
      with (RoundedProps.drawsBefore fl g (clouds g) i) in Hnth.
    fold k in Hnth.
    pose proof (leaves_iff g old) as Hiff.
    destruct (RoundedProps.leaves fl g old).
    + eexists. split; [exact Hnth |].
      split; [| intros Hn; exfalso; apply Hn; now apply Hiff].
      intros _.
      pose proof (rounded_createCloud_offscreen
                    (set_cloudOffset (fl (cloudOffset g + fl 0.2)) g) i k)
        as Hc.
      cbn zeta in Hc.
      destruct Hc as [H1 [H2 [H3 [H4 [H5 [H6 [H7 _]]]]]]].
      split; [reflexivity |].
      repeat split; try assumption; apply H6.
    + eexists. split; [exact Hnth |].
      split; [intros Hp; apply Hiff in Hp; discriminate |].
      intros _. split; [reflexivity |]. now rewrite Hnext, Nat.add_0_r.
Qed.

End Browser.

Lemma cloud_count_and_recycling_witness :
  let random := fun _ : nat => 1 # 2 in
  let mod_2pi := fun v : Q => v in
  let fl := fun q : Q => q in
  let config := {| canvas_width := 100; canvas_height := 60;
                   c_theme := None; fps := None |} in
  let on := {| s_enableClouds := Some (Some true);
               s_enableWaves := None; s_enableRiver := None |} in
  let late := {| x := 300; y := 5; speed := 1 # 10; size := 110;
                 opacity := 1 # 2 |} in
  let g :=
    set_clouds [late]
      (fst (setAnimationSettings random on
              (fst (constructor random config 0 0)) 0)) in
  (forall n, 0 <= random n < 1)
  /\ (forall a b : Q, a <= b -> fl a <= fl b)
  /\ (forall z : Z, (Z.abs z <= 2 ^ 53)%Z -> fl (inject_Z z) == inject_Z z)
  /\ List.length
       (clouds (fst (acts random mod_2pi [Settings on; CloudTick; CloudTick]
                       (constructor random config 0 0))))
     = 8%nat
  /\ exists new,
       nth_error (clouds (fst (Rounded.updateClouds fl random g 0))) 0
       = Some new
       /\ size new = fl (60 + fl (random 0%nat * 100))
       /\ x new <= 0.
Proof.
  intros random mod_2pi fl config on late g.
  assert (Hr : forall n, 0 <= random n < 1)
    by (intros n; split; unfold random; [discriminate | reflexivity]).
  assert (Hm : forall a b : Q, a <= b -> fl a <= fl b)
    by (intros a b H; exact H).
  assert (Hz : forall z : Z,
             (Z.abs z <= 2 ^ 53)%Z -> fl (inject_Z z) == inject_Z z)
    by (intros z _; reflexivity).
  destruct (cloud_count_and_recycling random mod_2pi fl Hr Hm Hz)
    as [Hcount [_ [_ [Hslot _]]]].
  split; [exact Hr |]. split; [exact Hm |]. split; [exact Hz |].
  split.
  - apply (Hcount config 0%Z 0%nat [Settings on; CloudTick; CloudTick]).
  - assert (H1 : truthy (enableClouds (animationSettings g)) = true)
      by (vm_compute; reflexivity).
    pose proof (Hslot g 0%nat 0%nat late H1 eq_refl) as H.
    cbv zeta in H. destruct H as [new [Hnew [Hpast _]]].
    assert (Hp : RoundedProps.pastRightEdge fl g
                   (RoundedProps.drifted fl late))
      by (vm_compute; reflexivity).
    destruct (Hpast Hp) as [_ [Hsize [_ [_ [_ [_ [_ [Hx _]]]]]]]].
    exists new. split; [exact Hnew |]. split; [exact Hsize | exact Hx].
Defined.

(* ------------------------------------------------------------------ *)
(** ** Animation settings *)

Lemma initializeClouds_frame (random : nat -> Q) (g : Game) (n : nat) :
  fst (initializeClouds random g n)
  = set_clouds (fst (createClouds random g 0 CLOUD_COUNT n)) g.
Proof.
  unfold initializeClouds.
  destruct (createClouds random g 0 CLOUD_COUNT n) as [cs n']. reflexivity.
Qed.

(** C10: [setAnimationSettings s] merges [s] over the animation settings;
    it sets the wave phase to 0 when [s.enableWaves] is absent, undefined or
    false, and the river phase to 0 when [s.enableRiver] is; when
    [s.enableClouds] is absent, undefined or false it sets the cloud offset to
    0 and replaces the clouds by 8 newly created ones.  Only the argument
    decides this, not the merged settings.  A key that is true leaves its
    phase, or the cloud offset and the clouds, as they were, and every other
    field of the controller keeps its value. *)
Theorem setAnimationSettings_resets (random : nat -> Q)
    (settings : SettingsPatch) (g : Game) (n : nat) :
  let g' := fst (setAnimationSettings random settings g n) in
  let unset (k : option (option bool)) := truthy (read k) = false in
  let set (k : option (option bool)) := truthy (read k) = true in
  (unset (s_enableWaves settings) -> waterOffset g' = 0)
  /\ (set (s_enableWaves settings) -> waterOffset g' = waterOffset g)
  /\ (unset (s_enableRiver settings) -> riverOffset g' = 0)
  /\ (set (s_enableRiver settings) -> riverOffset g' = riverOffset g)
  /\ (unset (s_enableClouds settings) ->
      cloudOffset g' = 0
      /\ clouds g' = fst (createClouds random g 0 8 n)
      /\ List.length (clouds g') = 8%nat)
  /\ (set (s_enableClouds settings) ->
      cloudOffset g' = cloudOffset g /\ clouds g' = clouds g)
  /\ animationSettings g' =
     {| enableClouds :=
          spread (enableClouds (animationSettings g)) (s_enableClouds settings);
        enableWaves :=
          spread (enableWaves (animationSettings g)) (s_enableWaves settings);
        enableRiver :=
          spread (enableRiver (animationSettings g)) (s_enableRiver settings) |}
  /\ width g' = width g
  /\ height g' = height g
  /\ animationFrame g' = animationFrame g
  /\ lastFrameTime g' = lastFrameTime g
  /\ frameThrottle g' = frameThrottle g
  /\ movementCooldown g' = movementCooldown g
  /\ state g' = state g
  /\ isRunning g' = isRunning g
  /\ currentTerrain g' = currentTerrain g
  /\ terrainMap g' = terrainMap g
  /\ lastAnimationUpdate g' = lastAnimationUpdate g.
Proof.
  intros g' unset set. subst g' unset set. unfold setAnimationSettings.
  destruct (truthy (read (s_enableClouds settings))) eqn:Hc;
    destruct (truthy (read (s_enableWaves settings))) eqn:Hw;
    destruct (truthy (read (s_enableRiver settings))) eqn:Hr;
    cbn [negb];
    try match goal with
        | |- context [initializeClouds random ?g0 n] =>
            pose proof (initializeClouds_frame random g0 n) as Hi;
            pose proof (createClouds_length random g0 0 CLOUD_COUNT n) as Hl;
            destruct (initializeClouds random g0 n) as [g1 n1];
            cbn [fst] in Hi; subst g1
        end;
    repeat split; intros; try discriminate; try reflexivity; exact Hl.
Qed.

Lemma setAnimationSettings_resets_witness :
  let random := fun _ : nat => 1 # 2 in
  let g := fst (constructor random
                  {| canvas_width := 100; canvas_height := 60;
                     c_theme := None; fps := None |} 0 0) in
  let waving :=
    set_waterOffset 3
      (set_animationSettings
         {| enableClouds := Some false; enableWaves := Some true;
            enableRiver := Some false |} g) in
  let patch := {| s_enableClouds := Some (Some true);
                  s_enableWaves := None; s_enableRiver := None |} in
  let g' := fst (setAnimationSettings random patch waving 0) in
  enableWaves (animationSettings g') = Some true
  /\ waterOffset waving = 3
  /\ waterOffset g' = 0
  /\ clouds g' = clouds waving.
Proof.
  intros random g waving patch g'.
  destruct (setAnimationSettings_resets random patch waving 0)
    as [Hwaves [_ [_ [_ [_ [Hclouds [Hmerged _]]]]]]].
  split; [exact (f_equal enableWaves Hmerged) |].
  split; [reflexivity |].
  split; [apply Hwaves; reflexivity |].
  apply Hclouds. reflexivity.
Defined.

(* ------------------------------------------------------------------ *)
(** ** Frame throttle *)

(** The frame loop draws exactly when the time since the last draw has
    reached [frameThrottle], a field that only the constructor writes. *)
Lemma gameLoop_draws_iff (random : nat -> Q) (mod_2pi : Q -> Q) (t : Tick)
    (g : Game) (n : nat) :
  isRunning g = true ->
  (snd (gameLoop random mod_2pi t g n) <> None
   <-> frameThrottle g <= timestamp t - lastFrameTime g)
  /\ frameThrottle (fst (fst (gameLoop random mod_2pi t g n)))
     = frameThrottle g.
Proof.
  intros Hrun. unfold gameLoop. rewrite Hrun. cbn [negb].
  assert (Hu : frameThrottle
                 (fst (update random mod_2pi
                         (timestamp t - lastFrameTime g) t g n))
               = frameThrottle g).
  { unfold update, updateClouds.
    destruct (Types.isMoving (state g)); cbn [lastAnimationUpdate set_state];
      destruct (Qlt_le_dec _ _); try reflexivity;
      cbn [animationSettings set_state];
      destruct (negb (truthy (enableClouds (animationSettings g))));
      try (cbn [clouds set_cloudOffset set_state];
           destruct (forEachCloud random _ 0 (clouds g) n));
      cbn [animationSettings set_clouds set_cloudOffset set_state];
      destruct (truthy (enableWaves (animationSettings g)));
      cbn [animationSettings set_waterOffset set_clouds set_cloudOffset
           set_state];
      destruct (truthy (enableRiver (animationSettings g))); reflexivity. }
  destruct (update random mod_2pi _ t g n) as [g1 n1]. cbn [fst] in Hu.
  rewrite Hu.
  destruct (Qle_bool (frameThrottle g) (timestamp t - lastFrameTime g)) eqn:E;
    cbn [fst snd frameThrottle set_animationFrame set_lastFrameTime].
  - apply Qle_bool_iff in E. split; [| exact Hu].
    split; [intros _; exact E | intros _; discriminate].
  - split; [| exact Hu]. split; [intros H; now elim H |].
    intros H. apply Qle_bool_iff in H. congruence.
Qed.

(** C7 at the failing input: a controller built without [fps] is started
    and draws at 30000 ms; it then receives the event the worker posts when
    its idle interval finds 30000 ms without activity, whose snapshot has the
    idle state Sleeping; the next turn of the frame loop, 40 ms after the
    draw, draws again, although the specified interval for Sleeping is
    1000/5 = 200 ms: the throttle is the constructor's 1000/30 whatever the
    idle state, and [getFrameThrottleForState] is never called. *)
Theorem frame_throttle_ignores_idle_state (random : nat -> Q)
    (mod_2pi : Q -> Q) :
  let config := {| canvas_width := 800; canvas_height := 600;
                   c_theme := None; fps := None |} in
  let sleeping :=
    last (Worker.outbox
            (Worker.run [Worker.Message 0 (Worker.START None);
                         Worker.Interval 30000]
                        (Worker.initialWorld 0)))
         (Props.errorEvent "") in
  let at_ ms := {| timestamp := ms; performance_now := ms;
                   Date_now := 30000; requestId := 1 |} in
  let '(g1, n1) := acts random mod_2pi
                     [Started (at_ 5); Frame (at_ 30000); Received sleeping]
                     (constructor random config 0 0) in
  let '(g2, _, frame) := gameLoop random mod_2pi (at_ 30040) g1 n1 in
  Types.idleState (state g1) = SLEEPING
  /\ lastFrameTime g1 == 30000
  /\ frameThrottle g1 == 1000 / 30
  /\ frame <> None
  /\ lastFrameTime g2 == 30040
  /\ ~ getFrameThrottleForState (Types.idleState (state g1))
       <= 30040 - lastFrameTime g1.
Proof.
  vm_compute.
  repeat split; try discriminate; try (intros H; apply H; reflexivity).
Qed.

End Controller.

(* ------------------------------------------------------------------ *)
(** ** More on the engine *)

Module Engine.
Import EngineProps.

(** What a turn of the event loop does to the player's cell: nothing, or an
    accepted move to a walkable neighbour, with both terrain fields set to
    that cell's terrain. *)
Lemma step_cell (w : World) (ev : Event) :
  isInBounds (position (gameState w)) = true ->
  let g := gameState w in
  let g' := gameState (step w ev) in
  (position g' = position g /\ terrain g' = terrain g
   /\ currentTerrain g' = currentTerrain g)
  \/ (walkableAt (position g') = true
      /\ terrain g' = terrainAt (position g')
      /\ currentTerrain g' = terrainAt (position g')).
Proof.
  intros Hb g g'. subst g g'.
  destruct ev as [now e_data | now | k].
  - destruct (String.eqb_spec (task e_data) MESSAGE_START) as [Hs | Hs].
    { left. now rewrite (onmessage_start now e_data w Hs). }
    destruct (String.eqb_spec (task e_data) MESSAGE_GAME_UPDATE) as [Hg | Hg].
    2: { left. now rewrite (onmessage_unknown now e_data w Hs Hg). }
    destruct (direction e_data) as [d |] eqn:Hdir.
    2: { left. now rewrite (onmessage_no_direction now e_data w Hg Hdir). }
    destruct (movement d) eqn:Hd.
    2: { left.
         now rewrite (onmessage_invalid_direction now e_data d w Hg Hdir Hd). }
    rewrite (onmessage_move now e_data d w Hg Hdir Hd Hb).
    unfold moved. cbn [touched gameState set_lastActivityTime position].
    destruct (walkableAt (plus _ _)) eqn:Ht.
    + right. cbn. auto.
    + left. cbn. auto.
  - left. unfold step, handler. destruct (idleCheckInterval w).
    + rewrite idleCheck_run. destruct (IdleState_eqb _ _); cbn; auto.
    + cbn. auto.
  - left. destruct (timeout_gameState k w) as [Hg _]. rewrite Hg. auto.
Qed.

(** X1: whatever the worker has run since it was loaded, the two terrain
    fields of its state hold the grid value of the cell the player stands
    on, and that terrain is walkable (never Water or Mountain). *)
Theorem terrain_tracks_position (t0 : Z) (evs : list Event) :
  let g := gameState (run evs (initialWorld t0)) in
  currentTerrain g = terrainAt (position g)
  /\ terrain g = terrainAt (position g)
  /\ exists t, terrainAt (position g) = Some t
               /\ walkable (terrainProperties t) = true
               /\ t <> WATER /\ t <> MOUNTAIN.
Proof.
  cbv zeta.
  assert (Hinv : forall w,
            walkableAt (position (gameState w)) = true ->
            currentTerrain (gameState w) = terrainAt (position (gameState w)) ->
            terrain (gameState w) = terrainAt (position (gameState w)) ->
            walkableAt (position (gameState (run evs w))) = true
            /\ currentTerrain (gameState (run evs w))
               = terrainAt (position (gameState (run evs w)))
            /\ terrain (gameState (run evs w))
               = terrainAt (position (gameState (run evs w)))).
  { induction evs as [| ev evs IH]; intros w Hw Hc Ht; [auto |].
    cbn [run fold_left]. change (fold_left step evs ?v) with (run evs v).
    pose proof (step_cell w ev (walkableAt_in_bounds _ Hw)) as Hstep.
    cbv zeta in Hstep.
    destruct Hstep as [[Hp [Ht' Hc']] | [Hw' [Ht' Hc']]].
    - apply IH; rewrite ?Hp, ?Ht', ?Hc'; assumption.
    - apply IH; assumption. }
  destruct (Hinv (initialWorld t0) eq_refl eq_refl eq_refl) as [Hw [Hc Ht]].
  split; [exact Hc |]. split; [exact Ht |].
  apply walkableAt_iff in Hw. destruct Hw as [_ [t [Hat Hwalk]]].
  exists t. repeat split; try assumption; intros ->; discriminate Hwalk.
Qed.

Lemma opposite_undoes (p : Position) (d : Direction) :
  movement d = true ->
  movement (opposite d) = true
  /\ plus (plus p (unitVector d)) (unitVector (opposite d)) = p.
Proof.
  intros Hd. destruct p as [px py].
  destruct d; try discriminate Hd; split; try reflexivity;
    unfold plus, unitVector, opposite; cbn [x y]; f_equal; lia.
Qed.

(** X2: from a walkable cell, an accepted move followed by a move in the
    opposite direction brings the player back: the second move is accepted
    too, position and terrain are those before the first, and both events
    have the Processing status. *)
Theorem move_and_back (n1 n2 : Z) (d : Direction) (w : World) :
  movement d = true ->
  walkableAt (position (gameState w)) = true ->
  walkableAt (plus (position (gameState w)) (unitVector d)) = true ->
  let p := position (gameState w) in
  let w1 := step w (Message n1 (GAME_UPDATE d)) in
  let w2 := step w1 (Message n2 (GAME_UPDATE (opposite d))) in
  position (gameState w1) = plus p (unitVector d)
  /\ position (gameState w2) = p
  /\ currentTerrain (gameState w2) = terrainAt p
  /\ exists ev1 ev2,
       outbox w2 = outbox w ++ [ev1; ev2]
       /\ r_status ev1 = Some STATUS_PROCESSING
       /\ r_status ev2 = Some STATUS_PROCESSING.
Proof.
  intros Hd Hp Ht p w1 w2. fold p in Hp, Ht.
  destruct (opposite_undoes p d Hd) as [Hd' Hback].
  assert (E1 : w1 = moved n1 d (touched n1 w)).
  { apply (onmessage_move n1 (GAME_UPDATE d) d w eq_refl eq_refl Hd).
    now apply walkableAt_in_bounds. }
  assert (P1 : position (gameState w1) = plus p (unitVector d)).
  { rewrite E1, moved_position.
    cbn [touched gameState set_lastActivityTime position].
    fold p. now rewrite Ht. }
  assert (E2 : w2 = moved n2 (opposite d) (touched n2 w1)).
  { apply (onmessage_move n2 (GAME_UPDATE (opposite d)) (opposite d) w1
             eq_refl eq_refl Hd').
    rewrite P1. now apply walkableAt_in_bounds. }
  assert (Hw2 : walkableAt
                  (plus (position (gameState (touched n2 w1)))
                        (unitVector (opposite d))) = true).
  { cbn [touched gameState set_lastActivityTime position].
    rewrite P1, Hback. exact Hp. }
  split; [exact P1 |].
  assert (P2 : position (gameState w2) = p).
  { rewrite E2, moved_position, Hw2.
    cbn [touched gameState set_lastActivityTime position].
    now rewrite P1, Hback. }
  split; [exact P2 |]. split.
  - rewrite E2. unfold moved. rewrite Hw2.
    cbn [touched gameState set_lastActivityTime position currentTerrain
         set_message set_terrain set_currentTerrain].
    now rewrite P1, Hback.
  - rewrite E2. unfold moved at 1. rewrite Hw2.
    cbn [outbox touched]. rewrite E1. unfold moved at 1.
    cbn [touched gameState set_lastActivityTime position].
    fold p. rewrite Ht. cbn [outbox].
    eexists. eexists. rewrite <- app_assoc. cbn [app].
    split; [reflexivity |]. split; reflexivity.
Qed.

Lemma move_and_back_witness :
  let w := initialWorld 0 in
  let w2 := run [Message 1 (GAME_UPDATE right); Message 2 (GAME_UPDATE left)]
                w in
  position (gameState w2) = {| x := 2; y := 2 |}
  /\ currentTerrain (gameState w2) = Some GRASSLAND.
Proof.
  destruct (move_and_back 1 2 right (initialWorld 0) eq_refl eq_refl eq_refl)
    as [_ [Hp [Hc _]]].
  split; [exact Hp | exact Hc].
Defined.

(** X3: from a cell of the map, every message is answered by exactly one
    event, except a GAME_UPDATE without a direction, which is answered by
    none. *)
Theorem one_event_per_message (now : Z) (e_data : WorkerMessage) (w : World) :
  isInBounds (position (gameState w)) = true ->
  exists evs,
    outbox (step w (Message now e_data)) = outbox w ++ evs
    /\ List.length evs = if withoutDirection e_data then 0%nat else 1%nat.
Proof.
  intros Hb. unfold withoutDirection.
  destruct (String.eqb_spec (task e_data) MESSAGE_START) as [Hs | Hs].
  { rewrite (onmessage_start now e_data w Hs), Hs.
    eexists. split; reflexivity. }
  destruct (String.eqb_spec (task e_data) MESSAGE_GAME_UPDATE) as [Hg | Hg].
  2: { rewrite (onmessage_unknown now e_data w Hs Hg).
       eexists. split; reflexivity. }
  destruct (direction e_data) as [d |] eqn:Hdir.
  2: { rewrite (onmessage_no_direction now e_data w Hg Hdir).
       exists []. now rewrite app_nil_r. }
  destruct (movement d) eqn:Hd.
  2: { rewrite (onmessage_invalid_direction now e_data d w Hg Hdir Hd).
       eexists. split; reflexivity. }
  rewrite (onmessage_move now e_data d w Hg Hdir Hd Hb).
  unfold moved. destruct (walkableAt _); eexists; split; reflexivity.
Qed.

Lemma one_event_per_message_witness :
  exists evs,
    outbox (step (initialWorld 0)
                 (Message 1 {| task := "GAME_UPDATE"; direction := None;
                               time := None |}))
    = outbox (initialWorld 0) ++ evs
    /\ List.length evs = 0%nat.
Proof.
  exact (one_event_per_message 1
           {| task := "GAME_UPDATE"; direction := None; time := None |}
           (initialWorld 0) eq_refl).
Defined.

(** X4: a GAME_UPDATE whose direction is back or front is refused with one
    Error event that reads Invalid direction: followed by the direction and
    carries no snapshot; the position is kept, but the writes made before
    the direction is looked at stay: facing is the refused direction and the
    idle state is Active. *)
Theorem invalid_direction_still_turns_the_player (now : Z)
    (e_data : WorkerMessage) (d : Direction) (w : World) :
  task e_data = MESSAGE_GAME_UPDATE ->
  direction e_data = Some d ->
  movement d = false ->
  let w' := step w (Message now e_data) in
  outbox w' =
    outbox w ++ [errorEvent ("Invalid direction: "
                             ++ Direction_toString d)%string]
  /\ r_gameState (errorEvent ("Invalid direction: "
                              ++ Direction_toString d)%string) = None
  /\ position (gameState w') = position (gameState w)
  /\ currentTerrain (gameState w') = currentTerrain (gameState w)
  /\ message (gameState w') = message (gameState w)
  /\ facing (gameState w') = d
  /\ idleState (gameState w') = ACTIVE
  /\ lastActivityTime (gameState w') = now.
Proof.
  intros Ht Hdir Hd w'. subst w'.
  rewrite (onmessage_invalid_direction now e_data d w Ht Hdir Hd).
  repeat split.
Qed.

Lemma invalid_direction_still_turns_the_player_witness :
  let w' := step (initialWorld 0) (Message 7 (GAME_UPDATE back)) in
  map r_message (outbox w') = [Some "Invalid direction: back"]
  /\ facing (gameState w') = back
  /\ position (gameState w') = {| x := 2; y := 2 |}.
Proof.
  destruct (invalid_direction_still_turns_the_player 7 (GAME_UPDATE back)
              back (initialWorld 0) eq_refl eq_refl eq_refl)
    as [Hout [_ [Hp [_ [_ [Hf _]]]]]].
  split; [now rewrite Hout |]. split; [exact Hf | exact Hp].
Defined.

(** X5: a run of the idle interval posts an event exactly when the idle
    state it computes differs from the current one: if the state stays, the
    whole store is as before; if it changes, one Processing event is posted
    that names the new state and carries the new snapshot.  Running the
    interval again at the same clock value does nothing. *)
Theorem interval_posts_only_changes (now : Z) (w : World) :
  idleCheckInterval w = true ->
  let w' := step w (Interval now) in
  (idleState (gameState w') = idleState (gameState w) -> w' = w)
  /\ (idleState (gameState w') <> idleState (gameState w) ->
      outbox w' = outbox w ++
        [{| r_status := Some STATUS_PROCESSING;
            r_message :=
              Some ("State changed to "
                    ++ IdleState_toString (idleState (gameState w')))%string;
            r_gameState := Some (gameState w');
            r_terrainMap := None;
            r_step := None; r_total := None; r_result := None |}])
  /\ step w' (Interval now) = w'.
Proof.
  intros Hon w'.
  assert (E : w' = snd (idleCheck now w))
    by (unfold w', step, handler; now rewrite Hon).
  pose proof (idleCheck_run now w) as Hrun. cbv zeta in Hrun.
  rewrite <- E in Hrun.
  set (s := decayed (now - lastActivityTime (gameState w))) in *.
  destruct (IdleState_eqb s (idleState (gameState w))) eqn:Heq.
  - apply IdleState_eqb_eq in Heq.
    split; [intros _; exact Hrun |]. split.
    + intros Hne. now rewrite Hrun in Hne.
    + rewrite Hrun. fold w'. now rewrite Hrun.
  - assert (Hs : idleState (gameState w') = s) by now rewrite Hrun.
    split; [| split].
    + intros Hsame. rewrite Hs in Hsame.
      apply IdleState_eqb_eq in Hsame. congruence.
    + intros _. rewrite Hs. rewrite Hrun. reflexivity.
    + unfold step, handler.
      replace (idleCheckInterval w') with true by now rewrite Hrun.
      rewrite idleCheck_run.
      replace (lastActivityTime (gameState w'))
        with (lastActivityTime (gameState w)) by now rewrite Hrun.
      fold s. rewrite Hs.
      replace (IdleState_eqb s s) with true; [reflexivity |].
      symmetry. now apply IdleState_eqb_eq.
Qed.

Lemma interval_posts_only_changes_witness :
  let w := step (initialWorld 0) (Message 0 (START None)) in
  step (step w (Interval 500)) (Interval 500) = step w (Interval 500)
  /\ step w (Interval 100) = w.
Proof.
  intros w.
  destruct (interval_posts_only_changes 500 w eq_refl) as [_ [_ Hagain]].
  destruct (interval_posts_only_changes 100 w eq_refl) as [Hsame _].
  split; [exact Hagain | apply Hsame; reflexivity].
Defined.

(** X6: after a Move command in one of the four directions, handled at
    clock value [now] from a cell of the map, a run of the idle interval
    less than 200 ms later finds the state Active and does nothing at all. *)
Theorem interval_is_quiet_after_a_move (now later : Z)
    (e_data : WorkerMessage) (d : Direction) (w : World) :
  task e_data = MESSAGE_GAME_UPDATE -> direction e_data = Some d ->
  movement d = true ->
  isInBounds (position (gameState w)) = true ->
  later - now < 200 ->
  let w' := step w (Message now e_data) in
  step w' (Interval later) = w'.
Proof.
  intros Ht Hdir Hd Hb Hlate w'.
  assert (Hw' : lastActivityTime (gameState w') = now
                /\ idleState (gameState w') = ACTIVE).
  { unfold w'. rewrite (onmessage_move now e_data d w Ht Hdir Hd Hb).
    unfold moved. destruct (walkableAt _); split; reflexivity. }
  destruct Hw' as [Hlast Hidle].
  unfold step at 1, handler. destruct (idleCheckInterval w'); [| reflexivity].
  rewrite idleCheck_run, Hlast, Hidle.
  destruct (decayed_thresholds (later - now)) as [_ [_ [_ Hactive]]].
  now rewrite (Hactive Hlate).
Qed.

Lemma interval_is_quiet_after_a_move_witness :
  let w := step (initialWorld 0) (Message 0 (START None)) in
  let w' := step w (Message 1000 (GAME_UPDATE up)) in
  step w' (Interval 1199) = w'.
Proof.
  apply (interval_is_quiet_after_a_move 1000 1199 (GAME_UPDATE up) up);
    try reflexivity.
Defined.

Lemma step_keeps_flags (w : World) (ev : Event) :
  status (gameState (step w ev)) = status (gameState w)
  /\ isMoving (gameState (step w ev)) = isMoving (gameState w)
  /\ isStarted (gameState (step w ev)) = isStarted (gameState w).
Proof.
  destruct ev as [now e_data | now | k].
  - unfold step, handler, onmessage, try_catch, handleGameStart,
      startIdleCheck, setIdleInterval, longRunningFunction,
      longRunningFunction_from, spawn, handleMovement, canMove, cell,
      modifyState, getState, ret, throw, postMessage, bind.
    cbn -[index isInBounds terrainMap String.eqb].
    destruct (String.eqb (task e_data) MESSAGE_START);
      [cbn; auto |].
    destruct (String.eqb (task e_data) MESSAGE_GAME_UPDATE);
      [| cbn; auto].
    destruct (direction e_data) as [d |]; [| cbn; auto].
    destruct d; cbn -[index isInBounds terrainMap];
      repeat match goal with
             | |- context [index ?a ?i] =>
                 destruct (index a i) as [? |];
                 cbn -[index isInBounds terrainMap]
             | |- context [isInBounds ?p] =>
                 destruct (isInBounds p);
                 cbn -[index isInBounds terrainMap]
             | |- context [walkable ?t] =>
                 destruct (walkable t); cbn -[index isInBounds terrainMap]
             end; auto.
  - unfold step, handler. destruct (idleCheckInterval w); [| cbn; auto].
    rewrite idleCheck_run. destruct (IdleState_eqb _ _); cbn; auto.
  - destruct (timeout_gameState k w) as [Hg _]. rewrite Hg. auto.
Qed.

Lemma run_keeps_flags (evs : list Event) (w : World) :
  status (gameState (run evs w)) = status (gameState w)
  /\ isMoving (gameState (run evs w)) = isMoving (gameState w)
  /\ isStarted (gameState (run evs w)) = isStarted (gameState w).
Proof.
  revert w. induction evs as [| ev evs IH]; intros w; [auto |].
  cbn [run fold_left]. change (fold_left step evs ?v) with (run evs v).
  destruct (IH (step w ev)) as [H1 [H2 H3]].
  destruct (step_keeps_flags w ev) as [H1' [H2' H3']].
  rewrite H1, H2, H3. auto.
Qed.

(** X7: no handler of the worker ever writes the fields status, isMoving
    and isStarted of its state: whatever it has run, status is still
    STATUS_IDLE and isMoving and isStarted are still false, also after
    Start. *)
Theorem engine_never_sets_its_flags (t0 : Z) (evs : list Event) :
  let g := gameState (run evs (initialWorld t0)) in
  status g = STATUS_IDLE /\ isMoving g = false /\ isStarted g = false.
Proof.
  apply (run_keeps_flags evs (initialWorld t0)).
Qed.

(** X8: the two terrain tables agree and the terrain-properties table is
    coherent: for every terrain kind the name in [terrainProperties] is the
    one in [terrainNames]; a kind is walkable exactly when its movement cost
    is finite, and then the cost is at least 1; the kinds that are not
    walkable are exactly Water and Mountain. *)
Theorem terrain_tables_are_coherent (t : TerrainType) :
  name (terrainProperties t) = terrainNames t
  /\ isFinite (movementCost (terrainProperties t))
     = walkable (terrainProperties t)
  /\ (walkable (terrainProperties t) = true ->
      atLeastOne (movementCost (terrainProperties t)))
  /\ (walkable (terrainProperties t) = false <-> t = WATER \/ t = MOUNTAIN).
Proof.
  destruct t; cbn; repeat split; intros;
    try discriminate; try (left; reflexivity); try (right; reflexivity);
    try match goal with
        | H : _ \/ _ |- _ => destruct H; discriminate
        end.
Qed.

(** X9: [isInBounds] is exact for the map: a position is in bounds exactly
    when reading [terrainMap[y][x]] yields a terrain, so that [canMove],
    which reads the map only after the bounds check, answers without an
    exception for every position, integers below 0 included. *)
Theorem isInBounds_is_exact (p : Position) (w : World) :
  (isInBounds p = true <-> exists t, terrainAt p = Some t)
  /\ (isInBounds p = false <-> terrainAt p = None)
  /\ exists b, canMove p w = (inl b, w).
Proof.
  split; [| split].
  - split; [apply terrainAt_in_bounds |].
    intros [t Ht]. destruct (isInBounds p) eqn:Hb; [reflexivity |].
    rewrite (terrainAt_out_of_bounds p Hb) in Ht. discriminate.
  - split; [apply terrainAt_out_of_bounds |].
    intros Hn. destruct (isInBounds p) eqn:Hb; [| reflexivity].
    destruct (terrainAt_in_bounds p Hb) as [t Ht]. congruence.
  - exists (walkableAt p). apply canMove_run.
Qed.

(** X10: a second Start does not cancel the progress task of the first:
    each Start adds a coroutine of its own, and in every run that follows,
    however the firings of the two timeouts are interleaved with each other
    and with other events, each task posts its own steps, one with each
    firing of its own timeout, and with the firing of step 100 its own
    Finished event. *)
Theorem each_start_runs_its_own_task (t1 t2 : float) (n1 n2 : Z)
    (w : World) (evs : list Event) :
  let w1 := step (step w (Message n1 (START (Some t1))))
                 (Message n2 (START (Some t2))) in
  let k := List.length (tasks w) in
  List.length (tasks w1) = S (S k)
  /\ postedBy k evs w1
     = stepEvents 0 (Nat.min (firings k evs) 100)
       ++ (if (100 <=? firings k evs)%nat then [finished t1] else [])
  /\ postedBy (S k) evs w1
     = stepEvents 0 (Nat.min (firings (S k) evs) 100)
       ++ (if (100 <=? firings (S k) evs)%nat then [finished t2] else []).
Proof.
  intros w1 k.
  assert (E1 : w1 = started n2 (Some t2) (started n1 (Some t1) w)).
  { unfold w1.
    rewrite (onmessage_start n1 (START (Some t1)) w eq_refl).
    now rewrite (onmessage_start n2 (START (Some t2)) _ eq_refl). }
  assert (Htasks : tasks w1 = tasks w
                     ++ [Some {| p_time := t1; p_i := 0 |};
                         Some {| p_time := t2; p_i := 0 |}]).
  { rewrite E1. cbn [started tasks]. now rewrite <- app_assoc. }
  assert (Hk1 : nth_error (tasks w1) k
                = Some (Some {| p_time := t1; p_i := Z.of_nat 0 |})).
  { rewrite Htasks, nth_error_app2 by (unfold k; lia).
    unfold k. now rewrite Nat.sub_diag. }
  assert (Hk2 : nth_error (tasks w1) (S k)
                = Some (Some {| p_time := t2; p_i := Z.of_nat 0 |})).
  { rewrite Htasks, nth_error_app2 by (unfold k; lia).
    unfold k. now replace (S (List.length (tasks w)) - List.length (tasks w))%nat
      with 1%nat by lia. }
  split; [| split].
  - rewrite Htasks, length_app. cbn. unfold k. lia.
  - rewrite (postedBy_progress k t1 evs 0 w1 ltac:(lia) Hk1).
    now rewrite Nat.sub_0_r.
  - rewrite (postedBy_progress (S k) t2 evs 0 w1 ltac:(lia) Hk2).
    now rewrite Nat.sub_0_r.
Qed.

End Engine.

(* ------------------------------------------------------------------ *)
(** ** More on the render controller *)

Module ControllerMore.
Import Game GameProps GameFacts ControllerProps.
Local Open Scope Q_scope.

Lemma sameCore_refl (g : Game) : sameCore g g.
Proof. repeat split. Qed.

Lemma sameCore_trans (g1 g2 g3 : Game) :
  sameCore g1 g2 -> sameCore g2 g3 -> sameCore g1 g3.
Proof.
  unfold sameCore. intros [A1 [A2 [A3 [A4 [A5 A6]]]]] [B1 [B2 [B3 [B4 [B5 B6]]]]].
  repeat split; congruence.
Qed.

Section Browser.
Variable random : nat -> Q.
Variable mod_2pi : Q -> Q.

Lemma initializeClouds_core (g : Game) (n : nat) :
  sameCore g (fst (initializeClouds random g n)).
Proof.
  unfold initializeClouds.
  destruct (createClouds random g 0 CLOUD_COUNT n). repeat split.
Qed.

Lemma updateClouds_core (g : Game) (n : nat) :
  sameCore g (fst (updateClouds random g n)).
Proof.
  unfold updateClouds.
  destruct (negb (truthy (enableClouds (animationSettings g))));
    [apply sameCore_refl |].
  destruct (forEachCloud random _ 0 _ n). repeat split.
Qed.

Lemma update_core (delta : Q) (t : Tick) (g : Game) (n : nat) :
  sameCore g (fst (update random mod_2pi delta t g n)).
Proof.
  unfold update.
  set (g1 := if Types.isMoving (state g) then _ else g).
  assert (H1 : sameCore g g1)
    by (subst g1; destruct (Types.isMoving (state g)); repeat split).
  destruct (Qlt_le_dec _ _); [| exact H1].
  pose proof (updateClouds_core g1 n) as H2.
  destruct (updateClouds random g1 n) as [g2 n2]. cbn [fst] in *.
  apply (sameCore_trans _ _ _ H1), (sameCore_trans _ _ _ H2).
  destruct (truthy (enableWaves (animationSettings g2)));
    destruct (truthy (enableRiver _)); repeat split.
Qed.

Lemma gameLoop_core (t : Tick) (g : Game) (n : nat) :
  sameCore g (fst (fst (gameLoop random mod_2pi t g n))).
Proof.
  unfold gameLoop. destruct (negb (isRunning g)); [apply sameCore_refl |].
  pose proof (update_core (timestamp t - lastFrameTime g) t g n) as H.
  destruct (update random mod_2pi _ t g n) as [g1 n1]. cbn [fst] in H.
  apply (sameCore_trans _ _ _ H).
  destruct (Qle_bool _ _); repeat split.
Qed.

Lemma setAnimationSettings_core (settings : SettingsPatch) (g : Game)
    (n : nat) :
  sameCore g (fst (setAnimationSettings random settings g n)).
Proof.
  unfold setAnimationSettings.
  destruct (negb (truthy (read (s_enableClouds settings)))).
  - match goal with
    | |- context [initializeClouds random ?g0 n] =>
        pose proof (initializeClouds_core g0 n) as Hi;
        destruct (initializeClouds random g0 n) as [g1 n1]
    end.
    cbn [fst] in *. destruct Hi as [A1 [A2 [A3 [A4 [A5 A6]]]]].
    destruct (negb (truthy (read (s_enableWaves settings))));
      destruct (negb (truthy (read (s_enableRiver settings))));
      repeat split; assumption.
  - destruct (negb (truthy (read (s_enableWaves settings))));
      destruct (negb (truthy (read (s_enableRiver settings))));
      repeat split.
Qed.

(** [onmessage] keeps the switches and the theme, and leaves
    [currentTerrain] equal to the terrain of the state whenever it was. *)
Lemma onmessage_core (e_data : Worker.WorkerResponse) (g : Game) :
  movementCooldown (onmessage e_data g) = movementCooldown g
  /\ isRunning (onmessage e_data g) = isRunning g
  /\ frameThrottle (onmessage e_data g) = frameThrottle g
  /\ Types.theme (state (onmessage e_data g)) = Types.theme (state g)
  /\ (currentTerrain g = Types.terrain (state g) ->
      currentTerrain (onmessage e_data g)
      = Types.terrain (state (onmessage e_data g))).
Proof.
  unfold onmessage.
  destruct (Worker.r_gameState e_data), (Worker.r_terrainMap e_data),
    (Worker.r_message e_data) as [m |];
    try destruct (String.eqb m ""); repeat split; auto.
Qed.

End Browser.

Section Inputs.
Variable random : nat -> Q.
Variable mod_2pi : Q -> Q.

(** What no action writes: the cooldown flag, the throttle and the theme;
    and [currentTerrain] stays the terrain of the state. *)
Lemma act_keeps (gn : Game * nat) (a : Action) :
  let g := fst gn in
  let g' := fst (act random mod_2pi gn a) in
  movementCooldown g' = movementCooldown g
  /\ frameThrottle g' = frameThrottle g
  /\ Types.theme (state g') = Types.theme (state g)
  /\ (currentTerrain g = Types.terrain (state g) ->
      currentTerrain g' = Types.terrain (state g')).
Proof.
  destruct gn as [g n]. cbn [fst].
  assert (Hcore : forall g', sameCore g g' ->
            movementCooldown g' = movementCooldown g
            /\ frameThrottle g' = frameThrottle g
            /\ Types.theme (state g') = Types.theme (state g)
            /\ (currentTerrain g = Types.terrain (state g) ->
                currentTerrain g' = Types.terrain (state g'))).
  { intros g' [A1 [A2 [A3 [A4 [A5 A6]]]]]. repeat split; congruence. }
  destruct a as [t | | settings | w h | e_data | t]; cbn [act].
  - apply Hcore, gameLoop_core.
  - apply Hcore, updateClouds_core.
  - apply Hcore, setAnimationSettings_core.
  - unfold handleResize.
    destruct (initializeClouds_core random (set_size w h g) n)
      as [A1 [A2 [A3 [A4 [A5 A6]]]]].
    cbn [set_size movementCooldown frameThrottle state currentTerrain]
      in A1, A3, A4, A5, A6.
    repeat split; try assumption. intros H. congruence.
  - cbn [fst].
    destruct (onmessage_core e_data g) as [A1 [_ [A3 [A4 A5]]]].
    repeat split; assumption.
  - unfold start. cbn [fst].
    destruct (gameLoop_core random mod_2pi
                {| timestamp := 0; performance_now := performance_now t;
                   Date_now := Date_now t; requestId := requestId t |}
                (set_isRunning true g) n) as [A1 [A2 [A3 [A4 [A5 A6]]]]].
    cbn [set_isRunning movementCooldown frameThrottle state currentTerrain]
      in A1, A3, A4, A5, A6.
    repeat split; try assumption. intros H. congruence.
Qed.

Lemma input_keeps (gn gn' : Game * nat) (i : Input)
    (msgs : list Worker.WorkerMessage) :
  input random mod_2pi gn i = Some (gn', msgs) ->
  frameThrottle (fst gn') = frameThrottle (fst gn)
  /\ Types.theme (state (fst gn')) = Types.theme (state (fst gn))
  /\ (currentTerrain (fst gn) = Types.terrain (state (fst gn)) ->
      currentTerrain (fst gn') = Types.terrain (state (fst gn'))).
Proof.
  destruct gn as [g n]. destruct i as [a | key | d | |]; cbn [input fst snd].
  - intros H.
    assert (E : gn' = act random mod_2pi (g, n) a)
      by (destruct a; now injection H as <- _).
    subst gn'. destruct (act_keeps (g, n) a) as [_ [A2 [A3 A4]]].
    repeat split; assumption.
  - unfold handleKeyDown, move.
    destruct (isRunning g); cbn [negb].
    2: { intros H. injection H as <- _. repeat split; auto. }
    destruct (keyMap key); try discriminate.
    + destruct (movementCooldown g); cbn [orb];
        intros H; injection H as <- _; repeat split; auto.
    + intros H. injection H as <- _. repeat split; auto.
  - unfold sendDirection, move.
    destruct (movementCooldown g || negb (isRunning g));
      cbn [fst snd]; intros H; injection H as <- _; repeat split; auto.
  - intros H. injection H as <- _. repeat split; auto.
  - intros H. injection H as <- _. repeat split; auto.
Qed.

(** X12: whatever reaches a controller after its construction, the theme it
    was built with (the default theme when none was given) stays in its
    state, received snapshots included, and [currentTerrain] is the terrain
    of its state. *)
Theorem theme_and_terrain_survive (config : GameConfig) (now : Z) (n : nat)
    (l : list Input) (gn : Game * nat) (msgs : list Worker.WorkerMessage) :
  inputs random mod_2pi l (constructor random config now n)
  = Some (gn, msgs) ->
  Types.theme (state (fst gn))
  = Some (match c_theme config with
          | Some t => t
          | None => Types.defaultTheme
          end)
  /\ currentTerrain (fst gn) = Types.terrain (state (fst gn)).
Proof.
  assert (Hgen : forall l gn0 gn1 msgs1,
            inputs random mod_2pi l gn0 = Some (gn1, msgs1) ->
            Types.theme (state (fst gn1)) = Types.theme (state (fst gn0))
            /\ (currentTerrain (fst gn0) = Types.terrain (state (fst gn0)) ->
                currentTerrain (fst gn1) = Types.terrain (state (fst gn1)))).
  { clear. induction l as [| i rest IH]; intros gn0 gn1 msgs1 H.
    - injection H as <- _. auto.
    - cbn [inputs] in H.
      destruct (input random mod_2pi gn0 i) as [[gna m1] |] eqn:Ei;
        [| discriminate H].
      destruct (inputs random mod_2pi rest gna) as [[gnb m2] |] eqn:Er;
        [| discriminate H].
      injection H as <- _.
      destruct (input_keeps _ _ _ _ Ei) as [_ [A1 A2]].
      destruct (IH _ _ _ Er) as [B1 B2].
      split; [congruence | auto]. }
  intros H. destruct (Hgen _ _ _ _ H) as [Ht Hc]. split.
  - rewrite Ht. unfold constructor.
    destruct (initializeClouds_core random
                {| width := canvas_width config;
                   height := canvas_height config;
                   animationFrame := None; lastFrameTime := 0;
                   frameThrottle :=
                     1000 / match fps config with
                            | Some f => if Qeq_bool f 0 then 30 else f
                            | None => 30
                            end;
                   movementCooldown := false;
                   state :=
                     {| Types.position := {| Types.x := 2; Types.y := 2 |};
                        Types.facing := Types.down;
                        Types.isMoving := false;
                        Types.terrain := Some Types.GRASSLAND;
                        Types.status := Types.STATUS_IDLE;
                        Types.message := "";
                        Types.isStarted := false;
                        Types.idleState := State.ACTIVE;
                        Types.lastActivityTime := now;
                        Types.theme :=
                          match c_theme config with
                          | Some t => Some t
                          | None => Some Types.defaultTheme
                          end |};
                   isRunning := false;
                   currentTerrain := Some Types.GRASSLAND;
                   riverOffset := 0;
                   animationSettings :=
                     {| enableClouds := Some false;
                        enableWaves := Some false;
                        enableRiver := Some false |};
                   terrainMap := None; clouds := []; cloudOffset := 0;
                   waterOffset := 0; lastAnimationUpdate := 0 |} n)
      as [_ [_ [_ [A4 _]]]].
    rewrite A4. cbn. now destruct (c_theme config).
  - apply Hc. unfold constructor.
    match goal with
    | |- context [initializeClouds random ?g0 n] =>
        destruct (initializeClouds_core random g0 n)
          as [_ [_ [_ [_ [A5 A6]]]]]
    end.
    rewrite A5, A6. reflexivity.
Qed.

End Inputs.

Lemma theme_and_terrain_survive_witness :
  let random := fun _ : nat => 1 # 2 in
  let mod_2pi := fun v : Q => v in
  let config := {| canvas_width := 100; canvas_height := 60;
                   c_theme := None; fps := None |} in
  let moved_up :=
    last (Worker.outbox
            (Worker.run [Worker.Message 1 (Worker.GAME_UPDATE Types.up)]
               (Worker.initialWorld 0)))
         (Props.errorEvent "") in
  exists gn msgs,
    inputs random mod_2pi [Browser (Received moved_up)]
      (constructor random config 0 0) = Some (gn, msgs)
    /\ Types.theme (state (fst gn)) = Some Types.defaultTheme
    /\ currentTerrain (fst gn) = Some Types.BEACH.
Proof.
  intros random mod_2pi config moved_up.
  destruct (inputs random mod_2pi [Browser (Received moved_up)]
              (constructor random config 0 0)) as [[gn msgs] |] eqn:E;
    [| discriminate E].
  destruct (theme_and_terrain_survive random mod_2pi config 0%Z 0%nat
              _ gn msgs E) as [Ht Hc].
  exists gn, msgs. split; [reflexivity |]. split; [exact Ht |].
  rewrite Hc. revert E. vm_compute. intros E. now injection E as <- _.
Defined.

Section Debounce.
Variable random : nat -> Q.
Variable mod_2pi : Q -> Q.

Lemma input_cooldown (gn gn' : Game * nat) (i : Input)
    (msgs : list Worker.WorkerMessage) :
  isCooldownOver i = false ->
  input random mod_2pi gn i = Some (gn', msgs) ->
  (filter isMoveMessage msgs = []
   /\ movementCooldown (fst gn') = movementCooldown (fst gn))
  \/ (movementCooldown (fst gn) = false
      /\ List.length (filter isMoveMessage msgs) = 1%nat
      /\ movementCooldown (fst gn') = true).
Proof.
  destruct gn as [g n].
  destruct i as [a | key | d | |]; cbn [input fst snd isCooldownOver];
    intros Hi H; try discriminate Hi.
  - left.
    assert (E : gn' = act random mod_2pi (g, n) a
                /\ filter isMoveMessage msgs = []).
    { destruct a; injection H as <- <-; split; reflexivity. }
    destruct E as [-> Hm]. split; [exact Hm |].
    now destruct (act_keeps random mod_2pi (g, n) a) as [A1 _].
  - unfold handleKeyDown, move in H.
    destruct (isRunning g); cbn [negb] in H.
    2: { injection H as <- <-. left. split; reflexivity. }
    destruct (keyMap key); try discriminate H.
    + destruct (movementCooldown g) eqn:Hc; cbn [orb] in H;
        injection H as <- <-.
      * left. split; [reflexivity | exact Hc].
      * right. repeat split.
    + injection H as <- <-. left. split; reflexivity.
  - unfold sendDirection, move in H.
    destruct (isRunning g); cbn [negb] in H;
      destruct (movementCooldown g) eqn:Hc; cbn [orb fst snd] in H;
      injection H as <- <-;
      try (left; split; [reflexivity | exact Hc]).
    right. repeat split.
  - injection H as <- <-. left. split; reflexivity.
Qed.

(** X13: moves are debounced.  Over any inputs among which the cooldown of
    [move] does not end, a controller posts at most one GAME_UPDATE, however
    many keys are pressed and directions sent, and none at all if it was
    cooling down to begin with; once the cooldown has ended, a running
    controller posts the next direction it is sent. *)
Theorem moves_are_debounced (l : list Input) (gn gn' : Game * nat)
    (msgs : list Worker.WorkerMessage) :
  existsb isCooldownOver l = false ->
  inputs random mod_2pi l gn = Some (gn', msgs) ->
  (List.length (filter isMoveMessage msgs) <= 1)%nat
  /\ (movementCooldown (fst gn) = true -> filter isMoveMessage msgs = [])
  /\ (forall d, isRunning (fst gn') = true ->
        snd (sendDirection d (moveTimeout (fst gn')))
        = Some (Worker.GAME_UPDATE d)).
Proof.
  intros Hl H.
  assert (Hgen : forall l gn gn' msgs,
            existsb isCooldownOver l = false ->
            inputs random mod_2pi l gn = Some (gn', msgs) ->
            (movementCooldown (fst gn) = true ->
             filter isMoveMessage msgs = [])
            /\ (List.length (filter isMoveMessage msgs) <= 1)%nat).
  { clear. induction l as [| i rest IH]; intros gn gn' msgs Hl H.
    - injection H as _ <-. split; [reflexivity | cbn; lia].
    - cbn [inputs] in H. cbn [existsb] in Hl.
      apply orb_false_iff in Hl. destruct Hl as [Hi Hrest].
      destruct (input random mod_2pi gn i) as [[gna m1] |] eqn:Ei;
        [| discriminate H].
      destruct (inputs random mod_2pi rest gna) as [[gnb m2] |] eqn:Er;
        [| discriminate H].
      injection H as _ <-. rewrite filter_app, length_app.
      destruct (IH _ _ _ Hrest Er) as [Hcool Hle].
      destruct (input_cooldown _ _ _ _ Hi Ei)
        as [[Hm Hsame] | [Hfalse [Hone Htrue]]].
      + rewrite Hm. cbn [app List.length]. split; [| exact Hle].
        intros Hc. apply Hcool. now rewrite Hsame.
      + rewrite (Hcool Htrue), Hone, app_nil_r. split; [| cbn; lia].
        intros Hc. congruence. }
  destruct (Hgen _ _ _ _ Hl H) as [Hcool Hle].
  split; [exact Hle |]. split; [exact Hcool |].
  intros d Hrun. unfold sendDirection, move, moveTimeout.
  cbn [movementCooldown set_movementCooldown isRunning set_state].
  now rewrite Hrun.
Qed.

(** X14: a stopped controller is frozen towards the frame loop and the
    player: turns of the frame loop, key presses and sent directions change
    no field of it, post nothing to the worker and draw nothing. *)
Theorem stopped_controller_is_frozen (l : list Input) (g : Game) (n : nat) :
  forallb guarded l = true ->
  inputs random mod_2pi l (stop g, n) = Some ((stop g, n), [])
  /\ forall t, gameLoop random mod_2pi t (stop g) n = (stop g, n, None).
Proof.
  intros Hl. split; [| reflexivity].
  induction l as [| i rest IH]; [reflexivity |].
  cbn [forallb] in Hl. apply andb_true_iff in Hl. destruct Hl as [Hi Hrest].
  cbn [inputs].
  assert (Ei : input random mod_2pi (stop g, n) i = Some ((stop g, n), [])).
  { destruct i as [a | key | d | |]; try discriminate Hi.
    - destruct a; try discriminate Hi. reflexivity.
    - reflexivity.
    - cbn [input fst snd]. unfold sendDirection, move.
      cbn [stop isRunning set_isRunning negb]. now rewrite orb_true_r. }
  rewrite Ei, (IH Hrest). reflexivity.
Qed.

End Debounce.

Lemma moves_are_debounced_witness :
  let random := fun _ : nat => 1 # 2 in
  let mod_2pi := fun v : Q => v in
  let config := {| canvas_width := 100; canvas_height := 60;
                   c_theme := None; fps := None |} in
  let at_ ms := {| timestamp := ms; performance_now := ms;
                   Date_now := 0; requestId := 1 |} in
  let l := [Browser (Started (at_ 0)); Pressed "ArrowUp"; Pressed "d";
            Sent Types.left; Browser (Frame (at_ 50)); Pressed "s"] in
  exists gn msgs,
    inputs random mod_2pi l (constructor random config 0 0) = Some (gn, msgs)
    /\ filter isMoveMessage msgs = [Worker.GAME_UPDATE Types.up].
Proof.
  intros random mod_2pi config at_ l.
  destruct (inputs random mod_2pi l (constructor random config 0 0))
    as [[gn msgs] |] eqn:E; [| discriminate E].
  pose proof (moves_are_debounced random mod_2pi l _ gn msgs eq_refl E)
    as [Hle _].
  exists gn, msgs. split; [reflexivity |].
  revert E Hle. vm_compute. intros E _. now injection E as _ <-.
Defined.

Lemma stopped_controller_is_frozen_witness :
  let random := fun _ : nat => 1 # 2 in
  let mod_2pi := fun v : Q => v in
  let g := fst (constructor random
                  {| canvas_width := 100; canvas_height := 60;
                     c_theme := None; fps := None |} 0 0) in
  let t := {| timestamp := 500; performance_now := 500;
              Date_now := 0; requestId := 1 |} in
  inputs random mod_2pi [Browser (Frame t); Pressed "w"; Sent Types.down]
    (stop g, 0%nat)
  = Some ((stop g, 0%nat), []).
Proof.
  intros random mod_2pi g t.
  apply (stopped_controller_is_frozen random mod_2pi
           [Browser (Frame t); Pressed "w"; Sent Types.down] g 0 eq_refl).
Defined.

Section FrameLoop.
Variable random : nat -> Q.
Variable mod_2pi : Q -> Q.

Lemma updateClouds_lastFrameTime (g : Game) (n : nat) :
  lastFrameTime (fst (updateClouds random g n)) = lastFrameTime g.
Proof.
  unfold updateClouds.
  destruct (negb (truthy (enableClouds (animationSettings g))));
    [reflexivity |].
  destruct (forEachCloud random _ 0 _ n). reflexivity.
Qed.

Lemma update_lastFrameTime (delta : Q) (t : Tick) (g : Game) (n : nat) :
  lastFrameTime (fst (update random mod_2pi delta t g n)) = lastFrameTime g.
Proof.
  unfold update.
  set (g1 := if Types.isMoving (state g) then _ else g).
  assert (H1 : lastFrameTime g1 = lastFrameTime g)
    by (subst g1; destruct (Types.isMoving (state g)); reflexivity).
  destruct (Qlt_le_dec _ _); [| exact H1].
  pose proof (updateClouds_lastFrameTime g1 n) as H2.
  destruct (updateClouds random g1 n) as [g2 n2]. cbn [fst] in *.
  rewrite <- H1, <- H2.
  destruct (truthy (enableWaves (animationSettings g2)));
    destruct (truthy (enableRiver _)); reflexivity.
Qed.

(** X15: what a turn of the frame loop of a running controller leaves
    behind.  When the turn draws, [lastFrameTime] becomes the timestamp of
    the turn and the frame shows the controller as the update of this same
    turn left it; when it does not draw, [lastFrameTime] is kept.  Either
    way the handle of the next animation frame is stored and
    [frameThrottle] is not touched. *)
Theorem frame_loop_draw_rule (t : Tick) (g : Game) (n : nat) :
  isRunning g = true ->
  let r := gameLoop random mod_2pi t g n in
  let g' := fst (fst r) in
  (snd r <> None ->
   lastFrameTime g' = timestamp t
   /\ snd r = Some (render g'))
  /\ (snd r = None -> lastFrameTime g' = lastFrameTime g)
  /\ animationFrame g' = Some (requestId t)
  /\ frameThrottle g' = frameThrottle g.
Proof.
  intros Hrun r g'. subst r g'. unfold gameLoop. rewrite Hrun. cbn [negb].
  pose proof (update_core random mod_2pi (timestamp t - lastFrameTime g)
                t g n) as [_ [_ [Hthr _]]].
  pose proof (update_lastFrameTime (timestamp t - lastFrameTime g) t g n)
    as Hlast.
  destruct (update random mod_2pi _ t g n) as [g1 n1]. cbn [fst] in *.
  rewrite Hthr.
  destruct (Qle_bool (frameThrottle g) (timestamp t - lastFrameTime g)) eqn:E;
    cbn [fst snd frameThrottle lastFrameTime animationFrame
         set_animationFrame set_lastFrameTime].
  - repeat split; auto; try discriminate; try reflexivity.
  - repeat split; auto; try (intros H; now elim H);
      try (now elim H).
Qed.

Lemma fold_inputs_throttle (l : list Input) (gn gn' : Game * nat)
    (msgs : list Worker.WorkerMessage) :
  inputs random mod_2pi l gn = Some (gn', msgs) ->
  frameThrottle (fst gn') = frameThrottle (fst gn).
Proof.
  revert gn gn' msgs. induction l as [| i rest IH]; intros gn gn' msgs H.
  - now injection H as <- _.
  - cbn [inputs] in H.
    destruct (input random mod_2pi gn i) as [[gna m1] |] eqn:Ei;
      [| discriminate H].
    destruct (inputs random mod_2pi rest gna) as [[gnb m2] |] eqn:Er;
      [| discriminate H].
    injection H as <- _.
    destruct (input_keeps random mod_2pi _ _ _ _ Ei) as [A1 _].
    rewrite (IH _ _ _ Er). exact A1.
Qed.

Lemma constructor_throttle (config : GameConfig) (now : Z) (n : nat) :
  frameThrottle (fst (constructor random config now n))
  = 1000 / match fps config with
           | Some f => if Qeq_bool f 0 then 30 else f
           | None => 30
           end.
Proof.
  unfold constructor.
  match goal with
  | |- context [initializeClouds random ?g0 n] =>
      destruct (initializeClouds_core random g0 n) as [_ [_ [A3 _]]]
  end.
  rewrite A3. reflexivity.
Qed.

(** X16: [frameThrottle] is written by the constructor and by nothing
    else: whatever reaches the controller afterwards, received snapshots
    with any idle state included, it is the value the constructor gave it;
    and the constructor gives a configuration whose [fps] is absent or 0
    the value it gives the same configuration with [fps] 30, whatever the
    canvas, the theme, the clock and the random numbers. *)
Theorem frameThrottle_is_fixed (config : GameConfig) (now : Z) (n : nat)
    (l : list Input) (gn : Game * nat) (msgs : list Worker.WorkerMessage) :
  inputs random mod_2pi l (constructor random config now n)
  = Some (gn, msgs) ->
  frameThrottle (fst gn)
  = frameThrottle (fst (constructor random config now n))
  /\ (match fps config with
      | Some f => Qeq_bool f 0 = true
      | None => True
      end ->
      frameThrottle (fst (constructor random config now n))
      = frameThrottle
          (fst (constructor random
                  {| canvas_width := canvas_width config;
                     canvas_height := canvas_height config;
                     c_theme := c_theme config;
                     fps := Some 30 |} now n))).
Proof.
  intros H. split; [apply (fold_inputs_throttle _ _ _ _ H) |].
  intros Hfps. rewrite !constructor_throttle. cbn [fps].
  destruct (fps config) as [f |]; [| reflexivity].
  now rewrite Hfps.
Qed.

End FrameLoop.

Lemma frame_loop_draw_rule_witness :
  let random := fun _ : nat => 1 # 2 in
  let mod_2pi := fun v : Q => v in
  let g := set_isRunning true
             (fst (constructor random
                     {| canvas_width := 100; canvas_height := 60;
                        c_theme := None; fps := Some 10 |} 0 0)) in
  let at_ ms := {| timestamp := ms; performance_now := ms;
                   Date_now := 0; requestId := 7 |} in
  snd (gameLoop random mod_2pi (at_ 99) g 0) = None
  /\ snd (gameLoop random mod_2pi (at_ 100) g 0) <> None
  /\ lastFrameTime (fst (fst (gameLoop random mod_2pi (at_ 100) g 0))) = 100.
Proof.
  intros random mod_2pi g at_.
  destruct (frame_loop_draw_rule random mod_2pi (at_ 100) g 0 eq_refl)
    as [Hdrawn _].
  assert (Hd : snd (gameLoop random mod_2pi (at_ 100) g 0) <> None)
    by (vm_compute; discriminate).
  split; [reflexivity |]. split; [exact Hd |]. now apply Hdrawn.
Defined.

Lemma frameThrottle_is_fixed_witness :
  let random := fun _ : nat => 1 # 2 in
  let mod_2pi := fun v : Q => v in
  let config := {| canvas_width := 100; canvas_height := 60;
                   c_theme := None; fps := Some 0 |} in
  let at_ ms := {| timestamp := ms; performance_now := ms;
                   Date_now := 0; requestId := 1 |} in
  exists gn msgs,
    inputs random mod_2pi [Browser (Started (at_ 0)); Browser (Frame (at_ 40))]
      (constructor random config 0 0) = Some (gn, msgs)
    /\ frameThrottle (fst gn)
       = frameThrottle (fst (constructor random config 0 0)).
Proof.
  intros random mod_2pi config at_.
  destruct (inputs random mod_2pi
              [Browser (Started (at_ 0)); Browser (Frame (at_ 40))]
              (constructor random config 0 0)) as [[gn msgs] |] eqn:E;
    [| discriminate E].
  exists gn, msgs. split; [reflexivity |].
  apply (frameThrottle_is_fixed random mod_2pi config 0%Z 0%nat _ gn msgs E).
Defined.

(** X17: the controller mirrors the engine after a move.  When the worker,
    whatever it has run before, handles a Move in one of the four directions
    and the controller receives the event posted for it, accepted or
    blocked, then position and terrain of the controller are those of the
    worker, [currentTerrain] too, it faces the direction of the move, its
    idle state is Active, its message is the text of the event and it holds
    the reference map; its isMoving flag is false, although the cooldown of
    [move] is left as it was. *)
Theorem controller_mirrors_a_move (t0 now : Z) (evs : list Worker.Event)
    (e_data : Worker.WorkerMessage) (d : Types.Direction) (g : Game) :
  Worker.task e_data = Types.MESSAGE_GAME_UPDATE ->
  Worker.direction e_data = Some d ->
  Props.movement d = true ->
  let w := Worker.run evs (Worker.initialWorld t0) in
  let w' := Worker.step w (Worker.Message now e_data) in
  let ev := last (Worker.outbox w') (Props.errorEvent "") in
  let g' := onmessage ev g in
  Types.position (state g') = Worker.position (Worker.gameState w')
  /\ Types.terrain (state g') = Worker.terrain (Worker.gameState w')
  /\ currentTerrain g' = Worker.terrain (Worker.gameState w')
  /\ Types.facing (state g') = d
  /\ Types.idleState (state g') = State.ACTIVE
  /\ Types.isMoving (state g') = false
  /\ Some (Types.message (state g')) = Worker.r_message ev
  /\ terrainMap g' = Some Worker.terrainMap
  /\ movementCooldown g' = movementCooldown g.
Proof.
  intros Ht Hdir Hd w w' ev g'.
  assert (Hb : Worker.isInBounds (Worker.position (Worker.gameState w))
               = true).
  { apply walkableAt_in_bounds. unfold w.
    apply run_keeps_walkable. reflexivity. }
  destruct (Engine.run_keeps_flags evs (Worker.initialWorld t0))
    as [_ [Hmov _]].
  fold w in Hmov. cbn in Hmov.
  subst g' ev w'.
  rewrite (onmessage_move now e_data d w Ht Hdir Hd Hb).
  unfold Props.moved.
  destruct (Props.walkableAt _) eqn:Hw;
    cbn [Worker.outbox]; rewrite last_last; unfold onmessage;
    cbn [Worker.r_gameState Worker.r_terrainMap Worker.r_message];
    match goal with
    | |- context [String.eqb ?m ""] =>
        replace (String.eqb m "") with false
          by (unfold Props.blockedText; destruct d; reflexivity)
    end;
    cbn; repeat split; exact Hmov.
Qed.

Lemma controller_mirrors_a_move_witness :
  let g := fst (constructor (fun _ => 1 # 2)
                  {| canvas_width := 100; canvas_height := 60;
                     c_theme := None; fps := None |} 0 0) in
  let w' := Worker.run [Worker.Message 0 (Worker.START None);
                        Worker.Message 5 (Worker.GAME_UPDATE Types.up)]
                       (Worker.initialWorld 0) in
  let g' := onmessage (last (Worker.outbox w') (Props.errorEvent "")) g in
  Types.position (state g') = {| Types.x := 2; Types.y := 1 |}
  /\ currentTerrain g' = Some Types.BEACH.
Proof.
  destruct (controller_mirrors_a_move 0 5
              [Worker.Message 0 (Worker.START None)]
              (Worker.GAME_UPDATE Types.up) Types.up
              (fst (constructor (fun _ => 1 # 2)
                      {| canvas_width := 100; canvas_height := 60;
                         c_theme := None; fps := None |} 0 0))
              eq_refl eq_refl eq_refl) as [Hp [_ [Hc _]]].
  split; [exact Hp | exact Hc].
Defined.


Section Clouds.
Variable random : nat -> Q.
Variable mod_2pi : Q -> Q.
Hypothesis random_range : forall n, 0 <= random n < 1.

Lemma createCloud_inRange (g : Game) (index : nat) (forceOffscreen : bool)
    (n : nat) :
  cloudInRange (fst (createCloud random g index forceOffscreen n)).
Proof.
  unfold cloudInRange.
  pose proof (random_range n) as H0.
  pose proof (random_range (S (S n))) as H2.
  pose proof (random_range (S (S (S n)))) as H3.
  pose proof (random_range (S (S (S (S n))))) as H4.
  destruct forceOffscreen; cbn [createCloud fst snd x y size speed opacity];
    unfold MIN_CLOUD_SPEED, MAX_CLOUD_SPEED; repeat split; lra.
Qed.

Lemma createClouds_inRange (g : Game) (index count n : nat) :
  Forall cloudInRange (fst (createClouds random g index count n)).
Proof.
  revert index n. induction count as [| count IH]; intros index n;
    [constructor |].
  cbn [createClouds].
  pose proof (createCloud_inRange g index false n) as Hc.
  destruct (createCloud random g index false n) as [c n1].
  specialize (IH (S index) n1).
  destruct (createClouds random g (S index) count n1) as [cs n2].
  cbn [fst] in *. now constructor.
Qed.

Lemma forEachCloud_inRange (g : Game) (index : nat) (cs : list Cloud)
    (n : nat) :
  Forall cloudInRange cs ->
  Forall cloudInRange (fst (forEachCloud random g index cs n)).
Proof.
  revert index n. induction cs as [| cloud rest IH]; intros index n H;
    [constructor |].
  inversion H as [| ? ? Hc Hrest]; subst.
  cbn [forEachCloud].
  destruct (Qlt_le_dec _ _).
  - pose proof (createCloud_inRange g index true n) as Hnew.
    destruct (createCloud random g index true n) as [slot n1].
    specialize (IH (S index) n1 Hrest).
    destruct (forEachCloud random g (S index) rest n1) as [rest' n2].
    cbn [fst] in *. now constructor.
  - specialize (IH (S index) n Hrest).
    destruct (forEachCloud random g (S index) rest n) as [rest' n2].
    cbn [fst] in *. constructor; [exact Hc | exact IH].
Qed.

Lemma initializeClouds_inRange (g : Game) (n : nat) :
  Forall cloudInRange (clouds (fst (initializeClouds random g n))).
Proof.
  rewrite initializeClouds_clouds. apply createClouds_inRange.
Qed.

Lemma updateClouds_inRange (g : Game) (n : nat) :
  Forall cloudInRange (clouds g) ->
  Forall cloudInRange (clouds (fst (updateClouds random g n))).
Proof.
  intros H. unfold updateClouds.
  destruct (negb (truthy (enableClouds (animationSettings g))));
    [exact H |].
  pose proof (forEachCloud_inRange
                (set_cloudOffset (cloudOffset g + 0.2) g) 0 (clouds g) n H)
    as H'.
  cbn [clouds set_cloudOffset] in *.
  destruct (forEachCloud random _ 0 (clouds g) n) as [cs n']. exact H'.
Qed.

Lemma gameLoop_inRange (t : Tick) (g : Game) (n : nat) :
  Forall cloudInRange (clouds g) ->
  Forall cloudInRange (clouds (fst (fst (gameLoop random mod_2pi t g n)))).
Proof.
  intros H. unfold gameLoop. destruct (negb (isRunning g)); [exact H |].
  assert (Hu : Forall cloudInRange
                 (clouds (fst (update random mod_2pi
                                 (timestamp t - lastFrameTime g) t g n)))).
  { unfold update.
    set (g1 := if Types.isMoving (state g) then _ else g).
    assert (H1 : clouds g1 = clouds g)
      by (subst g1; destruct (Types.isMoving (state g)); reflexivity).
    destruct (Qlt_le_dec _ _); [| cbn [fst]; now rewrite H1].
    pose proof (updateClouds_inRange g1 n) as H2. rewrite H1 in H2.
    specialize (H2 H).
    destruct (updateClouds random g1 n) as [g2 n2]. cbn [fst] in *.
    destruct (truthy (enableWaves (animationSettings g2)));
      destruct (truthy (enableRiver _)); exact H2. }
  destruct (update random mod_2pi _ t g n) as [g1 n1]. cbn [fst] in Hu.
  destruct (Qle_bool _ _); cbn; exact Hu.
Qed.

Lemma input_inRange (gn gn' : Game * nat) (i : Input)
    (msgs : list Worker.WorkerMessage) :
  input random mod_2pi gn i = Some (gn', msgs) ->
  Forall cloudInRange (clouds (fst gn)) ->
  Forall cloudInRange (clouds (fst gn')).
Proof.
  destruct gn as [g n]. destruct i as [a | key | d | |]; cbn [input fst snd].
  - intros H Hin.
    assert (E : gn' = act random mod_2pi (g, n) a)
      by (destruct a; now injection H as <- _).
    subst gn'. destruct a as [t | | settings | w h | e_data | t]; cbn [act].
    + now apply gameLoop_inRange.
    + now apply updateClouds_inRange.
    + unfold setAnimationSettings.
      destruct (negb (truthy (read (s_enableClouds settings)))).
      * match goal with
        | |- context [initializeClouds random ?g0 n] =>
            pose proof (initializeClouds_inRange g0 n) as Hi;
            destruct (initializeClouds random g0 n) as [g1 n1]
        end.
        cbn [fst] in *.
        destruct (negb (truthy (read (s_enableWaves settings))));
          destruct (negb (truthy (read (s_enableRiver settings))));
          exact Hi.
      * destruct (negb (truthy (read (s_enableWaves settings))));
          destruct (negb (truthy (read (s_enableRiver settings))));
          exact Hin.
    + apply initializeClouds_inRange.
    + cbn [fst]. now rewrite onmessage_clouds.
    + unfold start. cbn [fst]. now apply gameLoop_inRange.
  - unfold handleKeyDown, move.
    destruct (isRunning g); cbn [negb].
    2: { intros H. now injection H as <- _. }
    destruct (keyMap key); try discriminate.
    + destruct (movementCooldown g); cbn [orb];
        intros H; now injection H as <- _.
    + intros H. now injection H as <- _.
  - unfold sendDirection, move.
    destruct (movementCooldown g || negb (isRunning g));
      cbn [fst snd]; intros H; now injection H as <- _.
  - intros H. now injection H as <- _.
  - intros H. now injection H as <- _.
Qed.

(** X19: every cloud a controller holds, at any time after its
    construction, has its size between 60 and 160, a speed of at least 0.05,
    so that it drifts to the right, and an opacity of at least 0.4:
    drifting changes x only, and every replacement comes from
    [createCloud]. *)
Theorem clouds_stay_in_range (config : GameConfig) (now : Z) (n : nat)
    (l : list Input) (gn : Game * nat) (msgs : list Worker.WorkerMessage) :
  inputs random mod_2pi l (constructor random config now n)
  = Some (gn, msgs) ->
  Forall cloudInRange (clouds (fst gn)).
Proof.
  assert (Hgen : forall l gn0 gn1 msgs1,
            inputs random mod_2pi l gn0 = Some (gn1, msgs1) ->
            Forall cloudInRange (clouds (fst gn0)) ->
            Forall cloudInRange (clouds (fst gn1))).
  { clear l gn msgs. induction l as [| i rest IH]; intros gn0 gn1 msgs1 H Hin.
    - now injection H as <- _.
    - cbn [inputs] in H.
      destruct (input random mod_2pi gn0 i) as [[gna m1] |] eqn:Ei;
        [| discriminate H].
      destruct (inputs random mod_2pi rest gna) as [[gnb m2] |] eqn:Er;
        [| discriminate H].
      injection H as <- _.
      apply (IH _ _ _ Er), (input_inRange _ _ _ _ Ei), Hin. }
  intros H. apply (Hgen _ _ _ _ H).
  unfold constructor. apply initializeClouds_inRange.
Qed.

End Clouds.

Section RoundedClouds.
Variable fl : Q -> Q.
Variable random : nat -> Q.
Hypothesis random_range : forall n, 0 <= random n < 1.

(** Rounding to the nearest double keeps the order, leaves the integers up
    to [2^53] as they are, and leaves a double as it is. *)
Hypothesis fl_monotone : forall a b : Q, a <= b -> fl a <= fl b.
Hypothesis fl_integer :
  forall z : Z, (Z.abs z <= 2 ^ 53)%Z -> fl (inject_Z z) == inject_Z z.
Hypothesis fl_idempotent : forall a : Q, fl (fl a) == fl a.

Lemma fl_nonneg (a : Q) : 0 <= a -> 0 <= fl a.
Proof.
  intros H. pose proof (fl_monotone 0 a H) as H'.
  pose proof (fl_integer 0 ltac:(cbn; lia)) as H0.
  change (inject_Z 0) with 0 in H0. lra.
Qed.

(** A random number of [0, 1) times a double that is not negative, rounded,
    lies between 0 and that double. *)
Lemma fl_scaled (r d : Q) :
  0 <= r < 1 -> 0 <= fl d -> 0 <= fl (r * fl d) <= fl d.
Proof.
  intros Hr Hd.
  assert (H1 : 0 <= r * fl d) by (apply Qmult_le_0_compat; lra).
  assert (H2 : r * fl d <= fl d).
  { apply Qle_trans with (1 * fl d);
      [apply Qmult_le_compat_r; lra | rewrite Qmult_1_l; apply Qle_refl]. }
  split; [now apply fl_nonneg |].
  pose proof (fl_monotone _ _ H2) as H3.
  pose proof (fl_idempotent d) as H4. lra.
Qed.

(** A double plus such a product, rounded, lies between the double and its
    rounded sum with the other. *)
Lemma fl_offset (a r d : Q) :
  0 <= r < 1 -> 0 <= fl d ->
  fl a <= fl (fl a + fl (r * fl d)) <= fl (fl a + fl d).
Proof.
  intros Hr Hd. destruct (fl_scaled r d Hr Hd) as [H1 H2].
  pose proof (fl_monotone (fl a) (fl a + fl (r * fl d)) ltac:(lra)) as H3.
  pose proof (fl_monotone (fl a + fl (r * fl d)) (fl a + fl d) ltac:(lra))
    as H4.
  pose proof (fl_idempotent a) as H5. lra.
Qed.

(** X18: in the code's double arithmetic every cloud [createCloud] makes
    has its size between 60 and 160; its speed lies between the double 0.05
    and the rounded sum of 0.05 and the rounded difference 0.2 - 0.05, its
    opacity between the double 0.4 and the rounded sum 0.4 + 0.3; on a
    canvas of non-negative height its y lies between 0 and the rounded
    [height * 0.4]; forced off-screen its x is minus its size, between -160
    and -60; otherwise its x lies between the left edge of its slot, the
    slots being eighths of the canvas width, and that edge plus 200,
    rounded.  The call draws four random numbers when forced and five
    otherwise. *)
Theorem createCloud_ranges (g : Game) (index : nat) (forceOffscreen : bool)
    (n : nat) :
  let c := fst (Rounded.createCloud fl random g index forceOffscreen n) in
  let slot := fl (inject_Z (Z.of_nat index) * fl (width g / 8)) in
  (60 <= size c <= 160)
  /\ (fl MIN_CLOUD_SPEED <= speed c
      <= fl (fl MIN_CLOUD_SPEED + fl (fl MAX_CLOUD_SPEED - fl MIN_CLOUD_SPEED)))
  /\ (fl 0.4 <= opacity c <= fl (fl 0.4 + fl 0.3))
  /\ (0 <= height g -> 0 <= y c <= fl (height g * fl 0.4))
  /\ (forceOffscreen = true -> x c = - size c /\ - (160) <= x c <= - (60))
  /\ (forceOffscreen = false -> slot <= x c <= fl (slot + 200))
  /\ snd (Rounded.createCloud fl random g index forceOffscreen n)
     = (n + if forceOffscreen then 4 else 5)%nat.
Proof.
  cbn zeta.
  assert (Hsize : forall k, 60 <= fl (60 + fl (random k * 100)) <= 160)
    by (intros k; apply (Controller.rounded_size_range fl);
        auto).
  assert (H04 : 0 <= fl 0.4) by (apply fl_nonneg; lra).
  assert (H03 : 0 <= fl 0.3) by (apply fl_nonneg; lra).
  assert (Hd : 0 <= fl (fl MAX_CLOUD_SPEED - fl MIN_CLOUD_SPEED)).
  { apply fl_nonneg.
    pose proof (fl_monotone MIN_CLOUD_SPEED MAX_CLOUD_SPEED
                  ltac:(unfold MIN_CLOUD_SPEED, MAX_CLOUD_SPEED; lra)).
    lra. }
  assert (Hy : forall r, 0 <= r < 1 -> 0 <= height g ->
                 0 <= fl (r * fl (height g * fl 0.4))
                 <= fl (height g * fl 0.4)).
  { intros r Hr Hh. apply fl_scaled; [exact Hr |].
    apply fl_nonneg. now apply Qmult_le_0_compat. }
  destruct forceOffscreen;
    cbn [Rounded.createCloud fst snd x y size speed opacity].
  - split; [apply Hsize |].
    split; [apply fl_offset; [apply random_range | exact Hd] |].
    split; [apply fl_offset; [apply random_range | exact H03] |].
    split; [intros Hh; apply Hy; [apply random_range | exact Hh] |].
    split; [| split; [discriminate | lia]].
    intros _. split; [reflexivity |].
    destruct (Hsize n) as [H1 H2]. split; lra.
  - split; [apply Hsize |].
    split; [apply fl_offset; [apply random_range | exact Hd] |].
    split; [apply fl_offset; [apply random_range | exact H03] |].
    split; [intros Hh; apply Hy; [apply random_range | exact Hh] |].
    split; [discriminate |]. split; [| lia].
    intros _. change (inject_Z (Z.of_nat CLOUD_COUNT)) with 8.
    set (slot := fl (inject_Z (Z.of_nat index) * fl (width g / 8))).
    pose proof (fl_integer 200 ltac:(cbn; lia)) as H200.
    change (inject_Z 200) with 200 in H200.
    pose proof (random_range (S n)) as Hr.
    pose proof (fl_nonneg (random (S n) * 200) ltac:(lra)) as Hlo.
    pose proof (fl_monotone (random (S n) * 200) 200 ltac:(lra)) as Hhi.
    pose proof (fl_monotone slot (slot + fl (random (S n) * 200))
                  ltac:(lra)) as H1.
    pose proof (fl_monotone (slot + fl (random (S n) * 200)) (slot + 200)
                  ltac:(lra)) as H2.
    pose proof (fl_idempotent
                  (inject_Z (Z.of_nat index) * fl (width g / 8))) as H3.
    fold slot in H3. split; lra.
Qed.

End RoundedClouds.

Lemma createCloud_ranges_witness :
  let random := fun _ : nat => 1 # 2 in
  let fl := fun q : Q => q in
  let g := fst (constructor random
                  {| canvas_width := 800; canvas_height := 600;
                     c_theme := None; fps := None |} 0 0) in
  let c := fst (Rounded.createCloud fl random g 3 false 0) in
  (forall n, 0 <= random n < 1)
  /\ (forall a b : Q, a <= b -> fl a <= fl b)
  /\ (forall z : Z, (Z.abs z <= 2 ^ 53)%Z -> fl (inject_Z z) == inject_Z z)
  /\ (forall a : Q, fl (fl a) == fl a)
  /\ 60 <= size c <= 160 /\ 300 <= x c /\ x c <= 500 /\ y c <= 240.
Proof.
  intros random fl g c.
  assert (Hr : forall n, 0 <= random n < 1)
    by (intros n; split; unfold random; [discriminate | reflexivity]).
  assert (Hm : forall a b : Q, a <= b -> fl a <= fl b)
    by (intros a b H; exact H).
  assert (Hz : forall z : Z,
             (Z.abs z <= 2 ^ 53)%Z -> fl (inject_Z z) == inject_Z z)
    by (intros z _; reflexivity).
  assert (Hi : forall a : Q, fl (fl a) == fl a) by (intros a; reflexivity).
  destruct (createCloud_ranges fl random Hr Hm Hz Hi g 3 false 0)
    as [Hs [_ [_ [Hy [_ [Hx _]]]]]].
  split; [exact Hr |]. split; [exact Hm |]. split; [exact Hz |].
  split; [exact Hi |]. split; [exact Hs |].
  destruct (Hx eq_refl) as [Hlo Hhi].
  destruct (Hy ltac:(vm_compute; discriminate)) as [_ Hy'].
  split; [revert Hlo; vm_compute; auto |].
  split; [revert Hhi; vm_compute; auto |].
  revert Hy'. vm_compute. auto.
Defined.

Lemma clouds_stay_in_range_witness :
  let random := fun _ : nat => 1 # 2 in
  let mod_2pi := fun v : Q => v in
  let config := {| canvas_width := 100; canvas_height := 60;
                   c_theme := None; fps := None |} in
  let on := {| s_enableClouds := Some (Some true);
               s_enableWaves := None; s_enableRiver := None |} in
  exists gn msgs,
    inputs random mod_2pi
      [Browser (Settings on); Browser CloudTick; Browser (Resize 50 50)]
      (constructor random config 0 0) = Some (gn, msgs)
    /\ Forall cloudInRange (clouds (fst gn)).
Proof.
  intros random mod_2pi config on.
  assert (Hr : forall n, 0 <= random n < 1)
    by (intros n; split; unfold random; [discriminate | reflexivity]).
  destruct (inputs random mod_2pi
              [Browser (Settings on); Browser CloudTick;
               Browser (Resize 50 50)]
              (constructor random config 0 0)) as [[gn msgs] |] eqn:E;
    [| discriminate E].
  exists gn, msgs. split; [reflexivity |].
  apply (clouds_stay_in_range random mod_2pi Hr config 0%Z 0%nat _ gn msgs E).
Defined.

Lemma keyMap_own (key : string) (d : Types.Direction) :
  keyMap key = OwnKey d -> Props.movement d = true.
Proof.
  unfold keyMap.
  repeat match goal with
         | |- context [if ?c then _ else _] => destruct c
         end; intros H; try discriminate H; now injection H as <-.
Qed.

(** X11: a key press posts at most one message.  When it posts one, the
    controller was running and not cooling down, the key is one of the
    eight keys of the key map, the message is a GAME_UPDATE with the
    direction of that key, which is up, down, left or right and never back
    or front, and the controller now faces that way, is moving and cooling
    down.  When it posts none, nothing has changed. *)
Theorem key_press_posts_one_move (key : string) (g : Game)
    (r : Game * option Worker.WorkerMessage) :
  handleKeyDown key g = Some r ->
  (snd r = None -> fst r = g)
  /\ (forall m, snd r = Some m ->
        isRunning g = true /\ movementCooldown g = false
        /\ exists d,
             keyMap key = OwnKey d
             /\ Props.movement d = true
             /\ m = Worker.GAME_UPDATE d
             /\ Types.facing (state (fst r)) = d
             /\ Types.isMoving (state (fst r)) = true
             /\ movementCooldown (fst r) = true).
Proof.
  unfold handleKeyDown, move.
  destruct (isRunning g) eqn:Hrun; cbn [negb].
  2: { intros H. injection H as <-. split; [reflexivity |].
       intros m Hm. discriminate Hm. }
  destruct (keyMap key) as [d | |] eqn:Hkey; try discriminate.
  - destruct (movementCooldown g) eqn:Hcool; cbn [orb negb];
      intros H; injection H as <-; cbn [fst snd].
    + split; [reflexivity |]. intros m Hm. discriminate Hm.
    + split; [intros Hn; discriminate Hn |].
      intros m Hm. injection Hm as <-.
      repeat split. exists d. repeat split; try assumption.
      now apply keyMap_own with key.
  - intros H. injection H as <-. split; [reflexivity |].
    intros m Hm. discriminate Hm.
Qed.

Lemma key_press_posts_one_move_witness :
  let g := set_isRunning true
             (fst (constructor (fun _ => 1 # 2)
                     {| canvas_width := 100; canvas_height := 60;
                        c_theme := None; fps := None |} 0 0)) in
  handleKeyDown "W" g = Some (g, None)
  /\ exists g',
       handleKeyDown "w" g = Some (g', Some (Worker.GAME_UPDATE Types.up))
       /\ movementCooldown g' = true.
Proof.
  intros g. split; [reflexivity |].
  destruct (handleKeyDown "w" g) as [[g' m] |] eqn:E; [| discriminate E].
  destruct (key_press_posts_one_move "w" g (g', m) E) as [_ Hsome].
  assert (Hm : m = Some (Worker.GAME_UPDATE Types.up))
    by (revert E; vm_compute; congruence).
  destruct (Hsome _ Hm) as [_ [_ [d [_ [_ [_ [_ [_ Hcool]]]]]]]].
  exists g'. split; [now rewrite Hm | exact Hcool].
Defined.

End ControllerMore.

(* ------------------------------------------------------------------ *)
(** ** The drawing routine *)

Module Drawing.
Import Game Draw ControllerProps.
Local Open Scope Q_scope.

Lemma firstPassRow_length (tileSize : Q) (row col : nat)
    (cells : list Types.TerrainType) :
  List.length (firstPassRow tileSize row col cells) = List.length cells.
Proof.
  revert col. induction cells as [| t rest IH]; intros col; [reflexivity |].
  cbn. now rewrite IH.
Qed.

Lemma firstPassRow_nth (tileSize : Q) (row : nat)
    (cells : list Types.TerrainType) :
  forall (col j : nat) (terrain : Types.TerrainType),
    nth_error cells j = Some terrain ->
    nth_error (firstPassRow tileSize row col cells) j
    = Some (fillRect (terrainColors terrain) (times (col + j) tileSize)
                     (times row tileSize) tileSize tileSize).
Proof.
  induction cells as [| t rest IH]; intros col j terrain Hj.
  - destruct j; discriminate Hj.
  - destruct j as [| j]; cbn in *.
    + injection Hj as <-. now rewrite Nat.add_0_r.
    + rewrite (IH (S col) j terrain Hj). do 3 f_equal. lia.
Qed.

Lemma firstPass_length (tileSize : Q) (row : nat)
    (rows : list (list Types.TerrainType)) :
  List.length (firstPass tileSize row rows) = cellCount rows.
Proof.
  revert row. induction rows as [| cells rest IH]; intros row; [reflexivity |].
  cbn [firstPass cellCount fold_right].
  rewrite length_app, firstPassRow_length, IH. reflexivity.
Qed.

Lemma firstPass_nth (tileSize : Q) (rows : list (list Types.TerrainType)) :
  forall (row i col : nat) (cells : list Types.TerrainType)
         (terrain : Types.TerrainType),
    nth_error rows i = Some cells ->
    nth_error cells col = Some terrain ->
    nth_error (firstPass tileSize row rows) (cellCount (firstn i rows) + col)
    = Some (fillRect (terrainColors terrain) (times col tileSize)
                     (times (row + i) tileSize) tileSize tileSize).
Proof.
  induction rows as [| r rest IH]; intros row i col cells terrain Hi Hc.
  - destruct i; discriminate Hi.
  - destruct i as [| i]; cbn [firstPass firstn cellCount fold_right].
    + injection Hi as ->. cbn [Nat.add].
      rewrite nth_error_app1
        by (rewrite firstPassRow_length; apply nth_error_Some; congruence).
      rewrite (firstPassRow_nth tileSize row cells 0 col terrain Hc).
      now rewrite Nat.add_0_r.
    + cbn [nth_error] in Hi.
      rewrite nth_error_app2 by (rewrite firstPassRow_length; lia).
      rewrite firstPassRow_length.
      replace (List.length r + fold_right _ 0%nat (firstn i rest) + col
               - List.length r)%nat
        with (cellCount (firstn i rest) + col)%nat
        by (unfold cellCount; lia).
      rewrite (IH (S row) i col cells terrain Hi Hc).
      do 3 f_equal. lia.
Qed.

(** X20: after clearing the canvas, [drawPixel] paints every cell of the
    grid once, row by row: the call that follows the [clearRect] and the
    cells before it in row-major order is a [fillRect] in the colour of the
    cell's terrain, on the tile at (col * tileSize, row * tileSize); the
    first pass has as many calls as the grid has cells, rows of different
    lengths included. *)
Theorem first_pass_paints_every_cell (canvasWidth canvasHeight : Q)
    (params : DrawPixelParams) :
  let rows := d_terrainMap params in
  let tileSize := d_tileSize params in
  let calls := drawPixel canvasWidth canvasHeight params in
  nth_error calls 0 = Some (clearRect 0 0 canvasWidth canvasHeight)
  /\ List.length (firstPass tileSize 0 rows) = cellCount rows
  /\ forall (row col : nat) (cells : list Types.TerrainType)
            (terrain : Types.TerrainType),
       nth_error rows row = Some cells ->
       nth_error cells col = Some terrain ->
       nth_error calls (1 + cellCount (firstn row rows) + col)
       = Some (fillRect (terrainColors terrain) (times col tileSize)
                        (times row tileSize) tileSize tileSize).
Proof.
  intros rows tileSize calls. split; [reflexivity |].
  split; [apply firstPass_length |].
  intros row col cells terrain Hr Hc. subst calls. unfold drawPixel.
  cbn [app Nat.add nth_error]. fold rows tileSize.
  assert (Hlt : (cellCount (firstn row rows) + col
                 < List.length (firstPass tileSize 0 rows))%nat).
  { apply nth_error_Some.
    rewrite (firstPass_nth tileSize rows 0 row col cells terrain Hr Hc).
    discriminate. }
  rewrite nth_error_app1 by exact Hlt.
  apply (firstPass_nth tileSize rows 0 row col cells terrain Hr Hc).
Qed.

Lemma first_pass_paints_every_cell_witness :
  let params :=
    {| d_terrainMap := Worker.terrainMap;
       d_pixelPos := {| Types.x := 2; Types.y := 2 |};
       d_facing := Types.down; d_isMoving := false;
       d_animationSettings :=
         {| enableClouds := Some false; enableWaves := Some false;
            enableRiver := Some false |};
       d_waterOffset := 0; d_riverOffset := 0; d_clouds := [];
       d_cloudOffset := 0; d_tileSize := 40 |} in
  nth_error (drawPixel 800 600 params) (1 + 2 * 20 + 4)
  = Some (fillRect "#3b7a57" (times 4 40) (times 2 40) 40 40).
Proof.
  intros params.
  destruct (first_pass_paints_every_cell 800 600 params) as [_ [_ Hcell]].
  apply (Hcell 2%nat 4%nat
           (nth 2 Worker.terrainMap []) Types.FOREST eq_refl eq_refl).
Defined.






Lemma secondPassRow_ext (p1 p2 : DrawPixelParams) (row : nat)
    (cells : list Types.TerrainType) :
  d_pixelPos p1 = d_pixelPos p2 ->
  d_animationSettings p1 = d_animationSettings p2 ->
  d_tileSize p1 = d_tileSize p2 ->
  (truthy (enableWaves (d_animationSettings p1)) = true ->
   d_waterOffset p1 = d_waterOffset p2) ->
  (truthy (enableRiver (d_animationSettings p1)) = true ->
   d_riverOffset p1 = d_riverOffset p2) ->
  forall col,
    secondPassRow p1 row col cells = secondPassRow p2 row col cells.
Proof.
  intros Hpos Hset Htile Hwater Hriver.
  induction cells as [| t rest IH]; intros col; [reflexivity |].
  cbn [secondPassRow]. rewrite (IH (S col)). f_equal.
  unfold isPlayerCell. rewrite <- Hpos.
  destruct (negb _); [| reflexivity].
  unfold detail. rewrite <- Hset, <- Htile.
  destruct t; try reflexivity.
  - destruct (truthy (enableWaves _)) eqn:E; [| reflexivity].
    now rewrite (Hwater eq_refl).
  - destruct (truthy (enableRiver _)) eqn:E; [| reflexivity].
    now rewrite (Hriver eq_refl).
Qed.

Lemma secondPass_ext (p1 p2 : DrawPixelParams)
    (rows : list (list Types.TerrainType)) :
  d_pixelPos p1 = d_pixelPos p2 ->
  d_animationSettings p1 = d_animationSettings p2 ->
  d_tileSize p1 = d_tileSize p2 ->
  (truthy (enableWaves (d_animationSettings p1)) = true ->
   d_waterOffset p1 = d_waterOffset p2) ->
  (truthy (enableRiver (d_animationSettings p1)) = true ->
   d_riverOffset p1 = d_riverOffset p2) ->
  forall row, secondPass p1 row rows = secondPass p2 row rows.
Proof.
  intros Hpos Hset Htile Hwater Hriver.
  induction rows as [| cells rest IH]; intros row; [reflexivity |].
  cbn [secondPass]. rewrite (IH (S row)). f_equal.
  now apply secondPassRow_ext.
Qed.

(** X22: the calls of [drawPixel] depend on the wave phase only while waves
    are enabled, on the river phase only while the river is enabled, on the
    clouds only while clouds are enabled, and then on their x, y and size
    alone; they never depend on [cloudOffset].  Two argument records that
    agree on everything else give the same calls. *)
Theorem drawPixel_reads_only_enabled_animation (canvasWidth canvasHeight : Q)
    (p1 p2 : DrawPixelParams) :
  d_terrainMap p1 = d_terrainMap p2 ->
  d_pixelPos p1 = d_pixelPos p2 ->
  d_facing p1 = d_facing p2 ->
  d_isMoving p1 = d_isMoving p2 ->
  d_animationSettings p1 = d_animationSettings p2 ->
  d_tileSize p1 = d_tileSize p2 ->
  (truthy (enableWaves (d_animationSettings p1)) = true ->
   d_waterOffset p1 = d_waterOffset p2) ->
  (truthy (enableRiver (d_animationSettings p1)) = true ->
   d_riverOffset p1 = d_riverOffset p2) ->
  (truthy (enableClouds (d_animationSettings p1)) = true ->
   map (fun c => (x c, y c, size c)) (d_clouds p1)
   = map (fun c => (x c, y c, size c)) (d_clouds p2)) ->
  drawPixel canvasWidth canvasHeight p1
  = drawPixel canvasWidth canvasHeight p2.
Proof.
  intros Hmap Hpos Hfac Hmov Hset Htile Hwater Hriver Hclouds.
  unfold drawPixel.
  rewrite (secondPass_ext p1 p2 (d_terrainMap p1)
             Hpos Hset Htile Hwater Hriver 0).
  rewrite <- Hmap, <- Hpos, <- Hfac, <- Hmov, <- Htile, <- Hset.
  do 5 f_equal.
  destruct (truthy (enableClouds (d_animationSettings p1))) eqn:E;
    [| reflexivity].
  specialize (Hclouds eq_refl).
  revert Hclouds. generalize (d_clouds p2).
  induction (d_clouds p1) as [| c cs IH]; intros [| c' cs'] H;
    try discriminate H; [reflexivity |].
  cbn [map] in *. injection H as Hx Hy Hs Hrest.
  rewrite Hx, Hy, Hs, (IH cs' Hrest). reflexivity.
Qed.

(** X23: with all three animations off, no call of [drawPixel] draws waves,
    a river or a cloud. *)
Theorem still_frame_has_no_animation (canvasWidth canvasHeight : Q)
    (params : DrawPixelParams) :
  allOff (d_animationSettings params) ->
  forallb (fun c => negb (isAnimated c))
          (drawPixel canvasWidth canvasHeight params) = true.
Proof.
  intros [Hc [Hw Hr]].
  assert (Hrow : forall cells row col,
            forallb (fun c => negb (isAnimated c))
                    (firstPassRow (d_tileSize params) row col cells) = true).
  { intros cells. induction cells as [| t rest IH]; intros row col;
      [reflexivity |].
    cbn. apply IH. }
  assert (Hfirst : forall rows row,
            forallb (fun c => negb (isAnimated c))
                    (firstPass (d_tileSize params) row rows) = true).
  { intros rows. induction rows as [| cells rest IH]; intros row;
      [reflexivity |].
    cbn [firstPass]. rewrite forallb_app, Hrow, IH. reflexivity. }
  assert (Hrow2 : forall cells row col,
            forallb (fun c => negb (isAnimated c))
                    (secondPassRow params row col cells) = true).
  { intros cells. induction cells as [| t rest IH]; intros row col;
      [reflexivity |].
    cbn [secondPassRow]. rewrite forallb_app, IH, andb_true_r.
    destruct (negb (isPlayerCell params row col)); [| reflexivity].
    unfold detail. rewrite Hw, Hr. destruct t; reflexivity. }
  assert (Hsecond : forall rows row,
            forallb (fun c => negb (isAnimated c))
                    (secondPass params row rows) = true).
  { intros rows. induction rows as [| cells rest IH]; intros row;
      [reflexivity |].
    cbn [secondPass]. rewrite forallb_app, Hrow2, IH. reflexivity. }
  unfold drawPixel. rewrite Hc.
  rewrite !forallb_app, Hfirst, Hsecond. cbn.
  destruct (match Worker.index _ _ with Some _ => _ | None => None end)
    as [[] |]; reflexivity.
Qed.

(** X24: before the controller has received a map, a frame shows the player
    alone: the calls of [render] are its [clearRect], that of [drawPixel],
    the character at the position times 40, raised by an eighth of a tile,
    and, when clouds are enabled, the clouds; no tile is painted. *)
Theorem frame_without_map (g : Game) :
  terrainMap g = None ->
  renderCalls g
  = [clearRect 0 0 (width g) (height g);
     clearRect 0 0 (width g) (height g);
     drawCharacter (inject_Z (Types.x (Types.position (state g))) * 40)
                   (inject_Z (Types.y (Types.position (state g))) * 40
                    - 40 / 8)
                   40 (Types.facing (state g)) (Types.isMoving (state g))]
    ++ (if truthy (enableClouds (animationSettings g))
        then map (fun c => drawCloud (x c) (y c) (size c)) (clouds g)
        else []).
Proof.
  intros Hmap. unfold renderCalls, drawPixel, render.
  cbn [d_terrainMap d_tileSize d_pixelPos d_facing d_isMoving
       d_animationSettings d_clouds].
  rewrite Hmap. cbn [firstPass secondPass app].
  replace (Worker.index [] (Types.y (Types.position (state g))))
    with (@None (list Types.TerrainType))
    by (unfold Worker.index; destruct (_ <? _)%Z;
        [reflexivity | now destruct (Z.to_nat _)]).
  cbn [app].
  destruct (truthy (enableClouds (animationSettings g))); reflexivity.
Qed.

Lemma drawPixel_reads_only_enabled_animation_witness :
  let off := {| enableClouds := Some false; enableWaves := None;
                enableRiver := Some true |} in
  let cloud := {| x := 10; y := 20; speed := 1 # 10; size := 80;
                  opacity := 1 # 2 |} in
  let p1 :=
    {| d_terrainMap := Worker.terrainMap;
       d_pixelPos := {| Types.x := 2; Types.y := 2 |};
       d_facing := Types.down; d_isMoving := false;
       d_animationSettings := off;
       d_waterOffset := 0; d_riverOffset := 1; d_clouds := [];
       d_cloudOffset := 0; d_tileSize := 40 |} in
  let p2 :=
    {| d_terrainMap := Worker.terrainMap;
       d_pixelPos := {| Types.x := 2; Types.y := 2 |};
       d_facing := Types.down; d_isMoving := false;
       d_animationSettings := off;
       d_waterOffset := 3; d_riverOffset := 1; d_clouds := [cloud];
       d_cloudOffset := 12; d_tileSize := 40 |} in
  drawPixel 800 600 p1 = drawPixel 800 600 p2.
Proof.
  intros off cloud p1 p2.
  apply (drawPixel_reads_only_enabled_animation 800 600 p1 p2);
    try reflexivity; intros H; discriminate H.
Defined.

Lemma still_frame_has_no_animation_witness :
  let params :=
    {| d_terrainMap := Worker.terrainMap;
       d_pixelPos := {| Types.x := 2; Types.y := 2 |};
       d_facing := Types.down; d_isMoving := false;
       d_animationSettings :=
         {| enableClouds := Some false; enableWaves := None;
            enableRiver := Some false |};
       d_waterOffset := 3; d_riverOffset := 1;
       d_clouds := [{| x := 10; y := 20; speed := 1 # 10; size := 80;
                       opacity := 1 # 2 |}];
       d_cloudOffset := 12; d_tileSize := 40 |} in
  forallb (fun c => negb (isAnimated c)) (drawPixel 800 600 params) = true.
Proof.
  intros params.
  apply (still_frame_has_no_animation 800 600 params).
  repeat split.
Defined.

Lemma frame_without_map_witness :
  let g := fst (constructor (fun _ => 1 # 2)
                  {| canvas_width := 800; canvas_height := 600;
                     c_theme := None; fps := None |} 0 0) in
  renderCalls g
  = [clearRect 0 0 800 600; clearRect 0 0 800 600;
     drawCharacter (inject_Z 2 * 40) (inject_Z 2 * 40 - 40 / 8) 40
                   Types.down false].
Proof.
  intros g. rewrite (frame_without_map g eq_refl). reflexivity.
Defined.

End Drawing.
